(** * nnsight: [AbstractModel] (src/nnsight/models/AbstractModel.py)

    A shallow embedding of [AbstractModel.__init__], [AbstractModel.__call__]
    and [AbstractModel.modulize], and the properties of the intervention
    engine that rest on them.

    The Python objects the class mutates by reference ([torch.nn.Module]s,
    [Graph]s) live in explicit stores; a method is a function in a
    state/exception/trace monad, and Python's [with] statement is a combinator
    of that monad.  *)

From Stdlib Require Import Ascii String.
From stdpp Require Import gmap strings list.

Open Scope string_scope.
Open Scope list_scope.

(** ** Python strings: [str.split], [str.join] and slicing *)

Module Py.

(** [s.split(sep)] for a one-character separator: never the empty list,
    [''.split('.') == ['']], ['a.'.split('.') == ['a', '']]. *)
Fixpoint split (sep : ascii) (s : string) : list string :=
  match s with
  | EmptyString => [EmptyString]
  | String c rest =>
      if Ascii.eqb c sep then EmptyString :: split sep rest
      else match split sep rest with
           | [] => [String c EmptyString]
           | hd :: tl => String c hd :: tl
           end
  end.

(** [sep.join(l)]. *)
Fixpoint join (sep : string) (l : list string) : string :=
  match l with
  | [] => EmptyString
  | [x] => x
  | x :: rest => x +:+ sep +:+ join sep rest
  end.

(** [l[:-k]]: all but the last [k] elements, the empty list when
    [len(l) <= k]. *)
Definition slice_to_neg {A : Type} (k : nat) (l : list A) : list A :=
  take (length l - k) l.

(** [set(l)] followed by [list(...)]: the distinct elements, in an order the
    language does not fix. *)
Definition set (l : list string) : gset string := list_to_set l.
Definition list_of_set (s : gset string) : list string := elements s.

End Py.

(** [".".join(name.split(".")[:-2])], the expression of [__call__] that turns
    a key of [graph.argument_node_names] into a module path. *)
Definition module_of (name : string) : string :=
  Py.join "." (Py.slice_to_neg 2 (Py.split "." name)).

(** The same in the words of the specification: drop the last dot-separated
    component, twice.  Dropping the last component keeps what stands before
    the last dot, and nothing when there is no dot. *)
Fixpoint has_dot (s : string) : bool :=
  match s with
  | EmptyString => false
  | String c rest => Ascii.eqb c "." || has_dot rest
  end.

Fixpoint drop_last_component (s : string) : string :=
  match s with
  | EmptyString => EmptyString
  | String c rest =>
      if has_dot rest then String c (drop_last_component rest) else EmptyString
  end.

Definition drop_last_two_components (s : string) : string :=
  drop_last_component (drop_last_component s).

(** ** Torch modules *)

(** A reference to a Python object held in one of the stores. *)
Abbreviation Ref := positive.

(** Opaque Python values (inputs, outputs, activations, positional and
    keyword arguments): the class passes them on and never looks inside. *)
Inductive Any : Type :=
  | PyNone
  | PyObj (id : nat).

Inductive Exn : Type :=
  | PyExn (cls : string).

Inductive Result (A : Type) : Type :=
  | Ok (a : A)
  | Raised (e : Exn).
Arguments Ok {A} a.
Arguments Raised {A} e.

Inductive Device : Type :=
  | Real (name : string)
  | Meta.

Record Tensor : Type := mkTensor {
  device : Device;
  requires_grad : bool;
}.

Record ModuleAttrs : Type := mkAttrs {
  cls : string;                       (* [module.__class__.__name__] *)
  wrapped : bool;                     (* the class is [nnsight.Module] *)
  module_path : option string;
  tracer : option Ref;
  output_shape : option (list nat);
}.

(** A [torch.nn.Module]: its attributes, its own parameters and buffers, and
    its registered children in registration order ([_modules], a dict: the
    names are distinct). *)
#[warnings="-register-all"]
Inductive TorchModule : Type :=
  | TModule (attrs : ModuleAttrs)
            (params buffers : list (string * Tensor))
            (children : list (string * TorchModule)).

Definition attrs_of (m : TorchModule) : ModuleAttrs :=
  let 'TModule a _ _ _ := m in a.
Definition own_parameters (m : TorchModule) : list (string * Tensor) :=
  let 'TModule _ ps _ _ := m in ps.
Definition own_buffers (m : TorchModule) : list (string * Tensor) :=
  let 'TModule _ _ bs _ := m in bs.

(** [module.named_children()]. *)
Definition named_children (m : TorchModule) : list (string * TorchModule) :=
  let 'TModule _ _ _ cs := m in cs.

(** The prefix torch gives a child: [prefix + ('.' if prefix else '') + name]. *)
Definition submodule_prefix (prefix name : string) : string :=
  match prefix with
  | EmptyString => name
  | _ => prefix +:+ String "." name
  end.

(** [module.named_modules(prefix=prefix)]: the module itself under [prefix],
    then the modules of each child, depth first. *)
Fixpoint named_modules (prefix : string) (m : TorchModule) {struct m}
  : list (string * TorchModule) :=
  let 'TModule _ _ _ cs := m in
  (prefix, m) ::
  (fix over (cs : list (string * TorchModule)) : list (string * TorchModule) :=
     match cs with
     | [] => []
     | (name, c) :: rest => named_modules (submodule_prefix prefix name) c ++ over rest
     end) cs.

(** [module.parameters()]: the parameters of the module and of all its
    descendants. *)
Fixpoint parameters (m : TorchModule) {struct m} : list Tensor :=
  let 'TModule _ ps _ cs := m in
  map snd ps ++
  (fix over (cs : list (string * TorchModule)) : list Tensor :=
     match cs with
     | [] => []
     | (_, c) :: rest => parameters c ++ over rest
     end) cs.

(** Parameters and buffers together. *)
Fixpoint tensors (m : TorchModule) {struct m} : list Tensor :=
  let 'TModule _ ps bs cs := m in
  map snd ps ++ map snd bs ++
  (fix over (cs : list (string * TorchModule)) : list Tensor :=
     match cs with
     | [] => []
     | (_, c) :: rest => tensors c ++ over rest
     end) cs.

Definition on_device (d : Device) (t : Tensor) : Tensor :=
  {| device := d; requires_grad := requires_grad t |}.

(** [module.to(d)]: moves every parameter and buffer of the module and of its
    descendants, in place. *)
Fixpoint to (d : Device) (m : TorchModule) {struct m} : TorchModule :=
  let 'TModule a ps bs cs := m in
  TModule a (map (λ '(n, t), (n, on_device d t)) ps)
            (map (λ '(n, t), (n, on_device d t)) bs)
            (map (λ '(n, c), (n, to d c)) cs).

Definition frozen (t : Tensor) : Tensor :=
  {| device := device t; requires_grad := false |}.

(** [for param in module.parameters(): param.requires_grad = False]. *)
Fixpoint freeze (m : TorchModule) {struct m} : TorchModule :=
  let 'TModule a ps bs cs := m in
  TModule a (map (λ '(n, t), (n, frozen t)) ps) bs
            (map (λ '(n, c), (n, freeze c)) cs).

(** [Module.wrap(module)]: swaps the class of the object for [nnsight.Module]
    in place and returns the object; tensors and children stay. *)
Definition Module_wrap (m : TorchModule) : TorchModule :=
  let 'TModule a ps bs cs := m in
  TModule {| cls := cls a; wrapped := true; module_path := module_path a;
             tracer := tracer a; output_shape := output_shape a |} ps bs cs.

(** [for name, module in m.named_children(): setattr(m, name, Module.wrap(module))].
    Each entry of [_modules] is visited once and written back under its own
    name. *)
Definition wrap_children (m : TorchModule) : TorchModule :=
  let 'TModule a ps bs cs := m in
  TModule a ps bs (map (λ '(n, c), (n, Module_wrap c)) cs).

Definition set_module_path (p : string) (a : ModuleAttrs) : ModuleAttrs :=
  {| cls := cls a; wrapped := wrapped a; module_path := Some p;
     tracer := tracer a; output_shape := output_shape a |}.

(** [for name, module in m.named_modules(): module.module_path = name]: the
    traversal of [named_modules], writing the attribute at every module it
    yields. *)
Fixpoint assign_module_paths (prefix : string) (m : TorchModule) {struct m}
  : TorchModule :=
  let 'TModule a ps bs cs := m in
  TModule (set_module_path prefix a) ps bs
    (map (λ '(n, c), (n, assign_module_paths (submodule_prefix prefix n) c)) cs).

(** ** Graphs, edits, hooks *)

(** [nnsight.tracing.Graph], as far as [AbstractModel] touches it.
    Modelled from the spec: the class [Graph] itself is not part of the
    sources at hand; [iteration_counter] is the "current step, starts at 0"
    of the specification's data model, [argument_node_names] the dict whose
    keys [__call__] reads, [nodes] the names of the graph's nodes. *)
Record Graph : Type := mkGraph {
  argument_node_names : list (string * list string);
  nodes : list string;
  iteration_counter : nat;
}.

(** [d.keys()]. *)
Definition keys {V : Type} (d : list (string * V)) : list string := map fst d.

(** Modelled from the spec: [Graph.increment()] is not part of the sources at
    hand; it "advances [iteration_counter] by 1". *)
Definition Graph_increment (g : Graph) : Graph :=
  {| argument_node_names := argument_node_names g;
     nodes := nodes g;
     iteration_counter := iteration_counter g + 1 |}.

(** The two [Edit]s [modulize] constructs, with the arguments it gives to
    their constructors; [wrapper] is the [wme.wrapper] attribute. *)
Inductive Edit : Type :=
  | WrapperModuleEdit (edit_path module_name : string) (wrapper : TorchModule)
  | GraphEdit (edit_path : string) (graph : Ref).

(** [lambda module, input, output: graph.increment()], the closure
    [__call__] hands to [_register_increment_hook], with the graph it
    captures. *)
Inductive ForwardHook : Type :=
  | IncrementHook (graph : Ref).

(** [lambda activations, module_path: intervene(activations, module_path,
    graph, direction)], the two closures [__call__] hands to [HookModel]. *)
Inductive ObserverHook : Type :=
  | InterveneHook (graph : Ref) (direction : string).

(** The arguments of one [HookModel(model, modules, input_hook=, output_hook=)]. *)
Record HookModel : Type := mkHookModel {
  hm_modules : list string;
  input_hook : ObserverHook;
  output_hook : ObserverHook;
}.

(** A module object in the store: the module tree, the [training] flag that
    [eval()] and [train()] write, the forward hooks registered on the main
    module, keyed by the id of their [RemovableHandle], and the observation
    points the active [HookModel] scopes have attached. *)
Record HostObj : Type := mkHost {
  tree : TorchModule;
  training : bool;
  forward_hooks : list (nat * ForwardHook);
  hook_models : list HookModel;
}.

Definition set_tree (t : TorchModule) (h : HostObj) : HostObj :=
  {| tree := t; training := training h;
     forward_hooks := forward_hooks h; hook_models := hook_models h |}.
Definition set_training (b : bool) (h : HostObj) : HostObj :=
  {| tree := tree h; training := b;
     forward_hooks := forward_hooks h; hook_models := hook_models h |}.
Definition set_forward_hooks (l : list (nat * ForwardHook)) (h : HostObj) : HostObj :=
  {| tree := tree h; training := training h;
     forward_hooks := l; hook_models := hook_models h |}.
Definition set_hook_models (l : list HookModel) (h : HostObj) : HostObj :=
  {| tree := tree h; training := training h;
     forward_hooks := forward_hooks h; hook_models := l |}.

(** [nnsight.patching.Patcher], an opaque context manager. *)
Inductive Patcher : Type :=
  | Patcher_ (patches : list string).

(** ** The model object and the world *)

Record AbstractModel : Type := mkModel {
  repoid_path_clsname : string;
  args : list Any;
  kwargs : list (string * Any);
  alter : bool;
  dispatched : bool;
  custom_model : bool;
  meta_model : option Ref;
  tokenizer : option Any;
  local_model : option Ref;
  edits : list Edit;
}.

Record World : Type := mkWorld {
  self : AbstractModel;
  heap : gmap Ref HostObj;       (* the [torch.nn.Module] objects *)
  graphs : gmap Ref Graph;       (* the [Graph] objects *)
  next_handle : nat;             (* [RemovableHandle.next_id] *)
}.

Definition set_self (f : AbstractModel → AbstractModel) (w : World) : World :=
  {| self := f (self w); heap := heap w; graphs := graphs w;
     next_handle := next_handle w |}.
Definition set_heap (f : gmap Ref HostObj → gmap Ref HostObj) (w : World) : World :=
  {| self := self w; heap := f (heap w); graphs := graphs w;
     next_handle := next_handle w |}.
Definition set_graphs (f : gmap Ref Graph → gmap Ref Graph) (w : World) : World :=
  {| self := self w; heap := heap w; graphs := f (graphs w);
     next_handle := next_handle w |}.
Definition set_next_handle (n : nat) (w : World) : World :=
  {| self := self w; heap := heap w; graphs := graphs w; next_handle := n |}.

Definition set_dispatched (b : bool) (m : AbstractModel) : AbstractModel :=
  {| repoid_path_clsname := repoid_path_clsname m; args := args m;
     kwargs := kwargs m; alter := alter m; dispatched := b;
     custom_model := custom_model m; meta_model := meta_model m;
     tokenizer := tokenizer m; local_model := local_model m; edits := edits m |}.
Definition set_meta_model (r : option Ref) (m : AbstractModel) : AbstractModel :=
  {| repoid_path_clsname := repoid_path_clsname m; args := args m;
     kwargs := kwargs m; alter := alter m; dispatched := dispatched m;
     custom_model := custom_model m; meta_model := r;
     tokenizer := tokenizer m; local_model := local_model m; edits := edits m |}.
Definition set_local_model (r : option Ref) (m : AbstractModel) : AbstractModel :=
  {| repoid_path_clsname := repoid_path_clsname m; args := args m;
     kwargs := kwargs m; alter := alter m; dispatched := dispatched m;
     custom_model := custom_model m; meta_model := meta_model m;
     tokenizer := tokenizer m; local_model := r; edits := edits m |}.
Definition set_edits (l : list Edit) (m : AbstractModel) : AbstractModel :=
  {| repoid_path_clsname := repoid_path_clsname m; args := args m;
     kwargs := kwargs m; alter := alter m; dispatched := dispatched m;
     custom_model := custom_model m; meta_model := meta_model m;
     tokenizer := tokenizer m; local_model := local_model m; edits := l |}.

(** ** What a run leaves behind: the trace *)

(** The calls a method makes to its collaborators, in the order it makes
    them. *)
Inductive Event : Type :=
  | EvPatcherEnter (p : Patcher)
  | EvPatcherExit (p : Patcher)
  | EvInitEmptyWeightsEnter
  | EvInitEmptyWeightsExit
  | EvDeepcopy (src dst : Ref)
  | EvLoadMeta (repoid : string)
  | EvToMeta (r : Ref)
  | EvWrap (r : Ref)
  | EvWrapChildren (r : Ref)
  | EvAssignModulePaths (r : Ref)
  | EvExampleInput
  | EvPrepareInputs (x : Any)
  | EvScan (x : Any)
  | EvLoadLocal (repoid : string)
  | EvLoadLocalReturned (r : Ref)
  | EvFreeze (r : Ref)
  | EvEditorEnter (es : list Edit)
  | EvEdit (e : Edit)
  | EvRestore (e : Edit)
  | EvEditorExit
  | EvRegisterIncrementHook (handle : nat) (hook : ForwardHook)
  | EvRemoveIncrementHook (handle : nat)
  | EvCompile (g : Ref)
  | EvEval
  | EvTrain
  | EvInferenceModeEnter (mode : bool)
  | EvInferenceModeExit
  | EvHookModelEnter (hm : HookModel)
  | EvHookModelExit
  | EvFn (x : Any)
  | EvIntervene (a : Any) (path : string) (g : Ref) (direction : string)
  | EvIncrement (g : Ref)
  | EvMetaEdit (e : Edit)
  | EvProxyCall (g : Ref) (module_name node_name : string)
  | EvAppendEdit (e : Edit)
  | EvRaise (e : Exn).

(** ** The monad: state, exceptions, trace *)

Definition M (A : Type) : Type := World → Result A * World * list Event.

Definition ret {A} (a : A) : M A := λ w, (Ok a, w, []).
Definition raise {A} (e : Exn) : M A := λ w, (Raised e, w, []).
Definition bind {A B} (m : M A) (f : A → M B) : M B := λ w,
  match m w with
  | (Ok a, w1, t1) => let '(r, w2, t2) := f a w1 in (r, w2, t1 ++ t2)
  | (Raised e, w1, t1) => (Raised e, w1, t1)
  end.

#[global] Instance M_ret : MRet M := @ret.
#[global] Instance M_bind : MBind M := λ A B f m, bind m f.

Definition emit (ev : Event) : M unit := λ w, (Ok tt, w, [ev]).
Definition gets {A} (f : World → A) : M A := λ w, (Ok (f w), w, []).
Definition modify (f : World → World) : M unit := λ w, (Ok tt, f w, []).

(** The outcome of a call to a collaborator; an exception it raises is
    written to the trace. *)
Definition lift {A} (r : Result A) : M A := λ w,
  match r with
  | Ok a => (Ok a, w, [])
  | Raised e => (Raised e, w, [EvRaise e])
  end.

(** Python's [with]: [__enter__], the body, then [__exit__] whether the body
    returned or raised; the body's exception goes on to the caller unless
    [__exit__] itself raises.  When [__enter__] raises, neither the body
    nor [__exit__] runs. *)
Definition with_ {A} (enter exit : M unit) (body : M A) : M A := λ w,
  match enter w with
  | (Raised e, w1, t1) => (Raised e, w1, t1)
  | (Ok _, w1, t1) =>
      let '(r, w2, t2) := body w1 in
      let '(x, w3, t3) := exit w2 in
      (match x with Raised e => Raised e | Ok _ => r end, w3, t1 ++ t2 ++ t3)
  end.

(** The result, the final world and the trace of a run. *)
Definition result_of {A} (o : Result A * World * list Event) : Result A := o.1.1.
Definition world_of {A} (o : Result A * World * list Event) : World := o.1.2.
Definition trace_of {A} (o : Result A * World * list Event) : list Event := o.2.

(** The outcome [o], after the events [t]. *)
Definition prepend {A} (t : list Event) (o : Result A * World * list Event)
  : Result A * World * list Event := (o.1.1, o.1.2, t ++ o.2).

(** Dereferencing. *)
Definition get_host (r : Ref) : M HostObj := λ w,
  match heap w !! r with
  | Some h => (Ok h, w, [])
  | None => (Raised (PyExn "ReferenceError"), w, [])
  end.
Definition update_host (r : Ref) (f : HostObj → HostObj) : M unit :=
  modify (set_heap (base.alter f r)).
Definition get_graph (r : Ref) : M Graph := λ w,
  match graphs w !! r with
  | Some g => (Ok g, w, [])
  | None => (Raised (PyExn "ReferenceError"), w, [])
  end.
Definition put_graph (r : Ref) (g : Graph) : M unit :=
  modify (set_graphs (insert r g)).

(** A new object at a reference no object has. *)
Definition alloc_host (h : HostObj) : M Ref := λ w,
  let r := fresh (dom (heap w)) in
  (Ok r, set_heap (insert r h) w, []).

(** [self.local_model], [self.meta_model]: [None] has no attributes. *)
Definition the_local_model : M Ref := λ w,
  match local_model (self w) with
  | Some r => (Ok r, w, [])
  | None => (Raised (PyExn "AttributeError"), w, [])
  end.
Definition the_meta_model : M Ref := λ w,
  match meta_model (self w) with
  | Some r => (Ok r, w, [])
  | None => (Raised (PyExn "AttributeError"), w, [])
  end.

(** ** The host as the engine sees it *)

(** One execution of the host is opaque but for the observation points it
    passes: the submodules it calls, in order, and each completion of a
    forward pass of the main module (one decoding step), where the forward
    hooks registered on the main module fire.  It ends by returning or by
    raising.  A host execution cannot change the module tree, the edits or
    the hook registrations. *)
Inductive HostStep : Type :=
  | ModuleCall (path : string) (activations : Any)
  | StepComplete.

Record HostRun : Type := mkRun {
  steps : list HostStep;
  outcome : Result Any;
}.

(** The [fn] of [__call__]: [fn(inputs, *args, **kwargs)] runs the host. *)
Definition Callable : Type := Any → HostRun.

(** ** Collaborators *)

(** The abstract methods of [AbstractModel], which a model family
    implements.  [_register_increment_hook] is given below. *)
Class ModelImpl : Type := {
  _prepare_inputs : Any → Result Any;
  _load_meta : string → list Any → list (string * Any) → Result TorchModule;
  _load_local : string → list Any → list (string * Any) → Result TorchModule;
  _scan : Any → TorchModule → Result TorchModule;
  _run_local : Callable;
  _generation : Callable;
  _example_input : Result Any;
  _batched_inputs : list Any;
}.

(** What [AbstractModel] imports from modules of the package that are not
    among the sources at hand, taken as parameters:
    [alteration.REPOID_TO_ALTERATION], [Graph.compile], [intervention.intervene],
    [Edit.edit] and [Edit.restore], and the call of a module proxy on a graph
    node that [modulize] makes.  [Graph.compile], [intervene], [Edit.edit] and
    the proxy call may raise. *)
Class Engine : Type := {
  REPOID_TO_ALTERATION : string → option Patcher;
  Graph_compile : Graph → TorchModule → Result Graph;
  intervene : Any → string → Graph → string → Result Any * Graph;
  Edit_edit : Edit → TorchModule → Result TorchModule;
  Edit_restore : Edit → TorchModule → TorchModule;
  proxy_call : Graph → string → string → Result Graph;
}.

Definition set_repoid_path_clsname (s : string) (m : AbstractModel) : AbstractModel :=
  {| repoid_path_clsname := s; args := args m;
     kwargs := kwargs m; alter := alter m; dispatched := dispatched m;
     custom_model := custom_model m; meta_model := meta_model m;
     tokenizer := tokenizer m; local_model := local_model m; edits := edits m |}.
Definition set_custom_model (b : bool) (m : AbstractModel) : AbstractModel :=
  {| repoid_path_clsname := repoid_path_clsname m; args := args m;
     kwargs := kwargs m; alter := alter m; dispatched := dispatched m;
     custom_model := b; meta_model := meta_model m;
     tokenizer := tokenizer m; local_model := local_model m; edits := edits m |}.

(** A module object as [torch] creates it: in training mode, nothing hooked. *)
Definition new_host (t : TorchModule) : HostObj :=
  {| tree := t; training := true; forward_hooks := []; hook_models := [] |}.

(** [nnsight.Module.WrapperModule()], the pass-through module. *)
Definition WrapperModule : TorchModule :=
  TModule {| cls := "WrapperModule"; wrapped := false; module_path := None;
             tracer := None; output_shape := None |} [] [] [].

Section Methods.

Context {impl : ModelImpl} {engine : Engine}.

(** *** Scopes *)

(** [def alteration(self)]:
    [REPOID_TO_ALTERATION.get(self.repoid_path_clsname, Patcher())]. *)
Definition alteration : M Patcher :=
  name ← gets (λ w, repoid_path_clsname (self w));
  mret (default (Patcher_ []) (REPOID_TO_ALTERATION name)).

(** [with self.alteration() if self.alter else Patcher():] *)
Definition patching {A} (body : M A) : M A :=
  a ← gets (λ w, alter (self w));
  p ← (if a : bool then alteration else mret (Patcher_ []));
  with_ (emit (EvPatcherEnter p)) (emit (EvPatcherExit p)) body.

(** [with accelerate.init_empty_weights(include_buffers=True):] *)
Definition init_empty_weights {A} (body : M A) : M A :=
  with_ (emit EvInitEmptyWeightsEnter) (emit EvInitEmptyWeightsExit) body.

(** [with torch.inference_mode(mode=inference):] *)
Definition inference_mode {A} (mode : bool) (body : M A) : M A :=
  with_ (emit (EvInferenceModeEnter mode)) (emit EvInferenceModeExit) body.

(** [edit.edit(host)] and [edit.restore(host)] on the module object [r]. *)
Definition edit_host (r : Ref) (e : Edit) : M unit :=
  h ← get_host r;
  t ← lift (Edit_edit e (tree h));
  emit (EvEdit e);;
  update_host r (set_tree t).

Definition restore_host (r : Ref) (e : Edit) : M unit :=
  h ← get_host r;
  emit (EvRestore e);;
  update_host r (set_tree (Edit_restore e (tree h))).

Fixpoint restore_all (r : Ref) (es : list Edit) : M unit :=
  match es with
  | [] => mret tt
  | e :: rest => restore_host r e;; restore_all r rest
  end.

(** Modelled from the spec: the class [Editor] is not part of the sources
    at hand.  "On entry, applies a list of Edits in order to the live
    host's module tree; on exit (normal or exceptional), reverts them in
    reverse order"; "if apply partially succeeds then fails, the Editor
    must still attempt revert for the successfully-applied prefix before
    propagating the error".  [applied] holds the edits applied so far, the
    latest first. *)
Fixpoint Editor_enter (r : Ref) (applied todo : list Edit) : M unit :=
  match todo with
  | [] => mret tt
  | e :: rest => λ w,
      match edit_host r e w with
      | (Ok _, w1, t1) =>
          let '(x, w2, t2) := Editor_enter r (e :: applied) rest w1 in
          (x, w2, t1 ++ t2)
      | (Raised x, w1, t1) =>
          let '(_, w2, t2) := restore_all r applied w1 in
          (Raised x, w2, t1 ++ t2)
      end
  end.

Definition Editor_exit (r : Ref) (es : list Edit) : M unit :=
  restore_all r (rev es).

(** [with Editor(self, edits):] the host is [self.local_model]. *)
Definition Editor {A} (es : list Edit) (body : M A) : M A :=
  r ← the_local_model;
  with_ (emit (EvEditorEnter es);; Editor_enter r [] es)
        (emit EvEditorExit;; Editor_exit r es)
        body.

(** Modelled from the spec: the class [HookModel] is not part of the
    sources at hand.  "[begin(host, module_paths, on_input, on_output)]:
    attaches; [end(handle)]: detaches; must be safe even if the host
    execution raised mid-way". *)
Definition HookModel_scope {A} (r : Ref) (hm : HookModel) (body : M A) : M A :=
  with_ (emit (EvHookModelEnter hm);;
         update_host r (λ h, set_hook_models (hm :: hook_models h) h))
        (update_host r (λ h, set_hook_models (tail (hook_models h)) h);;
         emit EvHookModelExit)
        body.

(** *** Hooks *)

(** [_register_increment_hook(hook)], abstract in the class: "hook a
    function on the local_model on the main module that is incremented
    during generation", returning the "handle to remove the applied hook":
    [self.local_model.register_forward_hook(hook)]. *)
Definition _register_increment_hook (hook : ForwardHook) : M (Ref * nat) :=
  r ← the_local_model;
  id ← gets next_handle;
  modify (set_next_handle (S id));;
  update_host r (λ h, set_forward_hooks (forward_hooks h ++ [(id, hook)]) h);;
  emit (EvRegisterIncrementHook id hook);;
  mret (r, id).

(** [handle.remove()]: deletes the hook from the dict it was registered in,
    when it is still there. *)
Definition RemovableHandle_remove (handle : Ref * nat) : M unit :=
  update_host handle.1
    (λ h, set_forward_hooks
            (filter (λ p, p.1 ≠ handle.2) (forward_hooks h)) h);;
  emit (EvRemoveIncrementHook handle.2).

(** [graph.increment()] on the graph object [g]. *)
Definition increment (g : Ref) : M unit :=
  gr ← get_graph g;
  put_graph g (Graph_increment gr);;
  emit (EvIncrement g).

(** Calling [lambda module, input, output: graph.increment()]. *)
Definition call_forward_hook (hook : ForwardHook) : M unit :=
  match hook with
  | IncrementHook g => increment g
  end.

(** [intervene(activations, module_path, graph, direction)] on the graph
    object [g]. *)
Definition intervene_at (activations : Any) (module_path : string)
    (g : Ref) (direction : string) : M Any :=
  gr ← get_graph g;
  emit (EvIntervene activations module_path g direction);;
  put_graph g (intervene activations module_path gr direction).2;;
  lift (intervene activations module_path gr direction).1.

(** Calling [lambda activations, module_path: intervene(activations,
    module_path, graph, direction)]. *)
Definition call_observer_hook (hook : ObserverHook)
    (activations : Any) (module_path : string) : M Any :=
  match hook with
  | InterveneHook g direction => intervene_at activations module_path g direction
  end.

(** *** Running the host *)

Fixpoint fire_forward_hooks (hooks : list (nat * ForwardHook)) : M unit :=
  match hooks with
  | [] => mret tt
  | (_, hook) :: rest => call_forward_hook hook;; fire_forward_hooks rest
  end.

(** A module at [path] is called: every [HookModel] that holds the path
    calls its input hook, then its output hook. *)
Fixpoint observe (hms : list HookModel) (path : string) (a : Any) : M Any :=
  match hms with
  | [] => mret a
  | hm :: rest =>
      a' ← (if decide (path ∈ hm_modules hm)
            then a1 ← call_observer_hook (input_hook hm) a path;
                 call_observer_hook (output_hook hm) a1 path
            else mret a);
      observe rest path a'
  end.

Fixpoint run_steps (r : Ref) (l : list HostStep) : M unit :=
  match l with
  | [] => mret tt
  | ModuleCall path a :: rest =>
      h ← get_host r;
      observe (hook_models h) path a;;
      run_steps r rest
  | StepComplete :: rest =>
      h ← get_host r;
      fire_forward_hooks (forward_hooks h);;
      run_steps r rest
  end.

(** [fn(inputs, *args, **kwargs)]. *)
Definition call_fn (fn : Callable) (inputs : Any) : M Any :=
  r ← the_local_model;
  emit (EvFn inputs);;
  run_steps r (steps (fn inputs));;
  lift (outcome (fn inputs)).

End Methods.

(** ** The methods of [AbstractModel] *)

Section AbstractModel.

Context {impl : ModelImpl} {engine : Engine}.

(** *** [__init__] (lines 41-98) *)

(** Lines 71-83: the shape-only model.  A user's module is copied
    ([copy.deepcopy]) and the copy is moved and wrapped; otherwise the model
    family's [_load_meta] gives the module. *)
Definition build_meta_model : M unit :=
  patching (init_empty_weights (
    custom ← gets (λ w, custom_model (self w));
    if custom : bool then
      lm ← the_local_model;
      h ← get_host lm;
      c ← alloc_host h;
      emit (EvDeepcopy lm c);;
      emit (EvToMeta c);;
      update_host c (λ h, set_tree (to Meta (tree h)) h);;
      emit (EvWrap c);;
      update_host c (λ h, set_tree (Module_wrap (tree h)) h);;
      modify (set_self (set_meta_model (Some c)))
    else
      name ← gets (λ w, repoid_path_clsname (self w));
      a ← gets (λ w, args (self w));
      k ← gets (λ w, kwargs (self w));
      emit (EvLoadMeta name);;
      m ← lift (_load_meta name a k);
      c ← alloc_host (new_host m);
      emit (EvToMeta c);;
      update_host c (λ h, set_tree (to Meta (tree h)) h);;
      emit (EvWrap c);;
      update_host c (λ h, set_tree (Module_wrap (tree h)) h);;
      modify (set_self (set_meta_model (Some c))))).

(** Line 96: [self._scan(self._prepare_inputs(self._example_input()))]; the
    scan runs the meta model and writes the shapes it sees into it. *)
Definition scan_example : M unit :=
  emit EvExampleInput;;
  x ← lift _example_input;
  emit (EvPrepareInputs x);;
  x' ← lift (_prepare_inputs x);
  mm ← the_meta_model;
  h ← get_host mm;
  emit (EvScan x');;
  t ← lift (_scan x' (tree h));
  update_host mm (set_tree t).

(** [repoid_path_model] is a repo id or path ([inl]) or a module object
    ([inr]); in the second case [repoid_path_clsname], first bound to the
    object, is at once rebound to the name of its class. *)
Definition __init__ (repoid_path_model : string + Ref)
    (args_ : list Any) (alter_ : bool) (tokenizer_ : option Any)
    (kwargs_ : list (string * Any)) : M unit :=
  modify (set_self (λ _,
    {| repoid_path_clsname :=
         match repoid_path_model with inl s => s | inr _ => EmptyString end;
       args := args_; kwargs := kwargs_; alter := alter_;
       dispatched := false; custom_model := false; meta_model := None;
       tokenizer := tokenizer_; local_model := None; edits := [] |}));;
  match repoid_path_model with
  | inr r =>
      h ← get_host r;
      modify (set_self (set_repoid_path_clsname (cls (attrs_of (tree h)))));;
      modify (set_self (set_custom_model true));;
      modify (set_self (set_dispatched true));;
      modify (set_self (set_local_model (Some r)))
  | inl _ => mret tt
  end;;
  build_meta_model;;
  (* Wrap all modules in our Module class. *)
  mm ← the_meta_model;
  emit (EvWrapChildren mm);;
  update_host mm (λ h, set_tree (wrap_children (tree h)) h);;
  (* Set module_path attribute so Modules know their place. *)
  emit (EvAssignModulePaths mm);;
  update_host mm (λ h, set_tree (assign_module_paths EmptyString (tree h)) h);;
  (* Run initial dummy string to populate Module shapes, dtypes etc *)
  scan_example.

(** *** [__call__] (lines 114-196) *)

(** Lines 141-151: [if not self.dispatched: ...]. *)
Definition load_and_dispatch : M unit :=
  patching (
    name ← gets (λ w, repoid_path_clsname (self w));
    a ← gets (λ w, args (self w));
    k ← gets (λ w, kwargs (self w));
    emit (EvLoadLocal name);;
    m ← lift (_load_local name a k);
    r ← alloc_host (new_host m);
    emit (EvLoadLocalReturned r);;
    modify (set_self (set_local_model (Some r)));;
    (* By default, all params should be frozen. *)
    lm ← the_local_model;
    emit (EvFreeze lm);;
    update_host lm (λ h, set_tree (freeze (tree h)) h));;
  modify (set_self (set_dispatched true)).

(** [graph.compile(self.local_model)]. *)
Definition compile (graph : Ref) : M unit :=
  lm ← the_local_model;
  h ← get_host lm;
  g ← get_graph graph;
  emit (EvCompile graph);;
  g' ← lift (Graph_compile g (tree h));
  put_graph graph g'.

(** [self.local_model.eval()] and [self.local_model.train()]. *)
Definition eval : M unit :=
  lm ← the_local_model;
  emit EvEval;;
  update_host lm (set_training false).

Definition train : M unit :=
  lm ← the_local_model;
  emit EvTrain;;
  update_host lm (set_training true).

(** Lines 162-167: the modules of the keys of [graph.argument_node_names]. *)
Definition hooked_modules (g : Graph) : gset string :=
  Py.set (map module_of (keys (argument_node_names g))).

(** Lines 153-194: the body of [with Editor(self, edits):]. *)
Definition run_edited (fn : Callable) (inputs : Any) (graph : Ref)
    (inference : bool) : M Any :=
  increment_hook ← _register_increment_hook (IncrementHook graph);
  g ← get_graph graph;
  let modules := hooked_modules g in
  compile graph;;
  (if inference then eval else train);;
  emit (EvPrepareInputs inputs);;
  prepared ← lift (_prepare_inputs inputs);
  lm ← the_local_model;
  output ← inference_mode inference
    (HookModel_scope lm
       {| hm_modules := Py.list_of_set modules;
          input_hook := InterveneHook graph "input";
          output_hook := InterveneHook graph "output" |}
       (call_fn fn prepared));
  RemovableHandle_remove increment_hook;;
  eval;;
  mret output.

(** Lines 140-151. *)
Definition dispatch_if_needed : M unit :=
  (* If local_model not yet loaded, do so. *)
  d ← gets (λ w, dispatched (self w));
  if negb d then load_and_dispatch else mret tt.

(** Lines 137-138: [if edits is None: edits = self.edits]. *)
Definition edits_or_recorded (edits_arg : option (list Edit)) (w : World)
  : list Edit :=
  match edits_arg with
  | None => edits (self w)
  | Some l => l
  end.

(** [edits_arg] is the keyword argument [edits], [None] by default. *)
Definition __call__ (fn : Callable) (inputs : Any) (graph : Ref)
    (edits_arg : option (list Edit)) (inference : bool) : M Any :=
  es ← gets (edits_or_recorded edits_arg);
  dispatch_if_needed;;
  Editor es (run_edited fn inputs graph inference).

(** *** [modulize] (lines 253-286) *)

(** [wme.edit(self.meta_model)], [ge.edit(self.meta_model)]. *)
Definition edit_meta_model (e : Edit) : M unit :=
  mm ← the_meta_model;
  h ← get_host mm;
  emit (EvMetaEdit e);;
  t ← lift (Edit_edit e (tree h));
  update_host mm (set_tree t).

(** [self.edits.append(e)]. *)
Definition append_edit (e : Edit) : M unit :=
  emit (EvAppendEdit e);;
  modify (set_self (λ m, set_edits (edits m ++ [e]) m)).

(** The wrapper of lines 265-268: wrapped, at the path
    [f"{module.module_path}.{module_name}"], with the tracer and the output
    shape of [module]. *)
Definition wrapper_for (module : TorchModule) (path module_name : string)
  : TorchModule :=
  let 'TModule a ps bs cs := Module_wrap WrapperModule in
  TModule {| cls := cls a; wrapped := wrapped a;
             module_path := Some (path +:+ String "." module_name);
             tracer := tracer (attrs_of module);
             output_shape := output_shape (attrs_of module) |} ps bs cs.

(** [module] is the [nnsight.Module] given; [module_graph] is the value of
    its property [module.graph], the execution graph of the module's forward
    method. *)
Definition modulize (module : TorchModule) (module_graph : Ref)
    (node_name module_name : string) : M unit :=
  path ← lift (match module_path (attrs_of module) with
               | Some p => Ok p
               | None => Raised (PyExn "AttributeError")
               end);
  (* Create a WrapperModuleEdit ... wrap with our Module and update new attributes. *)
  let wme := WrapperModuleEdit path module_name
               (wrapper_for module path module_name) in
  (* Carry out the edit on the meta_model. *)
  edit_meta_model wme;;
  (* Add two proxies/nodes ... *)
  g ← get_graph module_graph;
  emit (EvProxyCall module_graph module_name node_name);;
  g' ← lift (proxy_call g module_name node_name);
  put_graph module_graph g';;
  (* Create and carry out the edit on the meta_model. *)
  let ge := GraphEdit path module_graph in
  edit_meta_model ge;;
  (* Append to self.edits ... *)
  append_edit wme;;
  append_edit ge.

End AbstractModel.

(** ** The lifetime of a model object *)

(** What a caller does with the object once it is constructed. *)
Inductive Use : Type :=
  | UseCall (fn : Callable) (inputs : Any) (graph : Ref)
            (edits_arg : option (list Edit)) (inference : bool)
  | UseModulize (module : TorchModule) (module_graph : Ref)
                (node_name module_name : string).

Section Lifetime.

Context {impl : ModelImpl} {engine : Engine}.

Definition use (u : Use) : M unit :=
  match u with
  | UseCall fn inputs graph edits_arg inference =>
      __call__ fn inputs graph edits_arg inference;; mret tt
  | UseModulize module module_graph node_name module_name =>
      modulize module module_graph node_name module_name
  end.

(** The caller catches what a use raises and goes on with the object. *)
Definition attempt (m : M unit) : M unit := λ w,
  let '(_, w', t) := m w in (Ok tt, w', t).

Fixpoint lifetime (us : list Use) : M unit :=
  match us with
  | [] => mret tt
  | u :: rest => attempt (use u);; lifetime rest
  end.

End Lifetime.

(** ** A small model family and engine, to run the methods on *)

Module Demo.

Definition weight (d : string) (g : bool) : Tensor :=
  {| device := Real d; requires_grad := g |}.

Definition plain (c : string) : ModuleAttrs :=
  {| cls := c; wrapped := false; module_path := None; tracer := None;
     output_shape := None |}.

(** A host with two layers, the second holding a sublayer. *)
Definition net : TorchModule :=
  TModule (plain "Net") [] []
    [("layer0", TModule (plain "Linear") [("weight", weight "cpu" true)] [] []);
     ("layer1", TModule (plain "Block") [("bias", weight "cpu" true)]
                  [("mask", weight "cpu" false)]
                  [("mlp", TModule (plain "Linear")
                             [("weight", weight "cpu" true)] [] [])])].

Definition child_names (m : TorchModule) : list string :=
  map fst (named_children m).

(** An engine whose edits act on the root of the host: a wrapper edit
    registers the wrapper under a name that must be free, and restoring
    deletes the module of that name; a graph edit leaves the tree as it is.
    Compiling fails when the graph has a key whose module is not a module of
    the host. *)
Definition demo_edit (e : Edit) (t : TorchModule) : Result TorchModule :=
  match e with
  | WrapperModuleEdit EmptyString n w =>
      if decide (n ∈ child_names t) then Raised (PyExn "KeyError")
      else let 'TModule a ps bs cs := t in Ok (TModule a ps bs (cs ++ [(n, w)]))
  | WrapperModuleEdit _ _ _ => Raised (PyExn "AttributeError")
  | GraphEdit _ _ => Ok t
  end.

Definition demo_restore (e : Edit) (t : TorchModule) : TorchModule :=
  match e with
  | WrapperModuleEdit _ n _ =>
      let 'TModule a ps bs cs := t in
      TModule a ps bs (filter (λ p, p.1 ≠ n) cs)
  | GraphEdit _ _ => t
  end.

Definition demo_compile (g : Graph) (t : TorchModule) : Result Graph :=
  if decide (Forall (λ k, module_of k ∈ map fst (named_modules EmptyString t))
               (keys (argument_node_names g)))
  then Ok g else Raised (PyExn "MissingObservationPoint").

#[export] Instance engine : Engine := {|
  REPOID_TO_ALTERATION := λ _, None;
  Graph_compile := demo_compile;
  intervene := λ a _ g _, (Ok a, g);
  Edit_edit := demo_edit;
  Edit_restore := demo_restore;
  proxy_call := λ g module_name _,
    Ok {| argument_node_names := argument_node_names g;
          nodes := nodes g ++ [module_name];
          iteration_counter := iteration_counter g |};
|}.

(** A model family whose checkpoints load ([family]) and one whose local
    load fails ([offline]). *)
#[export] Instance family : ModelImpl := {|
  _prepare_inputs := λ x, Ok x;
  _load_meta := λ _ _ _, Ok net;
  _load_local := λ _ _ _, Ok net;
  _scan := λ _ t, Ok t;
  _run_local := λ x, {| steps := [ModuleCall "layer0" x; ModuleCall "layer1" x;
                                  StepComplete];
                        outcome := Ok x |};
  _generation := λ x, {| steps := [ModuleCall "layer0" x; StepComplete;
                                   ModuleCall "layer0" x; StepComplete];
                         outcome := Ok x |};
  _example_input := Ok (PyObj 0);
  _batched_inputs := [];
|}.

Definition offline : ModelImpl := {|
  _prepare_inputs := λ x, Ok x;
  _load_meta := λ _ _ _, Ok net;
  _load_local := λ _ _ _, Raised (PyExn "OSError");
  _scan := λ _ t, Ok t;
  _run_local := @_run_local family;
  _generation := @_generation family;
  _example_input := Ok (PyObj 0);
  _batched_inputs := [];
|}.

(** A host execution that raises after its first layer. *)
Definition failing_fn : Callable :=
  λ x, {| steps := [ModuleCall "layer0" x];
          outcome := Raised (PyExn "RuntimeError") |}.

(** A graph that reads the output of [layer0] at step 0, and one that reads
    a module the host does not have. *)
Definition graph0 : Graph :=
  {| argument_node_names := [("layer0.output.0", ["a"])];
     nodes := ["a"]; iteration_counter := 0 |}.

Definition bad_graph : Graph :=
  {| argument_node_names := [("layer7.output.0", ["a"])];
     nodes := ["a"]; iteration_counter := 0 |}.

(** The world before any model exists: the user's module at reference 1,
    the two graphs at references 1 and 2. *)
Definition no_model : AbstractModel :=
  {| repoid_path_clsname := EmptyString; args := []; kwargs := [];
     alter := true; dispatched := false; custom_model := false;
     meta_model := None; tokenizer := None; local_model := None; edits := [] |}.

Definition world0 : World :=
  {| self := no_model;
     heap := {[ 1%positive := new_host net ]};
     graphs := {[ 1%positive := graph0; 2%positive := bad_graph ]};
     next_handle := 0 |}.

(** The world after [AbstractModel(net)], and after [AbstractModel("gpt2")]. *)
Definition custom_world : World :=
  world_of (__init__ (inr 1%positive) [] true None [] world0).

Definition repo_world : World :=
  world_of (__init__ (impl := family) (inl "gpt2") [] true None [] world0).

Definition offline_world : World :=
  world_of (__init__ (impl := offline) (inl "gpt2") [] true None [] world0).


(** The root of the meta model of [custom_world]. *)
Definition meta_root : TorchModule :=
  assign_module_paths EmptyString (wrap_children (Module_wrap (to Meta net))).

(** Two calls in a row, as a caller that retries would make them. *)
Definition two_calls : list Use :=
  [UseCall (@_run_local family) (PyObj 5) 1%positive None true;
   UseCall (@_run_local family) (PyObj 5) 1%positive None true].

(** An engine that finds [graph.nodes[node_name]] only when the graph has
    a node of that name. *)
Definition strict : Engine := {|
  REPOID_TO_ALTERATION := λ _, None;
  Graph_compile := demo_compile;
  intervene := λ a _ g _, (Ok a, g);
  Edit_edit := demo_edit;
  Edit_restore := demo_restore;
  proxy_call := λ g module_name node_name,
    if decide (node_name ∈ nodes g)
    then Ok {| argument_node_names := argument_node_names g;
               nodes := nodes g ++ [module_name];
               iteration_counter := iteration_counter g |}
    else Raised (PyExn "KeyError");
|}.

(** A model family whose checkpoint is not to be found. *)
Definition missing : ModelImpl := {|
  _prepare_inputs := λ x, Ok x;
  _load_meta := λ _ _ _, Raised (PyExn "OSError");
  _load_local := λ _ _ _, Raised (PyExn "OSError");
  _scan := λ _ t, Ok t;
  _run_local := @_run_local family;
  _generation := @_generation family;
  _example_input := Ok (PyObj 0);
  _batched_inputs := [];
|}.

(** A run that returns and a run whose host execution raises, both with
    [inference=False], on the model made of the user's module. *)
Definition returning_run : Result Any * World * list Event :=
  __call__ (impl := family) (engine := engine)
    (@_run_local family) (PyObj 5) 1%positive None false custom_world.

Definition failing_run : Result Any * World * list Event :=
  __call__ (impl := family) (engine := engine)
    failing_fn (PyObj 5) 1%positive None false custom_world.

End Demo.

(** ** Induction on module trees *)

Section TorchModuleInduction.

Variable P : TorchModule → Prop.
Hypothesis step : ∀ a ps bs cs,
  Forall (λ nc, P nc.2) cs → P (TModule a ps bs cs).

Fixpoint TorchModule_tree_ind (m : TorchModule) : P m :=
  let 'TModule a ps bs cs := m in
  step a ps bs cs
    ((fix over (cs : list (string * TorchModule)) : Forall (λ nc, P nc.2) cs :=
        match cs with
        | [] => List.Forall_nil _
        | (n, c) :: rest =>
            List.Forall_cons _ (n, c) rest (TorchModule_tree_ind c) (over rest)
        end) cs).

End TorchModuleInduction.

(** ** Kinds of events *)

(** The shape-inference pass is run. *)
Definition is_scan (ev : Event) : bool :=
  match ev with EvScan _ => true | _ => false end.

(** A shape-only model is built: from a copy of the user's module, or by
    the model family. *)
Definition is_build (ev : Event) : bool :=
  match ev with EvDeepcopy _ _ | EvLoadMeta _ => true | _ => false end.

(** The real host is loaded or run, or one of its hooks fires. *)
Definition is_host_execution (ev : Event) : bool :=
  match ev with
  | EvLoadLocal _ | EvLoadLocalReturned _ | EvFn _
  | EvIntervene _ _ _ _ | EvIncrement _ => true
  | _ => false
  end.

(** [_load_local] is called; [_load_local] has returned. *)
Definition is_load_local (ev : Event) : bool :=
  match ev with EvLoadLocal _ => true | _ => false end.

Definition is_load_returned (ev : Event) : bool :=
  match ev with EvLoadLocalReturned _ => true | _ => false end.

(** [graph.compile] is called. *)
Definition is_compile (ev : Event) : bool :=
  match ev with EvCompile _ => true | _ => false end.

(** An observation hook of [HookModel] is attached or fires, the host is
    run, or the graph is incremented. *)
Definition runs_or_observes (ev : Event) : bool :=
  match ev with
  | EvHookModelEnter _ | EvFn _ | EvIntervene _ _ _ _ | EvIncrement _ => true
  | _ => false
  end.

(** A hook is attached to the host (the increment hook or the hooks of
    [HookModel]) or the host is run. *)
Definition attaches_or_runs (ev : Event) : bool :=
  match ev with
  | EvRegisterIncrementHook _ _ | EvHookModelEnter _ | EvFn _ => true
  | _ => false
  end.

(** What a host execution alone can write to the trace. *)
Definition is_step_event (ev : Event) : bool :=
  match ev with
  | EvIntervene _ _ _ _ | EvIncrement _ | EvRaise _ => true
  | _ => false
  end.

(** An event of the [Editor] scope. *)
Definition is_editor_event (ev : Event) : bool :=
  match ev with
  | EvEditorEnter _ | EvEdit _ | EvRestore _ | EvEditorExit => true
  | _ => false
  end.

(** The scope of the editor is entered or an edit is applied. *)
Definition enters_or_edits (ev : Event) : bool :=
  match ev with EvEditorEnter _ | EvEdit _ => true | _ => false end.

(** The increment hook is registered; the increment hook is removed. *)
Definition is_register (ev : Event) : bool :=
  match ev with EvRegisterIncrementHook _ _ => true | _ => false end.

Definition is_remove (ev : Event) : bool :=
  match ev with EvRemoveIncrementHook _ => true | _ => false end.

(** ** Traces *)

(** In the trace [t], every event of the kind [P] comes after a call of
    [graph.compile]. *)
Definition preceded_by_compile (P : Event → bool) (t : list Event) : Prop :=
  ∀ pre ev post, t = pre ++ ev :: post → P ev = true →
                 ∃ g, EvCompile g ∈ pre.

(** The edits a trace applies to the host, in the order it applies them. *)
Definition applied_edits (t : list Event) : list Edit :=
  omap (λ ev, match ev with EvEdit e => Some e | _ => None end) t.

(** The [HookModel] that [__call__] makes for the graph object [g] whose
    value was [G] when line 162 read it. *)
Definition HookModel_for (g : Ref) (G : Graph) : HookModel :=
  {| hm_modules := Py.list_of_set (hooked_modules G);
     input_hook := InterveneHook g "input";
     output_hook := InterveneHook g "output" |}.

(** The outcome [o] of the body of a [with], after [__exit__]. *)
Definition finish {A} (exit : M unit) (o : Result A * World * list Event)
  : Result A * World * list Event :=
  let '(x, w3, t3) := exit o.1.2 in
  (match x with Raised e => Raised e | Ok _ => o.1.1 end, w3, o.2 ++ t3).

(** ** Relations between the world before and the world after *)

(** No condition on the worlds. *)
Definition any_world : relation World := λ _ _, True.

(** [self.meta_model] is the same object. *)
Definition same_meta_model : relation World :=
  λ w w', meta_model (self w') = meta_model (self w).

(** [dispatched], once set, is set. *)
Definition stays_dispatched : relation World :=
  λ w w', dispatched (self w) = true → dispatched (self w') = true.

(** The module tree of the object [r]. *)
Definition host_tree (r : Ref) (w : World) : option TorchModule :=
  tree <$> heap w !! r.

(** The model object is as it was and every module object has the module
    tree it had. *)
Definition same_structure : relation World :=
  λ w w', self w' = self w ∧ ∀ r, host_tree r w' = host_tree r w.

(** [w'] is [w] but for the module tree of the object [r], which is [t]. *)
Definition retree (r : Ref) (t : TorchModule) (w w' : World) : Prop :=
  self w' = self w ∧ graphs w' = graphs w ∧ next_handle w' = next_handle w
  ∧ heap w' = base.alter (set_tree t) r (heap w).

(** [always P Q m]: whatever the world, a run of [m] emits only events
    that satisfy [P] and leaves a world related by [Q] to the one it
    started in. *)
Definition always {A} (P : Event → Prop) (Q : relation World) (m : M A) : Prop :=
  ∀ w, Forall P (trace_of (m w)) ∧ Q w (world_of (m w)).

(** ** What the loops of [Editor] do to a module tree *)

Section EditLists.

Context {engine : Engine}.

(** [for edit in edits: edit.edit(host)], stopping at the first that raises. *)
Fixpoint apply_edits (es : list Edit) (t : TorchModule) : Result TorchModule :=
  match es with
  | [] => Ok t
  | e :: rest =>
      match Edit_edit e t with
      | Ok t' => apply_edits rest t'
      | Raised x => Raised x
      end
  end.

(** [for edit in edits: edit.restore(host)]. *)
Fixpoint restore_edits (es : list Edit) (t : TorchModule) : TorchModule :=
  match es with
  | [] => t
  | e :: rest => restore_edits rest (Edit_restore e t)
  end.


End EditLists.

(** ** The body of the [Editor] scope of [__call__] *)

(** [fn] is called. *)
Definition is_fn (ev : Event) : bool :=
  match ev with EvFn _ => true | _ => false end.

(** An event that, in a run of [__call__], only the body of the [Editor]
    scope (lines 154-194) emits. *)
Definition is_body_event (ev : Event) : bool :=
  match ev with
  | EvRegisterIncrementHook _ _ | EvRemoveIncrementHook _ | EvCompile _
  | EvEval | EvTrain | EvPrepareInputs _ | EvInferenceModeEnter _
  | EvInferenceModeExit | EvHookModelEnter _ | EvHookModelExit | EvFn _
  | EvIntervene _ _ _ _ | EvIncrement _ => true
  | _ => false
  end.

(** The events of the body up to the call of [fn], lines 156-188: [handle]
    is the id of the handle of the increment hook, [G] the graph object as
    line 162 read it, [x] the prepared inputs. *)
Definition before_fn (handle : nat) (g : Ref) (G : Graph) (inference : bool)
    (inputs x : Any) : list Event :=
  [EvRegisterIncrementHook handle (IncrementHook g); EvCompile g;
   if inference then EvEval else EvTrain; EvPrepareInputs inputs;
   EvInferenceModeEnter inference; EvHookModelEnter (HookModel_for g G);
   EvFn x].

(** The events of the body once [fn] has returned, lines 188-192. *)
Definition after_fn (handle : nat) : list Event :=
  [EvHookModelExit; EvInferenceModeExit; EvRemoveIncrementHook handle; EvEval].

(** The host [h] once a run that registered its increment hook under
    [handle] has returned: in evaluation mode, without the hooks of that
    handle. *)
Definition returned_host (handle : nat) (h : HostObj) : HostObj :=
  {| tree := tree h; training := false;
     forward_hooks := filter (λ p, p.1 ≠ handle) (forward_hooks h);
     hook_models := hook_models h |}.

Section Flow.

Context {impl : ModelImpl}.

(** What an event of a run of [__call__(fn, inputs, graph, inference=...)]
    may be called on. *)
Definition as_called (inputs : Any) (g : Ref) (inference : bool) (ev : Event)
  : Prop :=
  match ev with
  | EvPrepareInputs y => y = inputs
  | EvFn y => _prepare_inputs inputs = Ok y
  | EvCompile g' => g' = g
  | EvRegisterIncrementHook _ hook => hook = IncrementHook g
  | EvInferenceModeEnter mode => mode = inference
  | EvTrain => inference = false
  | _ => True
  end.

End Flow.

(** ** The construction and [modulize] *)


(** [self.edits.append(e)] is called. *)
Definition is_append (ev : Event) : bool :=
  match ev with EvAppendEdit _ => true | _ => false end.


(** ** The [with] blocks a trace shows *)

#[global] Instance Patcher_eq_dec : EqDecision Patcher.
Proof. solve_decision. Defined.

(** The [with] blocks of the class that a trace shows to be open. *)
Inductive Scope : Type :=
  | InPatcher (p : Patcher)
  | InEmptyWeights
  | InInferenceMode
  | InHookModel.

(** The scopes open after the trace [t], the innermost first, when those
    of [stack] were open before it; [None] when [t] leaves a scope that is
    not the innermost open one. *)
Fixpoint scopes_after (stack : list Scope) (t : list Event)
  : option (list Scope) :=
  match t with
  | [] => Some stack
  | ev :: rest =>
      match ev with
      | EvPatcherEnter p => scopes_after (InPatcher p :: stack) rest
      | EvInitEmptyWeightsEnter => scopes_after (InEmptyWeights :: stack) rest
      | EvInferenceModeEnter _ => scopes_after (InInferenceMode :: stack) rest
      | EvHookModelEnter _ => scopes_after (InHookModel :: stack) rest
      | EvPatcherExit p =>
          match stack with
          | InPatcher p' :: below =>
              if decide (p = p') then scopes_after below rest else None
          | _ => None
          end
      | EvInitEmptyWeightsExit =>
          match stack with
          | InEmptyWeights :: below => scopes_after below rest
          | _ => None
          end
      | EvInferenceModeExit =>
          match stack with
          | InInferenceMode :: below => scopes_after below rest
          | _ => None
          end
      | EvHookModelExit =>
          match stack with
          | InHookModel :: below => scopes_after below rest
          | _ => None
          end
      | _ => scopes_after stack rest
      end
  end.

(** An event that enters or leaves a scope. *)
Definition is_scope_event (ev : Event) : bool :=
  match ev with
  | EvPatcherEnter _ | EvPatcherExit _ | EvInitEmptyWeightsEnter
  | EvInitEmptyWeightsExit | EvInferenceModeEnter _ | EvInferenceModeExit
  | EvHookModelEnter _ | EvHookModelExit => true
  | _ => false
  end.

(** ** The model object *)

(** The patcher of [with self.alteration() if self.alter else Patcher():]
    for a model of the name [name]. *)
Definition patcher_for {engine : Engine} (alter_ : bool) (name : string)
  : Patcher :=
  if alter_ then default (Patcher_ []) (REPOID_TO_ALTERATION name)
  else Patcher_ [].

(** [w'] differs from [w] at most in [local_model] and [dispatched]. *)
Definition same_settings : relation World := λ w w',
  set_local_model (local_model (self w))
    (set_dispatched (dispatched (self w)) (self w')) = self w.

(** Once the model is dispatched, the model object stays as it is. *)
Definition settled : relation World := λ w w',
  dispatched (self w) = true → self w' = self w.

(** The model object as lines 51-66 of [__init__] leave it, for a model of
    the name [name]. *)
Definition constructed (repoid_path_model : string + Ref) (name : string)
    (args_ : list Any) (alter_ : bool) (tokenizer_ : option Any)
    (kwargs_ : list (string * Any)) : AbstractModel :=
  {| repoid_path_clsname := name; args := args_; kwargs := kwargs_;
     alter := alter_;
     dispatched := match repoid_path_model with inr _ => true | inl _ => false end;
     custom_model := match repoid_path_model with inr _ => true | inl _ => false end;
     meta_model := None; tokenizer := tokenizer_;
     local_model := match repoid_path_model with
                    | inr r => Some r
                    | inl _ => None
                    end;
     edits := [] |}.

(** The arguments of the constructor are as they were and [self.edits] has
    only grown. *)
Definition same_arguments : relation World := λ w w',
  repoid_path_clsname (self w') = repoid_path_clsname (self w)
  ∧ args (self w') = args (self w)
  ∧ kwargs (self w') = kwargs (self w)
  ∧ alter (self w') = alter (self w)
  ∧ tokenizer (self w') = tokenizer (self w)
  ∧ custom_model (self w') = custom_model (self w)
  ∧ edits (self w) `prefix_of` edits (self w').

(** ** Module names *)

(** [module.named_modules()] without the modules: the names. *)
Definition module_names (prefix : string) (m : TorchModule) : list string :=
  map fst (named_modules prefix m).

(** Lines 73-93 of [__init__] on a module tree: [.to("meta")],
    [Module.wrap], the wrapping of the children and the naming. *)
Definition to_meta_model (m : TorchModule) : TorchModule :=
  assign_module_paths EmptyString (wrap_children (Module_wrap (to Meta m))).

(** What [torch.nn.Module.add_module] checks of the names of the children,
    at every depth: no name is empty or holds a dot, and no name is given
    twice in one module. *)
Fixpoint well_named (m : TorchModule) {struct m} : bool :=
  let 'TModule _ _ _ cs := m in
  bool_decide (NoDup (map fst cs))
  && forallb (λ nc, negb (String.eqb nc.1 EmptyString) && negb (has_dot nc.1)) cs
  && (fix over (cs : list (string * TorchModule)) : bool :=
        match cs with
        | [] => true
        | (_, c) :: rest => well_named c && over rest
        end) cs.

(** [s] is the name [q] or a name below it: [q], or [q + "." + rest]. *)
Definition under (q s : string) : Prop :=
  s = q ∨ ∃ rest, s = q +:+ String "." rest.

(** * Facts on [split] and [join] *)

Section SplitJoin.

Lemma split_nonempty sep s : Py.split sep s ≠ [].
Proof.
  destruct s as [|c rest]; simpl; [done|].
  destruct (Ascii.eqb c sep); [done|].
  by destruct (Py.split sep rest).
Qed.

Lemma split_cons sep s : ∃ hd tl, Py.split sep s = hd :: tl.
Proof.
  destruct (Py.split sep s) as [|hd tl] eqn:E; [|by eauto].
  by apply split_nonempty in E.
Qed.

(** A string without a dot is its own single component. *)
Lemma split_no_dot s : has_dot s = false → Py.split "." s = [s].
Proof.
  induction s as [|c rest IH]; simpl; [done|].
  intros [Hc Hrest]%orb_false_iff.
  rewrite Hc, (IH Hrest). done.
Qed.

Lemma split_has_dot s :
  has_dot s = true → ∃ a b tl, Py.split "." s = a :: b :: tl.
Proof.
  induction s as [|c rest IH]; simpl; [done|].
  destruct (Ascii.eqb c ".") eqn:Hc; simpl.
  - intros _. destruct (split_cons "." rest) as (hd & tl & ->). eauto.
  - intros Hrest. destruct (IH Hrest) as (a & b & tl & ->). eauto.
Qed.

Lemma join_cons_char c hd tl :
  Py.join "." (String c hd :: tl) = String c (Py.join "." (hd :: tl)).
Proof. by destruct tl. Qed.

(** [join] undoes [split]. *)
Lemma join_split s : Py.join "." (Py.split "." s) = s.
Proof.
  induction s as [|c rest IH]; simpl; [done|].
  destruct (Ascii.eqb c ".") eqn:Hc.
  - apply Ascii.eqb_eq in Hc as ->.
    destruct (split_cons "." rest) as (hd & tl & E).
    rewrite E in *. simpl in *. by rewrite IH.
  - destruct (split_cons "." rest) as (hd & tl & E).
    rewrite E in *. rewrite join_cons_char. by rewrite IH.
Qed.

(** The components [split] returns hold no dot. *)
Lemma split_components_no_dot s :
  Forall (λ x, has_dot x = false) (Py.split "." s).
Proof.
  induction s as [|c rest IH]; simpl; [by repeat constructor|].
  destruct (Ascii.eqb c ".") eqn:Hc.
  - by constructor.
  - destruct (Py.split "." rest) as [|hd tl].
    + constructor; [simpl; by rewrite Hc | done].
    + inversion IH; subst. constructor; [|done].
      simpl. by rewrite Hc.
Qed.

Lemma split_app_no_dot x s :
  has_dot x = false →
  Py.split "." (x +:+ String "." s) = x :: Py.split "." s.
Proof.
  induction x as [|c rest IH]; simpl; [done|].
  intros [Hc Hrest]%orb_false_iff.
  by rewrite Hc, (IH Hrest).
Qed.

(** [split] undoes [join] on a non-empty list of dot-free components. *)
Lemma split_join l :
  l ≠ [] → Forall (λ x, has_dot x = false) l →
  Py.split "." (Py.join "." l) = l.
Proof.
  induction l as [|x l IH]; [done|].
  intros _ Hall. inversion Hall as [|? ? Hx Hl]; subst.
  destruct l as [|y l].
  - simpl. by apply split_no_dot.
  - change (Py.join "." (x :: y :: l))
      with (x +:+ String "." (Py.join "." (y :: l))).
    rewrite split_app_no_dot by done. by rewrite IH.
Qed.

(** Splitting at a dot splits the list of components. *)
Lemma split_app s t :
  Py.split "." (s +:+ String "." t) = Py.split "." s ++ Py.split "." t.
Proof.
  induction s as [|c rest IH]; simpl; [done|].
  destruct (Ascii.eqb c "."); [by rewrite IH|].
  rewrite IH. destruct (split_cons "." rest) as (hd & tl & ->). done.
Qed.

Lemma join_removelast_split s :
  Py.join "." (removelast (Py.split "." s)) = drop_last_component s.
Proof.
  induction s as [|c rest IH]; simpl; [done|].
  destruct (has_dot rest) eqn:Hd.
  - destruct (split_has_dot rest Hd) as (a & b & tl & E).
    rewrite E in *.
    destruct (Ascii.eqb c ".") eqn:Hc.
    + apply Ascii.eqb_eq in Hc as ->.
      change (removelast ("" :: a :: b :: tl))
        with ("" :: removelast (a :: b :: tl)).
      change (removelast (a :: b :: tl)) with (a :: removelast (b :: tl)) in *.
      change (Py.join "." ("" :: a :: removelast (b :: tl)))
        with (String "." (Py.join "." (a :: removelast (b :: tl)))).
      by rewrite IH.
    + change (removelast (String c a :: b :: tl))
        with (String c a :: removelast (b :: tl)).
      change (removelast (a :: b :: tl)) with (a :: removelast (b :: tl)) in IH.
      by rewrite join_cons_char, IH.
  - rewrite (split_no_dot rest Hd). by destruct (Ascii.eqb c ".").
Qed.

Lemma slice_to_neg_2 {A} (l : list A) :
  Py.slice_to_neg 2 l = removelast (removelast l).
Proof.
  unfold Py.slice_to_neg.
  rewrite !removelast_firstn_len, length_take, take_take.
  f_equal. lia.
Qed.

Lemma removelast_no_dot l :
  Forall (λ x, has_dot x = false) l →
  Forall (λ x, has_dot x = false) (removelast l).
Proof.
  induction 1 as [|x l Hx Hl IH]; simpl; [done|].
  destruct l; [done|]. by constructor.
Qed.

(** The source's expression and the specification's wording agree. *)
Lemma module_of_spec name : module_of name = drop_last_two_components name.
Proof.
  unfold module_of, drop_last_two_components.
  rewrite slice_to_neg_2.
  rewrite <- (join_removelast_split (drop_last_component name)).
  rewrite <- (join_removelast_split name).
  destruct (removelast (Py.split "." name)) as [|x l] eqn:E; [done|].
  rewrite split_join; [done | done |].
  rewrite <- E. apply removelast_no_dot, split_components_no_dot.
Qed.

(** A key built as [f"{path}.{direction}.{iteration}"] names [path]. *)
Lemma module_of_key path dir it :
  has_dot dir = false → has_dot it = false →
  module_of (path +:+ String "." (dir +:+ String "." it)) = path.
Proof.
  intros Hd Hi. unfold module_of, Py.slice_to_neg.
  rewrite split_app, split_app_no_dot, (split_no_dot it) by done.
  rewrite length_app. simpl.
  replace (length (Py.split "." path) + 2 - 2) with
    (length (Py.split "." path) + 0) by lia.
  rewrite take_app_add'; [|lia]. simpl. rewrite app_nil_r.
  apply join_split.
Qed.

End SplitJoin.

(** * Reasoning about runs *)

Lemma bind_run {A B} (m : M A) (f : A → M B) (w : World) :
  (m ≫= f) w =
  match m w with
  | (Ok a, w1, t1) => let '(r, w2, t2) := f a w1 in (r, w2, t1 ++ t2)
  | (Raised e, w1, t1) => (Raised e, w1, t1)
  end.
Proof. reflexivity. Qed.

Lemma bind_ok {A B} (m : M A) (f : A → M B) w a w1 t1 :
  m w = (Ok a, w1, t1) →
  (m ≫= f) w = ((f a w1).1.1, (f a w1).1.2, t1 ++ (f a w1).2).
Proof. intros E. rewrite bind_run, E. by destruct (f a w1) as [[??]?]. Qed.

Lemma bind_raised {A B} (m : M A) (f : A → M B) w e w1 t1 :
  m w = (Raised e, w1, t1) → (m ≫= f) w = (Raised e, w1, t1).
Proof. intros E. by rewrite bind_run, E. Qed.

(** ** Running a straight-line method, step by step *)

Lemma prepend_nil {A} (o : Result A * World * list Event) : prepend [] o = o.
Proof. by destruct o as [[??]?]. Qed.

Lemma prepend_prepend {A} t1 t2 (o : Result A * World * list Event) :
  prepend t1 (prepend t2 o) = prepend (t1 ++ t2) o.
Proof. destruct o as [[??]?]. unfold prepend. simpl. by rewrite app_assoc. Qed.

Lemma run_bind {A B} (m : M A) (k : A → M B) w :
  (m ≫= k) w =
  match m w with
  | (Ok a, w1, t1) => prepend t1 (k a w1)
  | (Raised e, w1, t1) => (Raised e, w1, t1)
  end.
Proof.
  rewrite bind_run. destruct (m w) as [[[a|e] w1] t1]; [|done].
  by destruct (k a w1) as [[??]?].
Qed.

Lemma run_assoc {A B C} (m : M A) (f : A → M B) (g : B → M C) w :
  ((m ≫= f) ≫= g) w = (m ≫= (λ a, f a ≫= g)) w.
Proof.
  rewrite !run_bind. destruct (m w) as [[[a|e] w1] t1]; [|done].
  rewrite run_bind. destruct (f a w1) as [[[b|e] w2] t2]; [|done].
  unfold prepend at 1. simpl. by rewrite prepend_prepend.
Qed.

Lemma run_ret {A B} (a : A) (k : A → M B) w : (mret a ≫= k) w = k a w.
Proof. rewrite run_bind. apply prepend_nil. Qed.

Lemma run_gets {A B} (f : World → A) (k : A → M B) w :
  (gets f ≫= k) w = k (f w) w.
Proof. rewrite run_bind. apply prepend_nil. Qed.

Lemma run_emit {B} ev (k : unit → M B) w :
  (emit ev ≫= k) w = prepend [ev] (k tt w).
Proof. by rewrite run_bind. Qed.

Lemma run_modify {B} f (k : unit → M B) w :
  (modify f ≫= k) w = k tt (f w).
Proof. rewrite run_bind. apply prepend_nil. Qed.

Lemma run_update_host {B} r f (k : unit → M B) w :
  (update_host r f ≫= k) w = k tt (set_heap (base.alter f r) w).
Proof. apply run_modify. Qed.

Lemma run_put_graph {B} r g (k : unit → M B) w :
  (put_graph r g ≫= k) w = k tt (set_graphs (insert r g) w).
Proof. apply run_modify. Qed.

Lemma run_alloc_host {B} h (k : Ref → M B) w :
  (alloc_host h ≫= k) w =
  k (fresh (dom (heap w))) (set_heap (insert (fresh (dom (heap w))) h) w).
Proof. rewrite run_bind. apply prepend_nil. Qed.

Lemma run_lift {A B} (r : Result A) (k : A → M B) w :
  (lift r ≫= k) w =
  match r with Ok a => k a w | Raised e => (Raised e, w, [EvRaise e]) end.
Proof. rewrite run_bind. destruct r; [apply prepend_nil | done]. Qed.

Lemma run_get_host {B} r (k : HostObj → M B) w :
  (get_host r ≫= k) w =
  match heap w !! r with
  | Some h => k h w
  | None => (Raised (PyExn "ReferenceError"), w, [])
  end.
Proof.
  rewrite run_bind. unfold get_host.
  destruct (heap w !! r); [apply prepend_nil | done].
Qed.

Lemma run_get_graph {B} r (k : Graph → M B) w :
  (get_graph r ≫= k) w =
  match graphs w !! r with
  | Some g => k g w
  | None => (Raised (PyExn "ReferenceError"), w, [])
  end.
Proof.
  rewrite run_bind. unfold get_graph.
  destruct (graphs w !! r); [apply prepend_nil | done].
Qed.

Lemma run_the_local_model {B} (k : Ref → M B) w :
  (the_local_model ≫= k) w =
  match local_model (self w) with
  | Some r => k r w
  | None => (Raised (PyExn "AttributeError"), w, [])
  end.
Proof.
  rewrite run_bind. unfold the_local_model.
  destruct (local_model (self w)); [apply prepend_nil | done].
Qed.

Lemma run_the_meta_model {B} (k : Ref → M B) w :
  (the_meta_model ≫= k) w =
  match meta_model (self w) with
  | Some r => k r w
  | None => (Raised (PyExn "AttributeError"), w, [])
  end.
Proof.
  rewrite run_bind. unfold the_meta_model.
  destruct (meta_model (self w)); [apply prepend_nil | done].
Qed.

Lemma run_with_emit {A} a b (body : M A) w :
  with_ (emit a) (emit b) body w =
  (result_of (body w), world_of (body w), a :: trace_of (body w) ++ [b]).
Proof. unfold with_. simpl. by destruct (body w) as [[??]?]. Qed.

Lemma prepend_tuple {A} t (r : Result A) w t' :
  prepend t (r, w, t') = (r, w, t ++ t').
Proof. done. Qed.

Lemma run_last_update_host r f w :
  update_host r f w = (Ok tt, set_heap (base.alter f r) w, []).
Proof. done. Qed.
Lemma run_last_modify f w : modify f w = (Ok tt, f w, []).
Proof. done. Qed.
Lemma run_last_ret {A} (a : A) w : (mret a : M A) w = (Ok a, w, []).
Proof. done. Qed.

Lemma run_with {A} (enter exit : M unit) (body : M A) w :
  with_ enter exit body w =
  match enter w with
  | (Raised e, w1, t1) => (Raised e, w1, t1)
  | (Ok _, w1, t1) => prepend t1 (finish exit (body w1))
  end.
Proof.
  unfold with_, finish, prepend.
  destruct (enter w) as [[[[]|e] w1] t1]; [|done].
  destruct (body w1) as [[r w2] t2]. simpl.
  by destruct (exit w2) as [[x w3] t3].
Qed.

Lemma finish_tuple {A} exit (r : Result A) w t :
  finish exit (r, w, t) =
  match exit w with
  | (Ok _, w3, t3) => (r, w3, t ++ t3)
  | (Raised e, w3, t3) => (Raised e, w3, t ++ t3)
  end.
Proof. unfold finish. simpl. by destruct (exit w) as [[[[]|?] ?] ?]. Qed.

Lemma run_last_emit ev w : emit ev w = (Ok tt, w, [ev]).
Proof. done. Qed.

Lemma run_last_lift {A} (r : Result A) w :
  lift r w = match r with Ok a => (Ok a, w, []) | Raised e => (Raised e, w, [EvRaise e]) end.
Proof. done. Qed.

Ltac exec_rewrite E :=
  first
  [ rewrite run_assoc in E
  | rewrite run_ret in E
  | rewrite run_gets in E
  | rewrite run_emit in E
  | rewrite run_modify in E
  | rewrite run_update_host in E
  | rewrite run_put_graph in E
  | rewrite run_alloc_host in E
  | rewrite run_lift in E
  | rewrite run_get_host in E
  | rewrite run_get_graph in E
  | rewrite run_the_local_model in E
  | rewrite run_the_meta_model in E
  | rewrite run_with_emit in E
  | rewrite run_with in E
  | rewrite finish_tuple in E
  | rewrite run_last_update_host in E
  | rewrite run_last_modify in E
  | rewrite run_last_ret in E
  | rewrite run_last_emit in E
  | rewrite run_last_lift in E
  | rewrite run_bind in E
  | rewrite prepend_tuple in E
  | progress cbn [self heap graphs next_handle set_self set_heap set_graphs
        set_next_handle repoid_path_clsname args kwargs alter dispatched
        custom_model meta_model tokenizer local_model edits
        set_dispatched set_meta_model set_local_model set_edits
        set_repoid_path_clsname set_custom_model
        result_of world_of trace_of fst snd app negb] in E ].

Ltac exec_split E :=
  match type of E with
  | context [match ?x with _ => _ end] =>
      lazymatch x with
      | context [match _ with _ => _ end] => fail
      | _ => destruct x eqn:?
      end
  | context [if ?x then _ else _] =>
      lazymatch x with
      | context [match _ with _ => _ end] => fail
      | _ => destruct x eqn:?
      end
  end.

Ltac exec E := repeat first [exec_rewrite E | exec_split E].

(** ** Properties every step of a run keeps *)

Section AlwaysRules.

Context (P : Event → Prop) (Q : relation World) `{!PreOrder Q}.

Lemma always_ret {A} (a : A) : always P Q (mret a).
Proof. intros w. split; [constructor | reflexivity]. Qed.

Lemma always_raise {A} e : always P Q (@raise A e).
Proof. intros w. split; [constructor | reflexivity]. Qed.

Lemma always_gets {A} (f : World → A) : always P Q (gets f).
Proof. intros w. split; [constructor | reflexivity]. Qed.

Lemma always_emit ev : P ev → always P Q (emit ev).
Proof. intros H w. split; [by repeat constructor | reflexivity]. Qed.

Lemma always_modify f : (∀ w, Q w (f w)) → always P Q (modify f).
Proof. intros H w. split; [constructor | apply H]. Qed.

Lemma always_lift {A} (r : Result A) :
  (∀ e, P (EvRaise e)) → always P Q (lift r).
Proof.
  intros H w. destruct r; (split; [by repeat constructor | reflexivity]).
Qed.

Lemma always_bind {A B} (m : M A) (f : A → M B) :
  always P Q m → (∀ a, always P Q (f a)) → always P Q (m ≫= f).
Proof.
  intros Hm Hf w. rewrite bind_run.
  destruct (Hm w) as [Ht Hw].
  destruct (m w) as [[[a|e] w1] t1]; [|done].
  destruct (Hf a w1) as [Ht' Hw'].
  destruct (f a w1) as [[r w2] t2]. unfold trace_of, world_of in *. simpl in *.
  split; [by apply Forall_app | by etrans].
Qed.

Lemma always_with {A} (enter exit : M unit) (body : M A) :
  always P Q enter → always P Q exit → always P Q body →
  always P Q (with_ enter exit body).
Proof.
  intros He Hx Hb w. unfold with_.
  destruct (He w) as [Ht Hw].
  destruct (enter w) as [[[[]|e] w1] t1]; [|done].
  destruct (Hb w1) as [Ht' Hw'].
  destruct (body w1) as [[r w2] t2].
  destruct (Hx w2) as [Ht'' Hw''].
  destruct (exit w2) as [[x w3] t3]. unfold trace_of, world_of in *. simpl in *.
  split; [by rewrite !Forall_app | by do 2 etrans].
Qed.

Lemma always_get_host r : always P Q (get_host r).
Proof.
  intros w. unfold get_host.
  destruct (heap w !! r); (split; [constructor | reflexivity]).
Qed.

Lemma always_get_graph r : always P Q (get_graph r).
Proof.
  intros w. unfold get_graph.
  destruct (graphs w !! r); (split; [constructor | reflexivity]).
Qed.

Lemma always_the_local_model : always P Q the_local_model.
Proof.
  intros w. unfold the_local_model.
  destruct (local_model (self w)); (split; [constructor | reflexivity]).
Qed.

Lemma always_the_meta_model : always P Q the_meta_model.
Proof.
  intros w. unfold the_meta_model.
  destruct (meta_model (self w)); (split; [constructor | reflexivity]).
Qed.

Lemma always_attempt (m : M unit) : always P Q m → always P Q (attempt m).
Proof.
  intros Hm w. unfold attempt. specialize (Hm w).
  by destruct (m w) as [[r w1] t1].
Qed.

End AlwaysRules.

Lemma always_weaken {A} (P P' : Event → Prop) (Q Q' : relation World) (m : M A) :
  (∀ ev, P ev → P' ev) → (∀ w w', Q w w' → Q' w w') →
  always P Q m → always P' Q' m.
Proof.
  intros HP HQ Hm w. destruct (Hm w) as [Ht Hw].
  split; [by eapply Forall_impl | by apply HQ].
Qed.

(** The rules, applied along the structure of the program. *)
Ltac intro_always :=
  lazymatch goal with
  | |- always _ _ _ => idtac
  | |- ∀ _ : _, _ => intros ?; intro_always
  end.

Ltac always_side :=
  lazymatch goal with
  | |- PreOrder _ => exact _
  | |- _ => try intro_always
  end.

Ltac always_step :=
  lazymatch goal with
  | |- always _ _ (mret _) => apply always_ret
  | |- always _ _ (_ ≫= _) => apply always_bind
  | |- always _ _ (with_ _ _ _) => apply always_with
  | |- always _ _ (gets _) => apply always_gets
  | |- always _ _ (raise _) => apply always_raise
  | |- always _ _ (emit _) => apply always_emit
  | |- always _ _ (modify _) => apply always_modify
  | |- always _ _ (update_host _ _) => apply always_modify
  | |- always _ _ (put_graph _ _) => apply always_modify
  | |- always _ _ (lift _) => apply always_lift
  | |- always _ _ (get_host _) => apply always_get_host
  | |- always _ _ (get_graph _) => apply always_get_graph
  | |- always _ _ the_local_model => apply always_the_local_model
  | |- always _ _ the_meta_model => apply always_the_meta_model
  | |- always _ _ (attempt _) => apply always_attempt
  | |- always _ _ (if ?b then _ else _) => destruct b; cbv beta iota
  | |- always _ _ (match ?x with _ => _ end) => destruct x; cbv beta iota
  end; always_side.

(** ** Module trees *)

Lemma parameters_eq a ps bs cs :
  parameters (TModule a ps bs cs) =
  map snd ps ++ concat (map (λ nc, parameters nc.2) cs).
Proof.
  simpl. f_equal. induction cs as [|[n c] rest IH]; simpl; [done|].
  by rewrite IH.
Qed.

Lemma tensors_eq a ps bs cs :
  tensors (TModule a ps bs cs) =
  map snd ps ++ map snd bs ++ concat (map (λ nc, tensors nc.2) cs).
Proof.
  simpl. do 2 f_equal. induction cs as [|[n c] rest IH]; simpl; [done|].
  by rewrite IH.
Qed.

Lemma named_modules_eq prefix a ps bs cs :
  named_modules prefix (TModule a ps bs cs) =
  (prefix, TModule a ps bs cs) ::
  concat (map (λ nc, named_modules (submodule_prefix prefix nc.1) nc.2) cs).
Proof.
  simpl. f_equal. induction cs as [|[n c] rest IH]; simpl; [done|].
  by rewrite IH.
Qed.

(** After the freezing loop no parameter requires a gradient. *)
Lemma parameters_freeze m :
  Forall (λ t, requires_grad t = false) (parameters (freeze m)).
Proof.
  induction m as [a ps bs cs IH] using TorchModule_tree_ind.
  change (freeze (TModule a ps bs cs)) with
    (TModule a (map (λ '(n, t), (n, frozen t)) ps) bs
       (map (λ '(n, c), (n, freeze c)) cs)).
  rewrite parameters_eq. apply Forall_app. split.
  - rewrite Forall_map, Forall_map. apply Forall_forall. by intros [??] _.
  - apply Forall_concat. rewrite !Forall_map.
    eapply Forall_impl; [exact IH|]. by intros [??].
Qed.

(** After [.to("meta")] every parameter and buffer is on the meta device. *)
Lemma tensors_to_meta m :
  Forall (λ t, device t = Meta) (tensors (to Meta m)).
Proof.
  induction m as [a ps bs cs IH] using TorchModule_tree_ind.
  change (to Meta (TModule a ps bs cs)) with
    (TModule a (map (λ '(n, t), (n, on_device Meta t)) ps)
       (map (λ '(n, t), (n, on_device Meta t)) bs)
       (map (λ '(n, c), (n, to Meta c)) cs)).
  rewrite tensors_eq. rewrite !Forall_app. split_and!.
  - rewrite Forall_map, Forall_map. apply Forall_forall. by intros [??] _.
  - rewrite Forall_map, Forall_map. apply Forall_forall. by intros [??] _.
  - apply Forall_concat. rewrite !Forall_map.
    eapply Forall_impl; [exact IH|]. by intros [??].
Qed.

(** Wrapping and naming leave the tensors where they are. *)
Lemma tensors_Module_wrap m : tensors (Module_wrap m) = tensors m.
Proof. by destruct m. Qed.

Lemma tensors_wrap_children m : tensors (wrap_children m) = tensors m.
Proof.
  destruct m as [a ps bs cs]. unfold wrap_children. rewrite !tensors_eq.
  do 3 f_equal. rewrite <- list_fmap_compose.
  apply list_fmap_ext. intros _ [n c] _. simpl. apply tensors_Module_wrap.
Qed.

Lemma tensors_assign_module_paths prefix m :
  tensors (assign_module_paths prefix m) = tensors m.
Proof.
  revert prefix.
  induction m as [a ps bs cs IH] using TorchModule_tree_ind. intros prefix.
  change (assign_module_paths prefix (TModule a ps bs cs)) with
    (TModule (set_module_path prefix a) ps bs
       (map (λ '(n, c), (n, assign_module_paths (submodule_prefix prefix n) c)) cs)).
  rewrite !tensors_eq. do 3 f_equal. rewrite <- list_fmap_compose.
  apply Forall_fmap_ext. eapply Forall_impl; [exact IH|].
  intros [n c] H. simpl. apply H.
Qed.

(** After the naming loop every module knows the name [named_modules] gives
    it. *)
Lemma module_paths_assigned prefix m :
  Forall (λ nm, module_path (attrs_of nm.2) = Some nm.1)
    (named_modules prefix (assign_module_paths prefix m)).
Proof.
  revert prefix.
  induction m as [a ps bs cs IH] using TorchModule_tree_ind. intros prefix.
  change (assign_module_paths prefix (TModule a ps bs cs)) with
    (TModule (set_module_path prefix a) ps bs
       (map (λ '(n, c), (n, assign_module_paths (submodule_prefix prefix n) c)) cs)).
  rewrite named_modules_eq. constructor; [done|].
  apply Forall_concat. rewrite !Forall_map.
  eapply Forall_impl; [exact IH|]. intros [n c] H. simpl. apply H.
Qed.

(** The naming loop keeps the classes: what was wrapped stays wrapped. *)
Lemma wrapped_assign_module_paths prefix m :
  wrapped (attrs_of (assign_module_paths prefix m)) = wrapped (attrs_of m).
Proof. by destruct m. Qed.

Lemma children_wrapped prefix m :
  Forall (λ nc, wrapped (attrs_of nc.2) = true)
    (named_children (assign_module_paths prefix (wrap_children m))).
Proof.
  destruct m as [a ps bs cs]. simpl. rewrite !Forall_map.
  apply Forall_forall. intros [n c] _. simpl.
  rewrite wrapped_assign_module_paths. by destruct c.
Qed.

Lemma root_wrapped prefix m :
  wrapped (attrs_of (assign_module_paths prefix (wrap_children (Module_wrap m)))) = true.
Proof. by destruct m. Qed.

(** ** The rules for the loops and the methods *)

Section AlwaysLoops.

Context {impl : ModelImpl} {engine : Engine}.
Context (P : Event → Prop) (Q : relation World) `{!PreOrder Q}.

Lemma always_alloc_host h :
  (∀ w, Q w (set_heap (insert (fresh (dom (heap w))) h) w)) →
  always P Q (alloc_host h).
Proof. intros H w. split; [constructor | apply H]. Qed.

Lemma always_restore_all r es :
  (∀ e, always P Q (restore_host r e)) → always P Q (restore_all r es).
Proof.
  intros H. induction es as [|e es IH]; simpl.
  - by apply always_ret.
  - apply always_bind; [done | apply H | intros _; apply IH].
Qed.

Lemma always_Editor_enter r applied todo :
  (∀ e, always P Q (edit_host r e)) →
  (∀ e, always P Q (restore_host r e)) →
  always P Q (Editor_enter r applied todo).
Proof.
  intros He Hr. revert applied.
  induction todo as [|e todo IH]; intros applied; simpl.
  - by apply always_ret.
  - intros w. destruct (He e w) as [Ht Hw].
    destruct (edit_host r e w) as [[[[]|x] w1] t1].
    + destruct (IH (e :: applied) w1) as [Ht' Hw'].
      destruct (Editor_enter r (e :: applied) todo w1) as [[y w2] t2].
      unfold trace_of, world_of in *. simpl in *.
      split; [by apply Forall_app | by etrans].
    + destruct (always_restore_all r applied Hr w1) as [Ht' Hw'].
      destruct (restore_all r applied w1) as [[y w2] t2].
      unfold trace_of, world_of in *. simpl in *.
      split; [by apply Forall_app | by etrans].
Qed.

Lemma always_fire_forward_hooks hooks :
  (∀ hook, always P Q (call_forward_hook hook)) →
  always P Q (fire_forward_hooks hooks).
Proof.
  intros H. induction hooks as [|[id hook] hooks IH]; simpl.
  - by apply always_ret.
  - apply always_bind; [done | apply H | intros _; apply IH].
Qed.

Lemma always_observe hms path a :
  (∀ hook a path, always P Q (call_observer_hook hook a path)) →
  always P Q (observe hms path a).
Proof.
  intros H. revert a. induction hms as [|hm hms IH]; intros a; simpl.
  - by apply always_ret.
  - apply always_bind; [done | | intros a'; apply IH]. case_decide.
    + apply always_bind; [done | apply H | intros a1; apply H].
    + by apply always_ret.
Qed.

Lemma always_run_steps r l :
  (∀ hook, always P Q (call_forward_hook hook)) →
  (∀ hook a path, always P Q (call_observer_hook hook a path)) →
  always P Q (run_steps r l).
Proof.
  intros Hf Ho. induction l as [|[path a|] l IH]; simpl.
  - by apply always_ret.
  - apply always_bind; [done | by apply always_get_host|]. intros h.
    apply always_bind; [done | by apply always_observe | intros _; apply IH].
  - apply always_bind; [done | by apply always_get_host|]. intros h.
    apply always_bind;
      [done | by apply always_fire_forward_hooks | intros _; apply IH].
Qed.

Lemma always_lifetime us :
  (∀ u, always P Q (use u)) → always P Q (lifetime us).
Proof.
  intros H. induction us as [|u us IH]; simpl.
  - by apply always_ret.
  - apply always_bind;
      [done | apply always_attempt, H | intros _; apply IH].
Qed.

End AlwaysLoops.

Create HintDb methods discriminated.

#[export] Hint Unfold
  __init__ build_meta_model scan_example init_empty_weights
  __call__ dispatch_if_needed load_and_dispatch patching alteration
  Editor Editor_exit run_edited _register_increment_hook compile eval train
  inference_mode HookModel_scope call_fn RemovableHandle_remove
  edit_host restore_host edit_meta_model append_edit modulize
  call_forward_hook call_observer_hook intervene_at increment use : methods.

(** Walks a method with the rules and leaves the conditions on the events
    it emits and on the writes it makes. *)
Ltac always_loop :=
  lazymatch goal with
  | |- always _ _ (alloc_host _) => apply always_alloc_host
  | |- always _ _ (restore_all _ _) => apply always_restore_all
  | |- always _ _ (Editor_enter _ _ _) => apply always_Editor_enter
  | |- always _ _ (run_steps _ _) => apply always_run_steps
  | |- always _ _ (lifetime _) => apply always_lifetime
  | |- always _ _ _ => progress autounfold with methods
  end; always_side.

Ltac always_walk := repeat first [ always_step | always_loop ].

(** Unfolds the monad, to run a straight-line method by hand. *)
Ltac unfold_monad :=
  unfold mbind, M_bind, bind, mret, M_ret, ret, gets, emit, modify, lift,
    raise, with_, alloc_host, the_local_model, the_meta_model, get_host,
    get_graph, put_graph, update_host, result_of, world_of, trace_of in *.

(** ** Frames *)

#[global] Instance any_world_preorder : PreOrder any_world.
Proof. by split. Qed.

#[global] Hint Unfold any_world : core.

#[global] Instance same_meta_model_preorder : PreOrder same_meta_model.
Proof.
  split; [done|]. unfold same_meta_model. intros w1 w2 w3 H1 H2. congruence.
Qed.

(** * The increment hook (C5) *)

Section IncrementHook.

Context {impl : ModelImpl} {engine : Engine}.


End IncrementHook.

Section IncrementHookFiring.

Context {impl : ModelImpl} {engine : Engine}.


End IncrementHookFiring.

(** * Freezing on dispatch (C10) *)

Section Dispatch.

Context {impl : ModelImpl} {engine : Engine}.

(** C10.  When [__call__] finds the model not dispatched and its loading
    block (lines 141-151) completes, [local_model] is the module object that
    [_load_local] returned, [dispatched] is set, and no parameter of
    [local_model], at any depth, requires a gradient. *)
Theorem dispatch_freezes_parameters w :
  dispatched (self w) = false →
  result_of (dispatch_if_needed w) = Ok tt →
  ∃ r h m,
    _load_local (repoid_path_clsname (self w)) (args (self w)) (kwargs (self w))
      = Ok m
    ∧ local_model (self (world_of (dispatch_if_needed w))) = Some r
    ∧ heap (world_of (dispatch_if_needed w)) !! r = Some h
    ∧ tree h = freeze m
    ∧ dispatched (self (world_of (dispatch_if_needed w))) = true
    ∧ Forall (λ p, requires_grad p = false) (parameters (tree h)).
Proof.
  intros Hd.
  unfold dispatch_if_needed, load_and_dispatch, patching, alteration.
  unfold_monad. rewrite Hd. simpl.
  repeat case_match; simplify_eq/=; try done.
  all: intros _; eexists _, (set_tree (freeze a1) (new_host a1)), a1.
  all: split_and!; try done; [| apply parameters_freeze].
  all: by rewrite lookup_alter_eq, lookup_insert_eq.
Qed.

End Dispatch.

(** * Construction (C6, C7) *)

Section Init.

Context {impl : ModelImpl} {engine : Engine}.

(** C6.  When [__init__] completes, its trace is the construction of the
    meta model (patcher and empty-weights scopes around one build, the move
    to the meta device and the wrapping of the root), the wrapping of the
    children, the assignment of the module paths, and then, last, one call
    of [_scan]: on the prepared example input, on a meta model whose root
    and children are wrapped and in which every module holds the name
    [named_modules] gives it.  No event of the trace loads or runs the real
    host. *)
Theorem init_scans_once_after_construction rpm args_ alter_ tok kwargs_ w :
  result_of (__init__ rpm args_ alter_ tok kwargs_ w) = Ok tt →
  ∃ p mm build x x' t h',
    trace_of (__init__ rpm args_ alter_ tok kwargs_ w) =
      [EvPatcherEnter p; EvInitEmptyWeightsEnter; build; EvToMeta mm;
       EvWrap mm; EvInitEmptyWeightsExit; EvPatcherExit p;
       EvWrapChildren mm; EvAssignModulePaths mm;
       EvExampleInput; EvPrepareInputs x; EvScan x']
    ∧ is_build build = true
    ∧ _example_input = Ok x
    ∧ _prepare_inputs x = Ok x'
    ∧ meta_model (self (world_of (__init__ rpm args_ alter_ tok kwargs_ w)))
      = Some mm
    ∧ heap (world_of (__init__ rpm args_ alter_ tok kwargs_ w)) !! mm = Some h'
    ∧ _scan x' t = Ok (tree h')
    ∧ wrapped (attrs_of t) = true
    ∧ Forall (λ nc, wrapped (attrs_of nc.2) = true) (named_children t)
    ∧ Forall (λ nm, module_path (attrs_of nm.2) = Some nm.1)
        (named_modules EmptyString t)
    ∧ length (List.filter is_scan
                (trace_of (__init__ rpm args_ alter_ tok kwargs_ w))) = 1
    ∧ Forall (λ ev, is_host_execution ev = false)
        (trace_of (__init__ rpm args_ alter_ tok kwargs_ w)).
Proof.
  destruct (__init__ rpm args_ alter_ tok kwargs_ w) as [[res w'] t] eqn:E.
  unfold __init__, build_meta_model, scan_example, patching, alteration,
    init_empty_weights in E.
  exec E; simplify_eq; cbn [result_of world_of trace_of fst snd]; try done.
  all: intros _.
  all: repeat match goal with
    | H : context [base.alter _ ?r _ !! ?r] |- _ => rewrite lookup_alter_eq in H
    | H : context [<[?r:=_]> _ !! ?r] |- _ => rewrite lookup_insert_eq in H
    end; simplify_eq/=.
  all: do 5 eexists; eexists (assign_module_paths EmptyString
                                (wrap_children (Module_wrap (to Meta _)))), _.
  all: split_and!; try done.
  all: try (rewrite !lookup_alter_eq, lookup_insert_eq; reflexivity).
  all: try eassumption.
  all: first [ apply root_wrapped | apply children_wrapped
             | apply module_paths_assigned | by repeat constructor ].
Qed.



End Init.

(** * The [Editor] scope *)

Section EditorScope.

Context {impl : ModelImpl} {engine : Engine}.



Lemma retree_refl r w h : heap w !! r = Some h → retree r (tree h) w w.
Proof.
  intros Hh. split_and!; try done. apply map_eq. intros r'.
  rewrite lookup_alter. case_decide; [|done]. subst. rewrite Hh. simpl.
  by destruct h.
Qed.

Lemma retree_trans r t1 t2 w w1 w2 :
  retree r t1 w w1 → retree r t2 w1 w2 → retree r t2 w w2.
Proof.
  intros (?&?&?&Hw1) (?&?&?&Hw2). split_and!; try congruence.
  rewrite Hw2, Hw1, alter_alter_eq. by apply alter_ext.
Qed.

Lemma retree_lookup r t w w' h :
  retree r t w w' → heap w !! r = Some h → heap w' !! r = Some (set_tree t h).
Proof. intros (_&_&_&->) Hh. by rewrite lookup_alter_eq, Hh. Qed.

Lemma retree_host_tree r t w w' h :
  retree r t w w' → heap w !! r = Some h → host_tree r w' = Some t.
Proof. intros H Hh. unfold host_tree. by rewrite (retree_lookup _ _ _ _ _ H Hh). Qed.


(** The restoring loop on a host that exists: it cannot raise, it restores
    the edits in the order given, and it touches nothing but the tree. *)
Lemma restore_all_run r es w h :
  heap w !! r = Some h →
  ∃ w', restore_all r es w = (Ok tt, w', map EvRestore es)
        ∧ retree r (restore_edits es (tree h)) w w'.
Proof.
  revert w h. induction es as [|e es IH]; intros w h Hh; simpl.
  - exists w. split; [done|]. by apply retree_refl.
  - assert (retree r (Edit_restore e (tree h)) w
              (set_heap (base.alter (set_tree (Edit_restore e (tree h))) r) w))
      as Hstep by done.
    destruct (IH _ _ (retree_lookup _ _ _ _ _ Hstep Hh)) as (w' & Hrun & Hre).
    exists w'. split.
    + unfold restore_host. rewrite run_assoc, run_get_host, Hh.
      rewrite run_assoc, run_emit, run_update_host, Hrun. done.
    + eapply retree_trans; [exact Hstep | exact Hre].
Qed.

(** The applying loop on a host that exists.  Either every edit is applied,
    in order; or one raises, and the edits applied before it (in this scope
    and in [applied]) are restored, the latest first, before the exception
    goes on. *)
Lemma Editor_enter_run r applied todo w h :
  heap w !! r = Some h →
  match Editor_enter r applied todo w with
  | (Ok _, w', t) =>
      ∃ tn, apply_edits todo (tree h) = Ok tn
            ∧ retree r tn w w' ∧ t = map EvEdit todo
  | (Raised x, w', t) =>
      ∃ done_ bad rest tk,
        todo = done_ ++ bad :: rest
        ∧ apply_edits done_ (tree h) = Ok tk
        ∧ Edit_edit bad tk = Raised x
        ∧ retree r (restore_edits (rev done_ ++ applied) tk) w w'
        ∧ t = map EvEdit done_ ++ EvRaise x :: map EvRestore (rev done_ ++ applied)
  end.
Proof.
  revert applied w h. induction todo as [|e todo IH]; intros applied w h Hh.
  - simpl. exists (tree h). split_and!; try done. by apply retree_refl.
  - cbn [Editor_enter]. unfold edit_host.
    rewrite run_get_host, Hh, run_lift.
    destruct (Edit_edit e (tree h)) as [t'|x] eqn:He.
    + rewrite run_emit, run_last_update_host. cbn [prepend fst snd app].
      assert (retree r t' w (set_heap (base.alter (set_tree t') r) w))
        as Hstep by done.
      specialize (IH (e :: applied) _ _ (retree_lookup _ _ _ _ _ Hstep Hh)).
      destruct (Editor_enter r (e :: applied) todo
                  (set_heap (base.alter (set_tree t') r) w))
        as [[[[]|x] w'] t].
      * destruct IH as (tn' & Happ & Hre & Ht). subst t.
        exists tn'. simpl. rewrite He.
        split_and!; try done. by eapply retree_trans.
      * destruct IH as (done_ & bad & rest & tk & Htodo & Happ & Hbad & Hre & Ht).
        subst t todo.
        exists (e :: done_), bad, rest, tk. simpl. rewrite He.
        split_and!; try done.
        -- eapply retree_trans; [exact Hstep|].
           by rewrite <- app_assoc.
        -- by rewrite <- app_assoc.
    + destruct (restore_all_run r applied w h Hh) as (w' & Hrun & Hre).
      rewrite Hrun. exists [], e, todo, (tree h). by split_and!.
Qed.

End EditorScope.

(** * [__call__] *)

(** ** Lists of events *)

Lemma after_quiet_prefix (P : Event → bool) quiet c rest pre ev post :
  Forall (λ x, P x = false) quiet → P c = false → P ev = true →
  quiet ++ c :: rest = pre ++ ev :: post → c ∈ pre.
Proof.
  intros Hq Hc Hev. revert pre.
  induction Hq as [|q quiet Hq _ IH]; intros [|p pre] Heq; simpl in Heq.
  - injection Heq as -> _. congruence.
  - injection Heq as -> _. left.
  - injection Heq as -> _. congruence.
  - injection Heq as -> Heq. right. by apply IH.
Qed.

Lemma split_at_only (P : Event → bool) q1 c q2 pre c' post :
  Forall (λ x, P x = false) q1 → Forall (λ x, P x = false) q2 →
  P c' = true →
  q1 ++ c :: q2 = pre ++ c' :: post → pre = q1 ∧ c' = c ∧ post = q2.
Proof.
  intros H1 H2 Hc'. revert pre.
  induction H1 as [|q q1 Hq _ IH]; intros [|p pre] Heq; simpl in Heq.
  - by injection Heq as -> ->.
  - injection Heq as -> ->.
    rewrite Forall_app, Forall_cons in H2. destruct H2 as (_ & ? & _).
    congruence.
  - injection Heq as -> _. congruence.
  - injection Heq as -> Heq. by destruct (IH _ Heq) as (-> & -> & ->).
Qed.

Lemma Forall_map_events {A} (P : Event → Prop) (f : A → Event) l :
  (∀ x, P (f x)) → Forall P (map f l).
Proof. intros H. apply Forall_fmap, Forall_forall. intros x _. apply H. Qed.

#[global] Instance same_structure_preorder : PreOrder same_structure.
Proof.
  split; [done|]. intros w1 w2 w3 [H1 H1'] [H2 H2']. split; [congruence|].
  intros r. by rewrite H2', H1'.
Qed.

Lemma same_structure_update_host r f w :
  (∀ h, tree (f h) = tree h) →
  same_structure w (set_heap (base.alter f r) w).
Proof.
  intros Hf. split; [done|]. intros r'. unfold host_tree. simpl.
  rewrite lookup_alter. case_decide; [|done]. subst.
  destruct (heap w !! r'); simpl; [|done]. by rewrite Hf.
Qed.

Ltac forall_list :=
  repeat first [rewrite Forall_app | rewrite Forall_cons | rewrite Forall_nil];
  split_and?; try done.

Section Call.
Context {impl : ModelImpl} {engine : Engine}.

(** A host execution emits only the events of its hooks and leaves the
    model object and all module objects as they are. *)
Lemma run_steps_quiet r l :
  always (λ ev, is_step_event ev = true)
    (λ w w', self w' = self w ∧ heap w' = heap w ∧ next_handle w' = next_handle w)
    (run_steps r l).
Proof.
  assert (PreOrder (λ w w' : World,
            self w' = self w ∧ heap w' = heap w ∧ next_handle w' = next_handle w)).
  { split; [done|]. intros ??? (?&?&?) (?&?&?). split_and!; congruence. }
  always_walk; intros; by simplify_eq.
Qed.

(** The body of the [Editor] scope writes no event of the scope and leaves
    every module tree as it is. *)
Lemma run_edited_same_structure fn inputs g inference :
  always (λ ev, is_editor_event ev = false) same_structure
    (run_edited fn inputs g inference).
Proof.
  always_walk; intros; simplify_eq; try done.
  all: by apply same_structure_update_host.
Qed.

Lemma run_edited_shape fn inputs g inference w :
  (∃ e, result_of (run_edited fn inputs g inference w) = Raised e
        ∧ Forall (λ ev, is_compile ev = false ∧ runs_or_observes ev = false)
            (trace_of (run_edited fn inputs g inference w)))
  ∨ (∃ handle e r h,
       trace_of (run_edited fn inputs g inference w)
       = [EvRegisterIncrementHook handle (IncrementHook g); EvCompile g; EvRaise e]
       ∧ result_of (run_edited fn inputs g inference w) = Raised e
       ∧ local_model (self w) = Some r ∧ heap w !! r = Some h)
  ∨ (∃ handle G mode rest,
       graphs w !! g = Some G
       ∧ trace_of (run_edited fn inputs g inference w)
         = EvRegisterIncrementHook handle (IncrementHook g)
           :: EvCompile g :: mode :: rest
       ∧ (mode = EvEval ∨ mode = EvTrain)
       ∧ Forall (λ ev, is_compile ev = false
                       ∧ ∀ hm, ev = EvHookModelEnter hm → hm = HookModel_for g G)
           rest).
Proof.
  destruct (run_edited fn inputs g inference w) as [[res w'] t] eqn:E.
  unfold run_edited, _register_increment_hook, compile, eval, train,
    inference_mode, HookModel_scope, call_fn, RemovableHandle_remove in E.
  exec E; simplify_eq; cbn [result_of world_of trace_of fst snd].
  all: try (left; eexists; split; [done|]; by forall_list).
  all: try (right; left;
            match goal with
            | H : base.alter _ ?p _ !! ?p = Some _ |- _ =>
                rewrite lookup_alter_eq in H;
                apply fmap_Some in H as (? & ? & _)
            end; by eexists _, _, _, _).
  all: right; right; eexists _, _, _, _; split_and!; try done; eauto.
  all: match goal with
       | H : run_steps ?r ?l ?w = (_, _, ?t) |- _ =>
           destruct (run_steps_quiet r l w) as [Hsteps _];
           rewrite H in Hsteps; cbn [trace_of snd] in Hsteps
       | |- _ => idtac
       end.
  all: forall_list.
  all: try (intros ? [=]; by subst).
  all: eapply Forall_impl; [exact Hsteps|]; intros [] ?; by split.
Qed.

(** [__call__] in its parts: the loading block, the entry of the [Editor]
    scope, its body, its exit. *)
Lemma call_decompose fn inputs g edits_arg inference w :
  __call__ fn inputs g edits_arg inference w =
  match dispatch_if_needed w with
  | (Raised e, w1, t1) => (Raised e, w1, t1)
  | (Ok _, w1, t1) =>
      match local_model (self w1) with
      | None => (Raised (PyExn "AttributeError"), w1, t1)
      | Some r =>
          let es := edits_or_recorded edits_arg w in
          match Editor_enter r [] es w1 with
          | (Raised e, w2, t2) => (Raised e, w2, t1 ++ EvEditorEnter es :: t2)
          | (Ok _, w2, t2) =>
              let '(rb, w3, t3) := run_edited fn inputs g inference w2 in
              let '(x, w4, t4) := restore_all r (rev es) w3 in
              (match x with Raised e => Raised e | Ok _ => rb end, w4,
               t1 ++ EvEditorEnter es :: t2 ++ t3 ++ EvEditorExit :: t4)
          end
      end
  end.
Proof.
  unfold __call__, Editor, Editor_exit.
  rewrite run_gets, run_bind.
  destruct (dispatch_if_needed w) as [[[[]|e] w1] t1]; [|done].
  rewrite run_the_local_model.
  destruct (local_model (self w1)) as [r|]; [|by rewrite prepend_tuple, app_nil_r].
  rewrite run_with, run_emit.
  destruct (Editor_enter r [] (edits_or_recorded edits_arg w) w1)
    as [[[[]|e] w2] t2]; [|done].
  rewrite prepend_tuple. cbn [app].
  destruct (run_edited fn inputs g inference w2) as [[rb w3] t3].
  rewrite finish_tuple, run_emit.
  destruct (restore_all r (rev (edits_or_recorded edits_arg w)) w3)
    as [[[[]|e] w4] t4]; rewrite !prepend_tuple; cbn [app];
    rewrite <- ?app_assoc; done.
Qed.

(** The loading block writes no event of the scopes that follow and leaves
    the graphs as they are. *)
Lemma dispatch_if_needed_quiet :
  always (λ ev, is_editor_event ev = false ∧ is_compile ev = false
                ∧ runs_or_observes ev = false)
    (λ w w', graphs w' = graphs w) dispatch_if_needed.
Proof.
  assert (PreOrder (λ w w' : World, graphs w' = graphs w)).
  { split; [done|]. intros ??? ??. congruence. }
  always_walk; intros; by simplify_eq.
Qed.

(** When the loading block returns, [local_model], if bound in the world it
    leaves, is a module object of that world, provided this held before. *)
Lemma dispatch_if_needed_host w :
  (∀ r, local_model (self w) = Some r → is_Some (heap w !! r)) →
  ∀ r, local_model (self (world_of (dispatch_if_needed w))) = Some r →
       is_Some (heap (world_of (dispatch_if_needed w)) !! r).
Proof.
  intros Hwf.
  destruct (dispatch_if_needed w) as [[res w'] t] eqn:E.
  unfold dispatch_if_needed, load_and_dispatch, patching, alteration in E.
  exec E; simplify_eq; cbn [result_of world_of trace_of fst snd self heap
    set_self set_heap local_model set_local_model set_dispatched]; try done.
  all: intros r [= <-].
  all: rewrite ?lookup_alter_eq, ?lookup_insert_eq; by eexists.
Qed.


(** The scope of the editor, outside its body, compiles and runs nothing. *)
Lemma Editor_enter_quiet r applied todo :
  always (λ ev, is_compile ev = false ∧ runs_or_observes ev = false)
    (λ w w', graphs w' = graphs w ∧ self w' = self w)
    (Editor_enter r applied todo).
Proof.
  assert (PreOrder (λ w w' : World, graphs w' = graphs w ∧ self w' = self w)).
  { split; [done|]. intros ??? [??] [??]. split; congruence. }
  always_walk; intros; by simplify_eq.
Qed.

Lemma restore_all_quiet r es :
  always (λ ev, is_compile ev = false ∧ runs_or_observes ev = false)
    any_world (restore_all r es).
Proof. always_walk; intros; by simplify_eq. Qed.

(** The trace of [__call__] around the compilation: a part that neither
    compiles nor observes nor runs, and then nothing more, or the
    compilation, followed by the exception it raises or by a part that does
    not compile again and attaches [HookModel] only for the modules of the
    graph as it was at the call. *)
Lemma call_shape fn inputs g edits_arg inference w :
  ∃ quiet,
    Forall (λ ev, is_compile ev = false ∧ runs_or_observes ev = false) quiet
    ∧ ((trace_of (__call__ fn inputs g edits_arg inference w) = quiet)
       ∨ (∃ e tail,
            trace_of (__call__ fn inputs g edits_arg inference w)
            = quiet ++ EvCompile g :: EvRaise e :: tail
            ∧ Forall (λ ev, is_compile ev = false ∧ runs_or_observes ev = false)
                tail
            ∧ result_of (__call__ fn inputs g edits_arg inference w) = Raised e)
       ∨ (∃ mode rest,
            trace_of (__call__ fn inputs g edits_arg inference w)
            = quiet ++ EvCompile g :: mode :: rest
            ∧ (mode = EvEval ∨ mode = EvTrain)
            ∧ Forall (λ ev, is_compile ev = false
                            ∧ ∀ G hm, graphs w !! g = Some G →
                                ev = EvHookModelEnter hm →
                                hm = HookModel_for g G) rest)).
Proof.
  rewrite call_decompose.
  destruct (dispatch_if_needed_quiet w) as [Hpre Hg1].
  destruct (dispatch_if_needed w) as [[[[]|e] w1] t1];
    cbn [result_of world_of trace_of fst snd] in *.
  2:{ exists t1. split; [|by left].
      eapply Forall_impl; [exact Hpre|]. by intros ? (?&?&?). }
  assert (Forall (λ ev, is_compile ev = false ∧ runs_or_observes ev = false) t1)
    as Hpre' by (eapply Forall_impl; [exact Hpre|]; by intros ? (?&?&?)).
  destruct (local_model (self w1)) as [r|] eqn:Hlm;
    cbn [result_of world_of trace_of fst snd].
  2:{ exists t1. split; [done | by left]. }
  destruct (Editor_enter_quiet r [] (edits_or_recorded edits_arg w) w1)
    as [Henter [Hg2 Hself2]].
  destruct (Editor_enter r [] (edits_or_recorded edits_arg w) w1)
    as [[[[]|e] w2] t2]; cbn [result_of world_of trace_of fst snd] in *.
  2:{ eexists. split; [|by left]. by forall_list. }
  pose proof (run_edited_shape fn inputs g inference w2) as Hshape.
  destruct (run_edited_same_structure fn inputs g inference w2)
    as [_ [Hself Htrees]].
  destruct (run_edited fn inputs g inference w2) as [[rb w3] t3];
    cbn [result_of world_of trace_of fst snd] in *.
  destruct (restore_all_quiet r (rev (edits_or_recorded edits_arg w)) w3)
    as [Hexit _].
  pose proof (restore_all_run r (rev (edits_or_recorded edits_arg w)) w3)
    as Hrun.
  destruct (restore_all r (rev (edits_or_recorded edits_arg w)) w3)
    as [[x w4] t4]; cbn [result_of world_of trace_of fst snd] in *.
  destruct Hshape as [(e & -> & Hq) | [(handle & e & r' & h' & -> & -> & Hr' & Hh')
    | (handle & G & mode & rest & HG & -> & Hmode & Hrest)]].
  - eexists. split; [|by left]. by forall_list.
  - rewrite Hself2, Hlm in Hr'. injection Hr' as <-.
    assert (∃ h3, heap w3 !! r = Some h3) as [h3 Hh3].
    { specialize (Htrees r). unfold host_tree in Htrees. rewrite Hh' in Htrees.
      destruct (heap w3 !! r); [by eexists | done]. }
    destruct (Hrun _ Hh3) as (w4' & [= -> -> ->] & _).
    exists (t1 ++ EvEditorEnter (edits_or_recorded edits_arg w) :: t2
            ++ [EvRegisterIncrementHook handle (IncrementHook g)]).
    split; [by forall_list|]. right. left.
    exists e, (EvEditorExit
               :: map EvRestore (rev (edits_or_recorded edits_arg w))).
    split_and!.
    + by repeat first [rewrite <- app_assoc | progress cbn [app]].
    + by forall_list.
    + done.
  - exists (t1 ++ EvEditorEnter (edits_or_recorded edits_arg w) :: t2
            ++ [EvRegisterIncrementHook handle (IncrementHook g)]).
    split; [by forall_list|]. right. right.
    exists mode, (rest ++ EvEditorExit :: t4). split_and!.
    + by repeat first [rewrite <- app_assoc | progress cbn [app]].
    + done.
    + forall_list.
      * eapply Forall_impl; [exact Hrest|]. intros ev [? Hhm].
        split; [done|]. intros G' hm HG'. rewrite Hg2, Hg1 in HG.
        assert (G' = G) as -> by congruence. apply Hhm.
      * eapply Forall_impl; [exact Hexit|]. intros ev [? Hro].
        split; [done|]. intros ??? ->. done.
Qed.

(** C3, as amended.  In every run of [__call__], each attachment of the
    observation hooks of [HookModel], each run of [fn], each firing of an
    observation hook and each increment of the graph comes after the call
    of [graph.compile]; and when that call raises, [__call__] raises the
    same exception and its trace holds no such event: the failure reaches
    the caller before the host is observed or run.  (The increment hook and
    the edits are set up before the compilation.) *)
Theorem compile_before_observation_and_run fn inputs g edits_arg inference w :
  preceded_by_compile runs_or_observes
    (trace_of (__call__ fn inputs g edits_arg inference w))
  ∧ ∀ pre e post,
      trace_of (__call__ fn inputs g edits_arg inference w)
      = pre ++ EvCompile g :: EvRaise e :: post →
      result_of (__call__ fn inputs g edits_arg inference w) = Raised e
      ∧ Forall (λ ev, runs_or_observes ev = false)
          (trace_of (__call__ fn inputs g edits_arg inference w)).
Proof.
  destruct (call_shape fn inputs g edits_arg inference w)
    as (quiet & Hquiet & Hshape).
  assert (Forall (λ ev, runs_or_observes ev = false) quiet) as Hq1
    by (eapply Forall_impl; [exact Hquiet|]; by intros ? [??]).
  assert (Forall (λ ev, is_compile ev = false) quiet) as Hq2
    by (eapply Forall_impl; [exact Hquiet|]; by intros ? [??]).
  split.
  - intros pre ev post Heq Hev.
    destruct Hshape as [Ht | [(e & tail & Ht & _) | (mode & rest & Ht & _)]];
      rewrite Ht in Heq.
    + exfalso. rewrite Forall_forall in Hq1.
      assert (ev ∈ quiet) as Hin by (rewrite Heq; set_solver).
      specialize (Hq1 _ Hin). congruence.
    + exists g. by eapply (after_quiet_prefix runs_or_observes).
    + exists g. by eapply (after_quiet_prefix runs_or_observes).
  - intros pre e post Heq.
    destruct Hshape as [Ht | [(e' & tail & Ht & Htail & Hres)
                             | (mode & rest & Ht & Hmode & Hrest)]];
      rewrite Ht in Heq.
    + exfalso. rewrite Forall_forall in Hq2.
      assert (EvCompile g ∈ quiet) as Hin by (rewrite Heq; set_solver).
      by specialize (Hq2 _ Hin).
    + apply (split_at_only is_compile) in Heq as (_ & _ & [= ->]); try done.
      * split; [done|]. rewrite Ht. forall_list.
        eapply Forall_impl; [exact Htail|]. by intros ? [??].
      * forall_list. eapply Forall_impl; [exact Htail|]. by intros ? [??].
    + apply (split_at_only is_compile) in Heq as (_ & _ & [= <-]); try done.
      * by destruct Hmode.
      * forall_list; [by destruct Hmode as [-> | ->]|].
        eapply Forall_impl; [exact Hrest|]. by intros ? [??].
Qed.

(** C4.  Let the graph object [g] be [G] when [__call__] is called.  Any
    [HookModel] that the run enters is the one made of the modules of [G]
    and of the two closures over [g]: its list of module paths has no
    duplicate and holds exactly the keys of [G.argument_node_names] with
    their last two dot-separated components dropped; its input hook, called
    on activations and a module path, is [intervene(activations,
    module_path, g, "input")], and its output hook the same with
    ["output"]. *)
Theorem hook_model_observes_graph_modules
    fn inputs g edits_arg inference w G hm :
  graphs w !! g = Some G →
  EvHookModelEnter hm ∈ trace_of (__call__ fn inputs g edits_arg inference w) →
  hm = HookModel_for g G
  ∧ NoDup (hm_modules hm)
  ∧ (∀ p, p ∈ hm_modules hm ↔
          ∃ k, k ∈ keys (argument_node_names G)
               ∧ p = drop_last_two_components k)
  ∧ (∀ a p, call_observer_hook (input_hook hm) a p = intervene_at a p g "input")
  ∧ (∀ a p, call_observer_hook (output_hook hm) a p = intervene_at a p g "output").
Proof.
  intros HG Hin.
  assert (hm = HookModel_for g G) as ->.
  { destruct (call_shape fn inputs g edits_arg inference w)
      as (quiet & Hquiet & Hshape).
    rewrite Forall_forall in Hquiet.
    destruct Hshape as [Ht | [(e & tail & Ht & Htail & _)
                             | (mode & rest & Ht & Hmode & Hrest)]];
      rewrite Ht in Hin.
    - by destruct (Hquiet _ Hin).
    - rewrite Forall_forall in Htail.
      rewrite elem_of_app, !elem_of_cons in Hin.
      destruct Hin as [Hin | [[=] | [[=] | Hin]]].
      + by destruct (Hquiet _ Hin).
      + by destruct (Htail _ Hin).
    - rewrite Forall_forall in Hrest.
      rewrite elem_of_app, !elem_of_cons in Hin.
      destruct Hin as [Hin | [[=] | [Hm | Hin]]].
      + by destruct (Hquiet _ Hin).
      + subst mode. by destruct Hmode.
      + destruct (Hrest _ Hin) as [_ Hhm]. by apply Hhm. }
  split_and!; try done.
  - unfold HookModel_for, Py.list_of_set. cbn [hm_modules].
    apply NoDup_elements.
  - intros p. cbn [hm_modules HookModel_for]. unfold Py.list_of_set.
    rewrite elem_of_elements. unfold hooked_modules, Py.set.
    rewrite elem_of_list_to_set, list_elem_of_fmap.
    split; intros (k & ? & ?); exists k; by rewrite ?module_of_spec in *.
Qed.

End Call.

(** * [modulize] and the recorded edits (C8) *)

Lemma applied_edits_app t1 t2 :
  applied_edits (t1 ++ t2) = applied_edits t1 ++ applied_edits t2.
Proof. apply omap_app. Qed.

Lemma applied_edits_none t :
  Forall (λ ev, enters_or_edits ev = false) t → applied_edits t = [].
Proof.
  induction 1 as [|ev t Hev _ IH]; [done|].
  unfold applied_edits in *. by destruct ev.
Qed.

Lemma applied_edits_map es : applied_edits (map EvEdit es) = es.
Proof.
  induction es as [|e es IH]; [done|].
  unfold applied_edits in *. simpl. by f_equal.
Qed.

Section Modulize.
Context {impl : ModelImpl} {engine : Engine}.

Lemma no_enter t es :
  Forall (λ ev, enters_or_edits ev = false) t → EvEditorEnter es ∉ t.
Proof. rewrite Forall_forall. intros H Hin. by specialize (H _ Hin). Qed.

Lemma restore_all_no_edit r es :
  always (λ ev, enters_or_edits ev = false) any_world (restore_all r es).
Proof. always_walk; intros; by simplify_eq. Qed.

Lemma dispatch_if_needed_no_edit :
  always (λ ev, enters_or_edits ev = false) any_world dispatch_if_needed.
Proof. always_walk; intros; by simplify_eq. Qed.

Lemma run_edited_no_edit fn inputs g inference :
  always (λ ev, enters_or_edits ev = false) any_world
    (run_edited fn inputs g inference).
Proof. always_walk; intros; by simplify_eq. Qed.

(** The entry of the editor applies a prefix of the edits it is given, in
    their order, and all of them when it returns. *)
Lemma Editor_enter_applied r applied todo w :
  applied_edits (trace_of (Editor_enter r applied todo w)) `prefix_of` todo
  ∧ (∀ es, EvEditorEnter es ∉ trace_of (Editor_enter r applied todo w))
  ∧ (∀ u, result_of (Editor_enter r applied todo w) = Ok u →
          trace_of (Editor_enter r applied todo w) = map EvEdit todo).
Proof.
  revert applied w. induction todo as [|e todo IH]; intros applied w.
  - simpl. split_and!; [done | intros es; apply not_elem_of_nil | done].
  - cbn [Editor_enter]. unfold edit_host.
    rewrite run_get_host.
    destruct (heap w !! r) as [h|].
    2:{ destruct (restore_all_no_edit r applied w) as [Hno _].
        destruct (restore_all r applied w) as [[x w'] t'].
        cbn [result_of world_of trace_of fst snd app] in *.
        rewrite (applied_edits_none _ Hno). split_and!.
        - apply prefix_nil.
        - intros es. by apply no_enter.
        - done. }
    rewrite run_lift.
    destruct (Edit_edit e (tree h)) as [t'|x].
    + rewrite run_emit, run_last_update_host, prepend_tuple. cbn [app].
      specialize (IH (e :: applied)
                    (set_heap (base.alter (set_tree t') r) w)).
      destruct (Editor_enter r (e :: applied) todo
                  (set_heap (base.alter (set_tree t') r) w))
        as [[y w'] t]. cbn [result_of world_of trace_of fst snd] in *.
      destruct IH as (Hpre & Hno & Hok). split_and!.
      * unfold applied_edits in *. simpl. by apply prefix_cons.
      * intros es [[=]|Hin]%elem_of_cons. by apply (Hno es).
      * intros u ->. by rewrite (Hok u).
    + destruct (restore_all_no_edit r applied w) as [Hno _].
      destruct (restore_all r applied w) as [[y w'] t].
      cbn [result_of world_of trace_of fst snd app] in *.
      assert (Forall (λ ev, enters_or_edits ev = false) (EvRaise x :: t))
        as Hno' by (by constructor).
      split_and!.
      * rewrite (applied_edits_none _ Hno'). apply prefix_nil.
      * intros es. by apply no_enter.
      * done.
Qed.

(** What a run of [__call__] applies to the host: it enters the editor with
    the edits given ([self.edits] for [None]) and no others, applies a
    prefix of them in their order, and has applied them all whenever it
    compiles, observes or runs. *)
Lemma call_applies_edits fn inputs g edits_arg inference w :
  (∀ es, EvEditorEnter es
         ∈ trace_of (__call__ fn inputs g edits_arg inference w) →
         es = edits_or_recorded edits_arg w)
  ∧ applied_edits (trace_of (__call__ fn inputs g edits_arg inference w))
    `prefix_of` edits_or_recorded edits_arg w
  ∧ (∀ ev, ev ∈ trace_of (__call__ fn inputs g edits_arg inference w) →
           is_compile ev = true ∨ runs_or_observes ev = true →
           applied_edits (trace_of (__call__ fn inputs g edits_arg inference w))
           = edits_or_recorded edits_arg w).
Proof.
  rewrite call_decompose.
  destruct (dispatch_if_needed_no_edit w) as [Hd _].
  destruct (dispatch_if_needed_quiet w) as [Hdq _].
  assert (∀ t, Forall (λ ev, is_editor_event ev = false ∧ is_compile ev = false
                             ∧ runs_or_observes ev = false) t →
               ∀ ev, ev ∈ t →
                 ¬ (is_compile ev = true ∨ runs_or_observes ev = true)) as Hq.
  { intros t Ht ev Hin. rewrite Forall_forall in Ht.
    destruct (Ht _ Hin) as (_ & ? & ?). intros [?|?]; congruence. }
  destruct (dispatch_if_needed w) as [[[[]|e] w1] t1];
    cbn [result_of world_of trace_of fst snd] in *.
  2:{ rewrite (applied_edits_none _ Hd). split_and!.
      - intros es Hin. by destruct (no_enter _ es Hd).
      - apply prefix_nil.
      - intros ev Hin Hev. by destruct (Hq _ Hdq _ Hin). }
  destruct (local_model (self w1)) as [r|];
    cbn [result_of world_of trace_of fst snd].
  2:{ rewrite (applied_edits_none _ Hd). split_and!.
      - intros es Hin. by destruct (no_enter _ es Hd).
      - apply prefix_nil.
      - intros ev Hin Hev. by destruct (Hq _ Hdq _ Hin). }
  destruct (Editor_enter_applied r [] (edits_or_recorded edits_arg w) w1)
    as (Hpre & Hnoenter & Hok).
  destruct (Editor_enter_quiet r [] (edits_or_recorded edits_arg w) w1)
    as [Hequiet _].
  destruct (Editor_enter r [] (edits_or_recorded edits_arg w) w1)
    as [[[[]|e] w2] t2]; cbn [result_of world_of trace_of fst snd] in *.
  - rewrite (Hok tt eq_refl) in *.
    destruct (run_edited_no_edit fn inputs g inference w2) as [Hb _].
    destruct (run_edited fn inputs g inference w2) as [[rb w3] t3].
    destruct (restore_all_no_edit r (rev (edits_or_recorded edits_arg w)) w3)
      as [Hx _].
    destruct (restore_all r (rev (edits_or_recorded edits_arg w)) w3)
      as [[x w4] t4]. cbn [result_of world_of trace_of fst snd] in *.
    assert (applied_edits
              (t1 ++ EvEditorEnter (edits_or_recorded edits_arg w)
               :: map EvEdit (edits_or_recorded edits_arg w) ++ t3
               ++ EvEditorExit :: t4) = edits_or_recorded edits_arg w) as Happ.
    { rewrite applied_edits_app, (applied_edits_none _ Hd). cbn [app].
      change (applied_edits (EvEditorEnter ?es :: ?l)) with (applied_edits l).
      rewrite !applied_edits_app, applied_edits_map,
        (applied_edits_none _ Hb).
      change (applied_edits (EvEditorExit :: ?l)) with (applied_edits l).
      rewrite (applied_edits_none _ Hx). by rewrite app_nil_r. }
    split_and!.
    + intros es. rewrite elem_of_app, elem_of_cons, !elem_of_app, elem_of_cons.
      intros [Hin | [[= ->] | [Hin | [Hin | [[=] | Hin]]]]]; try done.
      * by destruct (no_enter _ es Hd).
      * by destruct (Hnoenter es).
      * by destruct (no_enter _ es Hb).
      * by destruct (no_enter _ es Hx).
    + by rewrite Happ.
    + intros _ _ _. exact Happ.
  - split_and!.
    + intros es. rewrite elem_of_app, elem_of_cons.
      intros [Hin | [[= ->] | Hin]]; try done.
      * by destruct (no_enter _ es Hd).
      * by destruct (Hnoenter es).
    + rewrite applied_edits_app, (applied_edits_none _ Hd). cbn [app].
      by change (applied_edits (EvEditorEnter ?es :: ?l)) with (applied_edits l).
    + intros ev. rewrite elem_of_app, elem_of_cons.
      intros [Hin | [-> | Hin]] Hev.
      * by destruct (Hq _ Hdq _ Hin).
      * by destruct Hev.
      * rewrite Forall_forall in Hequiet. destruct (Hequiet _ Hin) as [??].
        destruct Hev; congruence.
Qed.

(** C8.  When [modulize] completes: the wrapper edit (a pass-through module
    under [module_name] at the path of [module]) is applied to the meta
    model, then the proxy is called, then the graph edit is applied to the
    meta model, and only then the two are appended to [self.edits], the
    wrapper edit first; the meta model holds both edits, applied in that
    order.  A later [__call__] with [edits=None], in any world where
    [self.edits] is as [modulize] left it, enters the editor with exactly
    these recorded edits, applies them to the host in the recorded order, and
    has applied them all whenever it compiles, observes or runs. *)
Theorem modulize_records_edits_in_order
    module mg node name w fn inputs g inference w2 :
  result_of (modulize module mg node name w) = Ok tt →
  edits (self w2) = edits (self (world_of (modulize module mg node name w))) →
  ∃ path mm h t1 t2,
    module_path (attrs_of module) = Some path
    ∧ trace_of (modulize module mg node name w)
      = [EvMetaEdit (WrapperModuleEdit path name (wrapper_for module path name));
         EvProxyCall mg name node;
         EvMetaEdit (GraphEdit path mg);
         EvAppendEdit (WrapperModuleEdit path name (wrapper_for module path name));
         EvAppendEdit (GraphEdit path mg)]
    ∧ meta_model (self w) = Some mm
    ∧ heap w !! mm = Some h
    ∧ Edit_edit (WrapperModuleEdit path name (wrapper_for module path name))
        (tree h) = Ok t1
    ∧ Edit_edit (GraphEdit path mg) t1 = Ok t2
    ∧ host_tree mm (world_of (modulize module mg node name w)) = Some t2
    ∧ edits (self (world_of (modulize module mg node name w)))
      = edits (self w)
        ++ [WrapperModuleEdit path name (wrapper_for module path name);
            GraphEdit path mg]
    ∧ (∀ es, EvEditorEnter es
             ∈ trace_of (__call__ fn inputs g None inference w2) →
             es = edits (self w)
                  ++ [WrapperModuleEdit path name (wrapper_for module path name);
                      GraphEdit path mg])
    ∧ applied_edits (trace_of (__call__ fn inputs g None inference w2))
      `prefix_of`
      edits (self w)
      ++ [WrapperModuleEdit path name (wrapper_for module path name);
          GraphEdit path mg]
    ∧ (∀ ev, ev ∈ trace_of (__call__ fn inputs g None inference w2) →
             is_compile ev = true ∨ runs_or_observes ev = true →
             applied_edits (trace_of (__call__ fn inputs g None inference w2))
             = edits (self w)
               ++ [WrapperModuleEdit path name (wrapper_for module path name);
                   GraphEdit path mg]).
Proof.
  pose proof (call_applies_edits fn inputs g None inference w2) as Hcall.
  cbn [edits_or_recorded] in Hcall.
  destruct (modulize module mg node name w) as [[res w'] t] eqn:E.
  unfold modulize, edit_meta_model, append_edit in E.
  exec E; simplify_eq; cbn [result_of world_of trace_of fst snd]; try done.
  intros _ Hedits. rewrite Hedits in Hcall.
  cbn [self set_self set_heap set_graphs edits set_edits] in Hcall.
  rewrite <- app_assoc in Hcall. cbn [app] in Hcall.
  match goal with
  | H : base.alter _ ?p _ !! ?p = Some _ |- _ =>
      rewrite lookup_alter_eq in H; apply fmap_Some in H as (? & ? & ->)
  end.
  simplify_eq. cbn [tree set_tree] in *.
  destruct Hcall as (Hc1 & Hc2 & Hc3).
  eexists _, _, _, _, _. split_and!; try done.
  - unfold host_tree.
    cbn [heap self set_self set_heap set_graphs].
    rewrite !lookup_alter_eq.
    match goal with H : heap w !! _ = Some _ |- _ => rewrite H end. done.
  - cbn [self set_self set_heap set_graphs edits set_edits].
    by rewrite <- app_assoc.
Qed.

End Modulize.

(** * Loading (C9) *)

#[global] Instance stays_dispatched_preorder : PreOrder stays_dispatched.
Proof.
  split; [by intros w ?|]. intros w1 w2 w3 H1 H2 ?. by apply H2, H1.
Qed.

Lemma filter_none (P : Event → bool) t :
  Forall (λ ev, P ev = false) t → List.filter P t = [].
Proof. induction 1 as [|ev t Hev _ IH]; [done|]. simpl. by rewrite Hev. Qed.

Section Loading.
Context {impl : ModelImpl} {engine : Engine}.

(** Past the loading block, [__call__] does not load. *)
Lemma Editor_loads_nothing es fn inputs g inference :
  always (λ ev, is_load_local ev = false ∧ is_load_returned ev = false)
    stays_dispatched (Editor es (run_edited fn inputs g inference)).
Proof.
  always_walk; intros; simplify_eq; try done; by unfold stays_dispatched.
Qed.

Lemma modulize_loads_nothing module mg node name :
  always (λ ev, is_load_local ev = false ∧ is_load_returned ev = false)
    stays_dispatched (modulize module mg node name).
Proof.
  always_walk; intros; simplify_eq; try done; by unfold stays_dispatched.
Qed.

Lemma call_split fn inputs g edits_arg inference w :
  __call__ fn inputs g edits_arg inference w =
  match dispatch_if_needed w with
  | (Ok _, w1, t1) =>
      prepend t1 (Editor (edits_or_recorded edits_arg w)
                    (run_edited fn inputs g inference) w1)
  | (Raised e, w1, t1) => (Raised e, w1, t1)
  end.
Proof. unfold __call__. by rewrite run_gets, run_bind. Qed.

(** The loading block: nothing when the model is dispatched; otherwise one
    call of [_load_local], after which [dispatched] is set exactly when the
    block completes, that is, when [_load_local] returned. *)
Lemma dispatch_if_needed_cases w :
  (dispatched (self w) = true ∧ dispatch_if_needed w = (Ok tt, w, []))
  ∨ (dispatched (self w) = false
     ∧ length (List.filter is_load_local (trace_of (dispatch_if_needed w))) = 1
     ∧ ((result_of (dispatch_if_needed w) = Ok tt
         ∧ length (List.filter is_load_returned
                     (trace_of (dispatch_if_needed w))) = 1
         ∧ dispatched (self (world_of (dispatch_if_needed w))) = true)
        ∨ (∃ e, result_of (dispatch_if_needed w) = Raised e
                ∧ List.filter is_load_returned
                    (trace_of (dispatch_if_needed w)) = []
                ∧ dispatched (self (world_of (dispatch_if_needed w))) = false))).
Proof.
  destruct (dispatched (self w)) eqn:Hd.
  - left. split; [done|]. unfold dispatch_if_needed.
    by rewrite run_gets, Hd.
  - right. split; [done|].
    destruct (dispatch_if_needed w) as [[res w'] t] eqn:E.
    unfold dispatch_if_needed, load_and_dispatch, patching, alteration in E.
    exec E; simplify_eq;
      cbn [result_of world_of trace_of fst snd self set_self set_heap
           dispatched set_dispatched set_local_model]; try done.
    all: try by rewrite Hd in *.
    all: split; [reflexivity|].
    all: first [ left; split_and!; reflexivity
               | right; eexists; split_and!; first [reflexivity | done] ].
Qed.

(** One use of the model: in a dispatched world it loads nothing and leaves
    the model dispatched; otherwise [_load_local] returns in it at most
    once, and when it does the model is dispatched afterwards. *)
Lemma use_loads u w :
  (dispatched (self w) = true →
     Forall (λ ev, is_load_local ev = false ∧ is_load_returned ev = false)
       (trace_of (use u w))
     ∧ dispatched (self (world_of (use u w))) = true)
  ∧ (length (List.filter is_load_returned (trace_of (use u w))) ≤ 1)%nat
  ∧ (length (List.filter is_load_returned (trace_of (use u w))) = 1 →
     dispatched (self (world_of (use u w))) = true).
Proof.
  destruct u as [fn inputs g edits_arg inference | module mg node name].
  - cbn [use]. rewrite run_bind, call_split.
    destruct (dispatch_if_needed_cases w)
      as [[Hd ->] | (Hd & Hone & [(Hres & Hret & Hd') | (e & Hres & Hret & Hd')])].
    + rewrite prepend_nil.
      destruct (Editor_loads_nothing (edits_or_recorded edits_arg w)
                  fn inputs g inference w) as [Hno Hdisp].
      destruct (Editor (edits_or_recorded edits_arg w)
                  (run_edited fn inputs g inference) w) as [[[a|e] w1] t1];
        cbn [result_of world_of trace_of fst snd prepend app] in *;
        rewrite ?app_nil_r.
      all: assert (List.filter is_load_returned t1 = []) as Hnone
          by (apply filter_none; eapply Forall_impl; [exact Hno|];
              by intros ? [??]).
      all: rewrite Hnone; split_and!; [by auto | simpl; lia | done].
    + destruct (dispatch_if_needed w) as [[res w1] t1];
        cbn [result_of world_of trace_of fst snd] in *. subst res.
      destruct (Editor_loads_nothing (edits_or_recorded edits_arg w)
                  fn inputs g inference w1) as [Hno Hdisp].
      destruct (Editor (edits_or_recorded edits_arg w)
                  (run_edited fn inputs g inference) w1) as [[[a|e] w2] t2];
        cbn [result_of world_of trace_of fst snd prepend app] in *;
        rewrite ?app_nil_r.
      all: assert (List.filter is_load_returned t2 = []) as Hnone
          by (apply filter_none; eapply Forall_impl; [exact Hno|];
              by intros ? [??]).
      all: rewrite List.filter_app, Hnone, app_nil_r, Hret.
      all: split_and!; [congruence | lia | by auto].
    + destruct (dispatch_if_needed w) as [[res w1] t1];
        cbn [result_of world_of trace_of fst snd] in *. subst res.
      cbn [result_of world_of trace_of fst snd]. rewrite Hret.
      split_and!; [congruence | simpl; lia | done].
  - cbn [use].
    destruct (modulize_loads_nothing module mg node name w) as [Hno Hdisp].
    assert (List.filter is_load_returned
              (trace_of (modulize module mg node name w)) = []) as Hnone
      by (apply filter_none; eapply Forall_impl; [exact Hno|];
          by intros ? [??]).
    rewrite Hnone. split_and!; [by auto | simpl; lia | done].
Qed.

(** A whole lifetime. *)
Lemma lifetime_loads us w :
  (dispatched (self w) = true →
     Forall (λ ev, is_load_local ev = false ∧ is_load_returned ev = false)
       (trace_of (lifetime us w))
     ∧ dispatched (self (world_of (lifetime us w))) = true)
  ∧ (length (List.filter is_load_returned (trace_of (lifetime us w))) ≤ 1)%nat.
Proof.
  revert w. induction us as [|u us IH]; intros w.
  { simpl. split; [by split | lia]. }
  cbn [lifetime]. rewrite run_bind. unfold attempt.
  destruct (use_loads u w) as (Hdisp & Hle & Hone).
  destruct (use u w) as [[res w1] t1];
    cbn [result_of world_of trace_of fst snd] in *.
  destruct (IH w1) as [IHdisp IHle].
  destruct (lifetime us w1) as [[res' w2] t2];
    cbn [result_of world_of trace_of fst snd prepend] in *.
  split.
  - intros Hd. destruct (Hdisp Hd) as [Hno Hd1].
    destruct (IHdisp Hd1) as [Hno' Hd2]. split; [|done].
    by apply Forall_app.
  - rewrite List.filter_app, length_app.
    destruct (decide (length (List.filter is_load_returned t1) = 1))
      as [H1|H1]; [|lia].
    destruct (IHdisp (Hone H1)) as [Hno' _].
    rewrite (filter_none is_load_returned t2); [simpl; lia|].
    eapply Forall_impl; [exact Hno'|]. by intros ? [??].
Qed.

(** C9, as amended.  Over any sequence of uses of one model object
    ([__call__]s and [modulize]s, the caller going on after an exception),
    [_load_local] returns at most once.  From a world where the model is
    dispatched (after a load that returned, or for a model constructed from
    a module, which [__init__] leaves dispatched) no use calls [_load_local]
    and the model stays dispatched.  A [__call__] on a model that is not
    dispatched calls [_load_local] exactly once and leaves the model
    dispatched exactly when the loading block completes; when the block
    raises, the model stays undispatched, so that the next [__call__] calls
    [_load_local] again. *)
Theorem load_local_returns_at_most_once
    us w fn inputs g edits_arg inference r args_ alter_ tok kwargs_ :
  (length (List.filter is_load_returned (trace_of (lifetime us w))) ≤ 1)%nat
  ∧ (dispatched (self w) = true →
       List.filter is_load_local (trace_of (lifetime us w)) = []
       ∧ dispatched (self (world_of (lifetime us w))) = true)
  ∧ (dispatched (self w) = false →
       length (List.filter is_load_local
                 (trace_of (__call__ fn inputs g edits_arg inference w))) = 1
       ∧ (dispatched
            (self (world_of (__call__ fn inputs g edits_arg inference w)))
          = true
          ↔ result_of (dispatch_if_needed w) = Ok tt))
  ∧ (result_of (__init__ (inr r) args_ alter_ tok kwargs_ w) = Ok tt →
       dispatched (self (world_of (__init__ (inr r) args_ alter_ tok kwargs_ w)))
       = true).
Proof.
  split_and!.
  - apply lifetime_loads.
  - intros Hd. destruct (lifetime_loads us w) as [Hdisp _].
    destruct (Hdisp Hd) as [Hno ?]. split; [|done].
    apply filter_none. eapply Forall_impl; [exact Hno|]. by intros ? [??].
  - intros Hd. rewrite call_split.
    destruct (dispatch_if_needed_cases w)
      as [[Hd' _] | (_ & Hone & Hcases)]; [congruence|].
    destruct (dispatch_if_needed w) as [[res w1] t1];
      cbn [result_of world_of trace_of fst snd] in *.
    destruct Hcases as [(-> & _ & Hd1) | (e & -> & _ & Hd1)].
    + destruct (Editor_loads_nothing (edits_or_recorded edits_arg w)
                  fn inputs g inference w1) as [Hno Hdisp].
      destruct (Editor (edits_or_recorded edits_arg w)
                  (run_edited fn inputs g inference) w1) as [[res2 w2] t2];
        cbn [result_of world_of trace_of fst snd prepend] in *.
      rewrite List.filter_app, length_app, Hone.
      rewrite (filter_none is_load_local t2);
        [|eapply Forall_impl; [exact Hno|]; by intros ? [??]].
      split; [done|]. split; [done|]. intros _. by apply Hdisp.
    + cbn [result_of world_of trace_of fst snd]. split; [done|].
      rewrite Hd1. by split.
  - destruct (__init__ (inr r) args_ alter_ tok kwargs_ w)
      as [[res w'] t] eqn:E.
    unfold __init__, build_meta_model, scan_example, patching, alteration,
      init_empty_weights in E.
    exec E; simplify_eq;
      cbn [result_of world_of trace_of fst snd self set_self set_heap
           dispatched]; done.
Qed.

End Loading.

(** * The increment hook on the exit paths *)

Section Removal.
Context {impl : ModelImpl} {engine : Engine}.

(** The body of the editor scope (lines 154-194) removes the increment hook
    exactly when it returns: a run that returns has registered the hook once
    and removed that same handle once; a run that raises, wherever it
    raises, has not called [increment_hook.remove()]. *)
Lemma run_edited_removal fn inputs g inference w :
  ((∃ v, result_of (run_edited fn inputs g inference w) = Ok v)
   ∧ List.filter is_register (trace_of (run_edited fn inputs g inference w))
     = [EvRegisterIncrementHook (next_handle w) (IncrementHook g)]
   ∧ List.filter is_remove (trace_of (run_edited fn inputs g inference w))
     = [EvRemoveIncrementHook (next_handle w)])
  ∨ ((∃ e, result_of (run_edited fn inputs g inference w) = Raised e)
     ∧ List.filter is_remove (trace_of (run_edited fn inputs g inference w))
       = []).
Proof.
  destruct (run_edited fn inputs g inference w) as [[res w'] t] eqn:E.
  unfold run_edited, _register_increment_hook, compile, eval, train,
    inference_mode, HookModel_scope, call_fn, RemovableHandle_remove in E.
  exec E; simplify_eq; cbn [result_of world_of trace_of fst snd].
  all: match goal with
       | H : run_steps ?r ?l ?w0 = (_, _, ?t) |- _ =>
           destruct (run_steps_quiet r l w0) as [Hsteps (Hself & _)];
           rewrite H in Hsteps, Hself;
           cbn [trace_of world_of fst snd self set_heap set_self set_graphs
                set_next_handle] in Hsteps, Hself
       | |- _ => idtac
       end.
  all: try match goal with
       | H : local_model (self ?w0) = None, H' : self ?w0 = self _ |- _ =>
           rewrite H' in H; congruence
       end.
  all: try (assert (List.filter is_register l = []
                    ∧ List.filter is_remove l = []) as [Hl1 Hl2]
              by (split; apply filter_none;
                  (eapply Forall_impl; [exact Hsteps|]); by intros []);
            cbn [List.filter is_register is_remove];
            rewrite ?List.filter_app, ?Hl1, ?Hl2;
            cbn [List.filter is_register is_remove app]).
  all: first [ left; split_and!; [by eexists | reflexivity | reflexivity]
             | right; split; [by eexists | reflexivity] ].
Qed.

End Removal.

(** * More on the construction *)

Section InitPaths.
Context {impl : ModelImpl} {engine : Engine}.


(** X2.  When [_load_meta] raises, [__init__] raises the same exception
    after leaving [init_empty_weights] and then the patcher scope; nothing
    is wrapped and [_scan] is not called; the model object holds the
    arguments of the constructor and no meta model, and no module object
    and no graph has changed. *)
Theorem init_load_meta_failure s args_ alter_ tok kwargs_ w e :
  _load_meta s args_ kwargs_ = Raised e →
  __init__ (inl s) args_ alter_ tok kwargs_ w
  = (Raised e,
     set_self (λ _, constructed (inl s) s args_ alter_ tok kwargs_) w,
     [EvPatcherEnter (patcher_for alter_ s); EvInitEmptyWeightsEnter;
      EvLoadMeta s; EvRaise e;
      EvInitEmptyWeightsExit; EvPatcherExit (patcher_for alter_ s)]).
Proof.
  intros Hload.
  destruct (__init__ (inl s) args_ alter_ tok kwargs_ w) as [[res w'] t] eqn:E.
  unfold __init__, build_meta_model, scan_example, patching, alteration,
    init_empty_weights in E.
  exec E; simplify_eq; try congruence.
  all: done.
Qed.


End InitPaths.

(** * The meta model and the module it is made from *)

Section Mirror.

Lemma module_names_eq prefix a ps bs cs :
  module_names prefix (TModule a ps bs cs) =
  prefix :: concat (map (λ nc, module_names (submodule_prefix prefix nc.1) nc.2) cs).
Proof.
  unfold module_names. rewrite named_modules_eq. cbn [map fst]. f_equal.
  induction cs as [|[n c] cs IH]; [done|].
  cbn [map concat]. rewrite <- IH. by rewrite fmap_app.
Qed.

Lemma module_names_to d prefix m :
  module_names prefix (to d m) = module_names prefix m.
Proof.
  revert prefix.
  induction m as [a ps bs cs IH] using TorchModule_tree_ind. intros prefix.
  change (to d (TModule a ps bs cs)) with
    (TModule a (map (λ '(n, t), (n, on_device d t)) ps)
       (map (λ '(n, t), (n, on_device d t)) bs)
       (map (λ '(n, c), (n, to d c)) cs)).
  rewrite !module_names_eq. do 2 f_equal. rewrite <- list_fmap_compose.
  apply Forall_fmap_ext. eapply Forall_impl; [exact IH|].
  intros [n c] H. simpl. apply H.
Qed.

Lemma module_names_Module_wrap prefix m :
  module_names prefix (Module_wrap m) = module_names prefix m.
Proof. destruct m. unfold Module_wrap. by rewrite !module_names_eq. Qed.

Lemma module_names_wrap_children prefix m :
  module_names prefix (wrap_children m) = module_names prefix m.
Proof.
  destruct m as [a ps bs cs]. unfold wrap_children.
  rewrite !module_names_eq. do 2 f_equal. rewrite <- list_fmap_compose.
  apply list_fmap_ext. intros _ [n c] _. simpl.
  apply module_names_Module_wrap.
Qed.

Lemma module_names_assign_module_paths prefix prefix' m :
  module_names prefix (assign_module_paths prefix' m) = module_names prefix m.
Proof.
  revert prefix prefix'.
  induction m as [a ps bs cs IH] using TorchModule_tree_ind.
  intros prefix prefix'.
  change (assign_module_paths prefix' (TModule a ps bs cs)) with
    (TModule (set_module_path prefix' a) ps bs
       (map (λ '(n, c), (n, assign_module_paths (submodule_prefix prefix' n) c)) cs)).
  rewrite !module_names_eq. do 2 f_equal. rewrite <- list_fmap_compose.
  apply Forall_fmap_ext. eapply Forall_impl; [exact IH|].
  intros [n c] H. simpl. apply H.
Qed.

Lemma requires_grad_to d m :
  map requires_grad (tensors (to d m)) = map requires_grad (tensors m).
Proof.
  induction m as [a ps bs cs IH] using TorchModule_tree_ind.
  change (to d (TModule a ps bs cs)) with
    (TModule a (map (λ '(n, t), (n, on_device d t)) ps)
       (map (λ '(n, t), (n, on_device d t)) bs)
       (map (λ '(n, c), (n, to d c)) cs)).
  rewrite !tensors_eq, !fmap_app. f_equal; [|f_equal].
  - rewrite <- !list_fmap_compose. apply list_fmap_ext. by intros _ [??] _.
  - rewrite <- !list_fmap_compose. apply list_fmap_ext. by intros _ [??] _.
  - induction IH as [|[n c] cs Hc _ IHcs]; [done|].
    simpl in *. rewrite !fmap_app. f_equal; [exact Hc | exact IHcs].
Qed.

(** X4.  The meta model mirrors the module it is made from: the tree that
    lines 73-93 of [__init__] make of a module ([.to("meta")],
    [Module.wrap], the wrapping of the children, the naming) has a module
    under exactly the names [named_modules] gives the modules of the
    original, in the same order; each of its modules holds its own name as
    [module_path]; its root and the children of the root are wrapped;
    every parameter and buffer is on the meta device and requires a
    gradient exactly when the original does. *)
Theorem meta_model_mirrors_module m :
  module_names EmptyString (to_meta_model m) = module_names EmptyString m
  ∧ Forall (λ nm, module_path (attrs_of nm.2) = Some nm.1)
      (named_modules EmptyString (to_meta_model m))
  ∧ wrapped (attrs_of (to_meta_model m)) = true
  ∧ Forall (λ nc, wrapped (attrs_of nc.2) = true)
      (named_children (to_meta_model m))
  ∧ Forall (λ t, device t = Meta) (tensors (to_meta_model m))
  ∧ map requires_grad (tensors (to_meta_model m))
    = map requires_grad (tensors m).
Proof.
  unfold to_meta_model. split_and!.
  - by rewrite module_names_assign_module_paths, module_names_wrap_children,
      module_names_Module_wrap, module_names_to.
  - apply module_paths_assigned.
  - apply root_wrapped.
  - apply children_wrapped.
  - rewrite tensors_assign_module_paths, tensors_wrap_children,
      tensors_Module_wrap. apply tensors_to_meta.
  - by rewrite tensors_assign_module_paths, tensors_wrap_children,
      tensors_Module_wrap, requires_grad_to.
Qed.

End Mirror.

(** * Module paths name modules *)

Section UniquePaths.

Lemma well_named_eq a ps bs cs :
  well_named (TModule a ps bs cs) = true ↔
  NoDup (map fst cs)
  ∧ Forall (λ nc, nc.1 ≠ EmptyString ∧ has_dot nc.1 = false
                  ∧ well_named nc.2 = true) cs.
Proof.
  cbn [well_named]. rewrite !andb_true_iff, bool_decide_eq_true.
  split.
  - intros [[Hnd Hnames] Hsub]. split; [done|].
    induction cs as [|[n c] cs IH]; [done|].
    cbn [forallb] in Hnames. apply andb_true_iff in Hnames as [Hn Hnames].
    apply andb_true_iff in Hsub as [Hc Hsub].
    apply andb_true_iff in Hn as [Hne Hdot].
    apply NoDup_cons in Hnd as [_ Hnd].
    constructor; [|by apply IH]. cbn [fst snd] in *. split_and!; try done.
    + intros ->. by rewrite String.eqb_refl in Hne.
    + by apply negb_true_iff in Hdot.
  - intros [Hnd Hall]. split_and!; [done | |].
    + induction Hall as [|[n c] cs (Hne & Hdot & _) _ IH]; [done|].
      cbn [forallb fst snd] in *.
      apply NoDup_cons in Hnd as [_ Hnd]. rewrite (IH Hnd), andb_true_r.
      apply andb_true_iff. split.
      * apply negb_true_iff. by apply String.eqb_neq.
      * by apply negb_true_iff.
    + clear Hnd. induction Hall as [|[n c] cs (_ & _ & Hc) _ IH]; [done|].
      cbn [snd] in *. by rewrite Hc, IH.
Qed.

Lemma append_assoc (a b c : string) : (a +:+ b) +:+ c = a +:+ (b +:+ c).
Proof.
  induction a as [|x a IH]; [done|].
  change (String x ((a +:+ b) +:+ c) = String x (a +:+ (b +:+ c))).
  by rewrite IH.
Qed.

Lemma length_append (a b : string) :
  String.length (a +:+ b) = String.length a + String.length b.
Proof.
  induction a as [|x a IH]; [done|].
  change (S (String.length (a +:+ b)) = S (String.length a + String.length b)).
  by rewrite IH.
Qed.

Lemma has_dot_append a b : has_dot (a +:+ String "." b) = true.
Proof.
  induction a as [|x a IH]; [done|].
  change (has_dot (String x a +:+ String "." b))
    with (Ascii.eqb x "." || has_dot (a +:+ String "." b)).
  rewrite IH. apply orb_true_r.
Qed.

Lemma no_dot_split a x b y :
  has_dot a = false → has_dot b = false →
  a +:+ String "." x = b +:+ String "." y → a = b.
Proof.
  revert b. induction a as [|c a IH]; intros [|d b]; [done | | |].
  - cbn [has_dot]. intros _ [Hd _]%orb_false_iff.
    change (String "." x = String d (b +:+ String "." y) → EmptyString = String d b).
    intros [= <- _]. done.
  - cbn [has_dot]. intros [Hc _]%orb_false_iff _.
    change (String c (a +:+ String "." x) = String "." y → String c a = EmptyString).
    intros [= -> _]. done.
  - cbn [has_dot]. intros [_ Ha]%orb_false_iff [_ Hb]%orb_false_iff.
    change (String c (a +:+ String "." x) = String d (b +:+ String "." y)
            → String c a = String d b).
    intros [= -> Heq]. f_equal. by apply IH.
Qed.

(** Two distinct names without a dot have nothing below them in common. *)
Lemma under_distinct n1 n2 e :
  has_dot n1 = false → has_dot n2 = false →
  under n1 e → under n2 e → n1 = n2.
Proof.
  intros H1 H2 [-> | [r1 ->]] [Heq | [r2 Heq]].
  - done.
  - rewrite Heq, has_dot_append in H1. done.
  - rewrite <- Heq, has_dot_append in H2. done.
  - by eapply no_dot_split.
Qed.

Lemma under_child p n s :
  under (p +:+ String "." n) s ↔ ∃ e, s = p +:+ String "." e ∧ under n e.
Proof.
  split.
  - intros [-> | [r ->]].
    + exists n. split; [done | by left].
    + exists (n +:+ String "." r). split; [|right; by eexists].
      rewrite append_assoc. done.
  - intros (e & -> & [-> | [r ->]]).
    + by left.
    + right. exists r. rewrite append_assoc. done.
Qed.

Lemma submodule_prefix_nonempty p n :
  p ≠ EmptyString → submodule_prefix p n = p +:+ String "." n.
Proof. by destruct p. Qed.

Lemma submodule_prefix_ne p n : n ≠ EmptyString → submodule_prefix p n ≠ EmptyString.
Proof. destruct p; [done|]. by intros _. Qed.

Lemma under_siblings p n1 n2 s :
  has_dot n1 = false → has_dot n2 = false →
  under (submodule_prefix p n1) s → under (submodule_prefix p n2) s → n1 = n2.
Proof.
  intros H1 H2. destruct (decide (p = EmptyString)) as [-> | Hp].
  - cbn [submodule_prefix]. by apply under_distinct.
  - rewrite !submodule_prefix_nonempty by done.
    rewrite !under_child. intros (e1 & -> & He1) (e2 & Heq & He2).
    apply String.app_inj in Heq. injection Heq as ->.
    by eapply under_distinct.
Qed.

Lemma under_not_parent p n :
  n ≠ EmptyString → ¬ under (submodule_prefix p n) p.
Proof.
  intros Hn. destruct (decide (p = EmptyString)) as [-> | Hp].
  - cbn [submodule_prefix]. intros [Heq | [r Heq]]; [done|].
    by destruct n.
  - rewrite submodule_prefix_nonempty by done.
    intros [Heq | [r Heq]]; apply (f_equal String.length) in Heq.
    + rewrite length_append in Heq. simpl in Heq. lia.
    + rewrite !length_append in Heq. simpl in Heq. lia.
Qed.

Lemma under_trans p n s :
  p ≠ EmptyString → under (submodule_prefix p n) s → under p s.
Proof.
  intros Hp. rewrite submodule_prefix_nonempty by done.
  rewrite under_child. intros (e & -> & _). right. by eexists.
Qed.

(** Every name [named_modules] gives under a non-empty prefix is the prefix
    or a name below it. *)
Lemma module_names_under q m :
  q ≠ EmptyString → Forall (under q) (module_names q m).
Proof.
  revert q. induction m as [a ps bs cs IH] using TorchModule_tree_ind.
  intros q Hq. rewrite module_names_eq. constructor; [by left|].
  apply Forall_concat. rewrite Forall_map.
  eapply Forall_impl; [exact IH|]. intros [n c] Hc. cbn [fst snd] in *.
  eapply Forall_impl; [apply Hc|].
  - rewrite submodule_prefix_nonempty by done. by destruct q.
  - intros s. by apply under_trans.
Qed.

Lemma module_names_unique p m :
  well_named m = true → NoDup (module_names p m).
Proof.
  revert p. induction m as [a ps bs cs IH] using TorchModule_tree_ind.
  intros p [Hnd Hall]%well_named_eq. rewrite module_names_eq.
  apply NoDup_cons. split.
  - rewrite list_elem_of_In, in_concat. intros (l & Hl & Hin).
    apply in_map_iff in Hl as ([n c] & <- & Hnc).
    rewrite Forall_forall in Hall. apply list_elem_of_In in Hnc.
    destruct (Hall _ Hnc) as (Hne & _ & _). cbn [fst snd] in *.
    pose proof (module_names_under (submodule_prefix p n) c
                  (submodule_prefix_ne p n Hne)) as Hunder.
    rewrite Forall_forall in Hunder. apply list_elem_of_In in Hin.
    by apply (under_not_parent p n Hne), Hunder.
  - induction cs as [|[n c] cs IHcs]; [constructor|].
    apply Forall_cons in IH as [IHc IH].
    apply Forall_cons in Hall as [(Hne & Hdot & Hc) Hall].
    cbn [map fst] in Hnd. apply NoDup_cons in Hnd as [Hn Hnd].
    cbn [map concat fst snd] in *. apply NoDup_app. split_and!.
    + by apply IHc.
    + intros s Hs Hin.
      rewrite list_elem_of_In, in_concat in Hin. destruct Hin as (l & Hl & Hin).
      apply in_map_iff in Hl as ([n' c'] & <- & Hnc).
      apply list_elem_of_In in Hnc, Hin. cbn [fst snd] in *.
      rewrite Forall_forall in Hall.
      destruct (Hall _ Hnc) as (Hne' & Hdot' & _). cbn [fst snd] in *.
      pose proof (module_names_under (submodule_prefix p n) c
                    (submodule_prefix_ne p n Hne)) as Hu.
      pose proof (module_names_under (submodule_prefix p n') c'
                    (submodule_prefix_ne p n' Hne')) as Hu'.
      rewrite Forall_forall in Hu, Hu'.
      assert (n = n') as <- by (eapply under_siblings; eauto).
      apply Hn. apply list_elem_of_fmap. by exists (n, c').
    + by apply IHcs.
Qed.

Lemma NoDup_fst_functional {A B} (l : list (A * B)) x y1 y2 :
  NoDup (map fst l) → (x, y1) ∈ l → (x, y2) ∈ l → y1 = y2.
Proof.
  induction l as [|[a b] l IH]; [by intros _ ?%elem_of_nil|].
  cbn [map fst]. intros [Ha Hnd]%NoDup_cons.
  rewrite !elem_of_cons. intros [H1 | H1] [H2 | H2]; simplify_eq.
  - done.
  - destruct Ha. apply list_elem_of_fmap. by exists (a, y2).
  - destruct Ha. apply list_elem_of_fmap. by exists (a, y1).
  - by apply IH.
Qed.

(** X5.  Module paths name modules: in a module tree whose child names
    are what [torch] accepts (not empty, without a dot, distinct within a
    module), [named_modules] gives no name twice; so in the meta model that
    [__init__] makes of such a tree the loop of lines 92-93 gives every
    module a [module_path] of its own, and a path names one module. *)
Theorem module_paths_are_unique m :
  well_named m = true →
  NoDup (module_names EmptyString m)
  ∧ NoDup (module_names EmptyString (to_meta_model m))
  ∧ ∀ p c1 c2,
      (p, c1) ∈ named_modules EmptyString (to_meta_model m) →
      (p, c2) ∈ named_modules EmptyString (to_meta_model m) →
      c1 = c2 ∧ module_path (attrs_of c1) = Some p.
Proof.
  intros Hm.
  pose proof (module_names_unique EmptyString m Hm) as Hnd.
  assert (NoDup (module_names EmptyString (to_meta_model m))) as Hnd'.
  { unfold to_meta_model.
    by rewrite module_names_assign_module_paths, module_names_wrap_children,
      module_names_Module_wrap, module_names_to. }
  split_and!; try done.
  intros p c1 c2 H1 H2. split.
  - by eapply NoDup_fst_functional.
  - pose proof (module_paths_assigned EmptyString
                  (wrap_children (Module_wrap (to Meta m)))) as Hall.
    rewrite Forall_forall in Hall. apply (Hall _ H1).
Qed.

End UniquePaths.

(** * Keys and module paths *)

Section Keys.

(** X6.  The expression of line 164 recovers the module path from a key
    made of a module path, a direction and an iteration: for every path
    (with or without dots, the empty path of the root module included) and
    every direction and iteration without a dot,
    [".".join((path + "." + direction + "." + iteration).split(".")[:-2])]
    is the path; so a graph that holds such a key has the path among the
    modules [HookModel] is given. *)
Theorem module_of_recovers_module_path path dir it (g : Ref) (G : Graph) :
  has_dot dir = false → has_dot it = false →
  module_of (path +:+ String "." (dir +:+ String "." it)) = path
  ∧ (path +:+ String "." (dir +:+ String "." it)
       ∈ keys (argument_node_names G) →
     path ∈ hooked_modules G
     ∧ path ∈ hm_modules (HookModel_for g G)).
Proof.
  intros Hd Hi.
  pose proof (module_of_key path dir it Hd Hi) as Hkey.
  split; [done|]. intros Hin.
  assert (path ∈ hooked_modules G) as Hp.
  { unfold hooked_modules, Py.set. rewrite elem_of_list_to_set.
    apply list_elem_of_fmap. eexists. split; [|exact Hin]. by rewrite Hkey. }
  split; [done|]. cbn [HookModel_for hm_modules]. unfold Py.list_of_set.
  by rewrite elem_of_elements.
Qed.

Lemma module_of_few_components name :
  (length (Py.split "." name) ≤ 2)%nat → module_of name = EmptyString.
Proof.
  intros Hlen. unfold module_of, Py.slice_to_neg.
  replace (length (Py.split "." name) - 2) with 0 by lia. done.
Qed.

(** X7.  A key with fewer than two dots names the root: when the key has
    no dot, or one dot between two parts without a dot, the expression of
    line 164 gives the empty string, the path [named_modules] gives the
    root module. *)
Theorem module_of_short_key a b :
  has_dot a = false → has_dot b = false →
  module_of a = EmptyString
  ∧ module_of (a +:+ String "." b) = EmptyString
  ∧ ∀ m, head (map fst (named_modules EmptyString m)) = Some EmptyString.
Proof.
  intros Ha Hb. split_and!.
  - apply module_of_few_components. rewrite split_no_dot by done. simpl. lia.
  - apply module_of_few_components.
    rewrite split_app_no_dot, (split_no_dot b) by done. simpl. lia.
  - by intros [].
Qed.

(** X8.  [str.split] and [str.join] on the dot are inverse to each other:
    joining the components of any string gives the string back, the
    components hold no dot and there is at least one; and splitting the
    join of a non-empty list of dot-free components gives the list back. *)
Theorem split_join_inverse s l :
  l ≠ [] → Forall (λ x, has_dot x = false) l →
  Py.join "." (Py.split "." s) = s
  ∧ Py.split "." s ≠ []
  ∧ Forall (λ x, has_dot x = false) (Py.split "." s)
  ∧ Py.split "." (Py.join "." l) = l.
Proof.
  intros Hl Hdots. split_and!.
  - apply join_split.
  - apply split_nonempty.
  - apply split_components_no_dot.
  - by apply split_join.
Qed.

End Keys.

(** * [__call__], path by path *)

Section CallReturns.
Context {impl : ModelImpl} {engine : Engine}.

Lemma filter_own_handle (id : nat) (hook : ForwardHook) l :
  filter (λ p : nat * ForwardHook, p.1 ≠ id) (l ++ [(id, hook)])
  = filter (λ p : nat * ForwardHook, p.1 ≠ id) l.
Proof.
  rewrite filter_app, filter_cons_False by (simpl; auto).
  by rewrite filter_nil, app_nil_r.
Qed.

Lemma run_edited_returns fn inputs g inference w v :
  result_of (run_edited fn inputs g inference w) = Ok v →
  ∃ r h G G' x ts,
    local_model (self w) = Some r ∧ heap w !! r = Some h
    ∧ graphs w !! g = Some G
    ∧ Graph_compile G (tree h) = Ok G'
    ∧ _prepare_inputs inputs = Ok x
    ∧ outcome (fn x) = Ok v
    ∧ trace_of (run_edited fn inputs g inference w)
      = before_fn (next_handle w) g G inference inputs x ++ ts
        ++ after_fn (next_handle w)
    ∧ Forall (λ ev, is_step_event ev = true) ts
    ∧ self (world_of (run_edited fn inputs g inference w)) = self w
    ∧ next_handle (world_of (run_edited fn inputs g inference w))
      = S (next_handle w)
    ∧ heap (world_of (run_edited fn inputs g inference w))
      = <[r := returned_host (next_handle w) h]> (heap w).
Proof.
  destruct (run_edited fn inputs g inference w) as [[res w'] t] eqn:E.
  unfold run_edited, _register_increment_hook, compile, eval, train,
    inference_mode, HookModel_scope, call_fn, RemovableHandle_remove in E.
  exec E; simplify_eq; cbn [result_of world_of trace_of fst snd]; try done.
  all: intros [= ->].
  all: match goal with
       | H : run_steps ?r ?l ?w0 = (_, _, ?t) |- _ =>
           destruct (run_steps_quiet r l w0) as [Hsteps (Hself & Hheap & Hnext)];
           rewrite H in Hsteps, Hself, Hheap, Hnext;
           cbn [trace_of world_of fst snd self heap next_handle set_heap
                set_self set_graphs set_next_handle] in Hsteps, Hself, Hheap, Hnext
       end.
  all: match goal with
       | H : base.alter _ ?p _ !! ?p = Some _ |- _ =>
           rewrite lookup_alter_eq in H;
           apply fmap_Some in H as (h0 & Hh0 & ->)
       end.
  all: match goal with
       | H : local_model (self ?w0) = Some ?q, H' : self ?w0 = self _ |- _ =>
           rewrite H' in H; simplify_eq
       end.
  all: eexists _, h0, _, _, _, _; split_and!; try done.
  all: try (unfold before_fn, after_fn; cbn [app]; rewrite <- ?app_assoc; done).
  all: cbn [heap set_heap]; rewrite Hheap.
  all: apply map_eq; intros r'; destruct (decide (r' = p)) as [->|Hne].
  all: rewrite ?lookup_insert_eq, ?lookup_insert_ne by done.
  all: rewrite ?lookup_alter_eq, ?lookup_alter_ne by done; try done.
  all: rewrite Hh0; cbn; unfold returned_host; cbn.
  all: by rewrite filter_own_handle.
Qed.

End CallReturns.

Section ReturningCall.
Context {impl : ModelImpl} {engine : Engine}.

(** The loading block registers no hook and leaves the graphs as they are. *)
Lemma dispatch_if_needed_frame :
  always (λ _, True)
    (λ w w', graphs w' = graphs w ∧ next_handle w' = next_handle w)
    dispatch_if_needed.
Proof.
  assert (PreOrder (λ w w' : World,
            graphs w' = graphs w ∧ next_handle w' = next_handle w)).
  { split; [done|]. intros ??? [??] [??]. split; congruence. }
  always_walk; intros; by simplify_eq.
Qed.

Lemma Editor_enter_no_host r e es applied w :
  heap w !! r = None →
  result_of (Editor_enter r applied (e :: es) w)
  = Raised (PyExn "ReferenceError").
Proof.
  intros Hr. cbn [Editor_enter]. unfold edit_host.
  rewrite run_get_host, Hr.
  assert (restore_all r applied w = (Ok tt, w, [])
          ∨ ∃ x, restore_all r applied w = (Raised x, w, [])) as Hrest.
  { destruct applied as [|a applied]; [by left|]. right.
    exists (PyExn "ReferenceError"). cbn [restore_all]. unfold restore_host.
    by rewrite run_assoc, run_get_host, Hr. }
  by destruct Hrest as [-> | [x ->]].
Qed.

(** A run of [__call__] that returns, in full. *)
Lemma call_returns fn inputs g edits_arg inference w v :
  result_of (__call__ fn inputs g edits_arg inference w) = Ok v →
  ∃ w1 t1 r h1 tn G G' x ts,
    dispatch_if_needed w = (Ok tt, w1, t1)
    ∧ local_model (self w1) = Some r ∧ heap w1 !! r = Some h1
    ∧ apply_edits (edits_or_recorded edits_arg w) (tree h1) = Ok tn
    ∧ graphs w !! g = Some G
    ∧ Graph_compile G tn = Ok G'
    ∧ _prepare_inputs inputs = Ok x
    ∧ outcome (fn x) = Ok v
    ∧ trace_of (__call__ fn inputs g edits_arg inference w)
      = t1 ++ EvEditorEnter (edits_or_recorded edits_arg w)
           :: map EvEdit (edits_or_recorded edits_arg w)
           ++ before_fn (next_handle w) g G inference inputs x ++ ts
           ++ after_fn (next_handle w)
           ++ EvEditorExit
           :: map EvRestore (rev (edits_or_recorded edits_arg w))
    ∧ Forall (λ ev, is_step_event ev = true) ts
    ∧ self (world_of (__call__ fn inputs g edits_arg inference w)) = self w1
    ∧ next_handle (world_of (__call__ fn inputs g edits_arg inference w))
      = S (next_handle w)
    ∧ heap (world_of (__call__ fn inputs g edits_arg inference w))
      = <[r := set_tree (restore_edits (rev (edits_or_recorded edits_arg w)) tn)
                 (returned_host (next_handle w) h1)]> (heap w1).
Proof.
  rewrite call_decompose.
  destruct (dispatch_if_needed_frame w) as [_ [Hg1 Hn1]].
  destruct (dispatch_if_needed w) as [[[[]|e] w1] t1]; [|by cbn].
  cbn [world_of fst snd] in Hg1, Hn1.
  destruct (local_model (self w1)) as [r|] eqn:Hlm; [|by cbn].
  cbv zeta. set (es := edits_or_recorded edits_arg w).
  destruct (heap w1 !! r) as [h1|] eqn:Hh1.
  - pose proof (Editor_enter_run r [] es w1 h1 Hh1) as Henter.
    destruct (Editor_enter r [] es w1) as [[[[]|e] w2] t2]; [|by cbn].
    destruct Henter as (tn & Happ & Hre & ->).
    pose proof (run_edited_returns fn inputs g inference w2) as Hbody.
    destruct (run_edited fn inputs g inference w2) as [[rb w3] t3].
    cbn [result_of world_of trace_of fst snd] in Hbody.
    pose proof (retree_lookup _ _ _ _ _ Hre Hh1) as Hh2.
    destruct Hre as (Hs2 & Hg2 & Hn2 & Hheap2).
    destruct (restore_all r (rev es) w3) as [[[[]|e] w4] t4] eqn:Hrest;
      cbn [result_of world_of trace_of fst snd]; [|by cbn].
    intros ->.
    destruct (Hbody v eq_refl)
      as (r' & h2 & G & G' & x & ts & Hlm2 & Hh2' & HG & HG' & Hx & Hv
          & -> & Hts & Hs3 & Hn3 & Hheap3).
    rewrite Hs2, Hlm in Hlm2. injection Hlm2 as <-.
    rewrite Hh2 in Hh2'. injection Hh2' as <-.
    assert (heap w3 !! r = Some (returned_host (next_handle w2) (set_tree tn h1)))
      as Hh3 by (by rewrite Hheap3, lookup_insert_eq).
    destruct (restore_all_run r (rev es) w3 _ Hh3) as (w4' & Hrun & Hre4).
    rewrite Hrest in Hrun. injection Hrun as <- ->.
    destruct Hre4 as (Hs4 & Hg4 & Hn4 & Hheap4).
    exists w1, t1, r, h1, tn, G, G', x, ts.
    rewrite Hn2, Hn1 in *. rewrite Hg2, Hg1 in HG.
    split_and!; try done; try congruence.
    + by rewrite <- !app_assoc.
    + rewrite Hheap4, Hheap3, Hheap2. apply map_eq. intros r'.
      destruct (decide (r' = r)) as [->|Hne].
      * by rewrite lookup_alter_eq, !lookup_insert_eq.
      * by rewrite lookup_alter_ne, !lookup_insert_ne, lookup_alter_ne.
  - destruct es as [|e es'] eqn:Hes.
    + cbn [Editor_enter]. rewrite run_last_ret.
      pose proof (run_edited_returns fn inputs g inference w1) as Hbody.
      destruct (run_edited fn inputs g inference w1) as [[rb w3] t3].
      cbn [result_of world_of trace_of fst snd rev] in *.
      cbn [restore_all]. rewrite run_last_ret.
      cbn [result_of fst snd]. intros ->.
      destruct (Hbody v eq_refl) as (r' & h2 & _ & _ & _ & _ & Hlm2 & Hh2 & _).
      congruence.
    + pose proof (Editor_enter_no_host r e es' [] w1 Hh1) as Hraise.
      destruct (Editor_enter r [] (e :: es') w1) as [[[[]|?] ?] ?]; by cbn.
Qed.

End ReturningCall.

Section CallRaises.
Context {impl : ModelImpl} {engine : Engine}.

(** The body of the editor scope when it raises: the increment hook it
    registered is still on the host, the hooks of [HookModel] are not, and
    the mode is the last one set. *)
Lemma run_edited_raises fn inputs g inference w e r h :
  result_of (run_edited fn inputs g inference w) = Raised e →
  local_model (self w) = Some r → heap w !! r = Some h →
  ∃ h',
    heap (world_of (run_edited fn inputs g inference w)) !! r = Some h'
    ∧ tree h' = tree h
    ∧ forward_hooks h' = forward_hooks h ++ [(next_handle w, IncrementHook g)]
    ∧ hook_models h' = hook_models h
    ∧ (EvTrain ∈ trace_of (run_edited fn inputs g inference w) →
       training h' = true)
    ∧ (EvEval ∈ trace_of (run_edited fn inputs g inference w) →
       training h' = false)
    ∧ self (world_of (run_edited fn inputs g inference w)) = self w
    ∧ EvRegisterIncrementHook (next_handle w) (IncrementHook g)
      ∈ trace_of (run_edited fn inputs g inference w).
Proof.
  intros Hres Hlm Hh. revert Hres.
  destruct (run_edited fn inputs g inference w) as [[res w'] t] eqn:E.
  unfold run_edited, _register_increment_hook, compile, eval, train,
    inference_mode, HookModel_scope, call_fn, RemovableHandle_remove in E.
  exec E; simplify_eq; cbn [result_of world_of trace_of fst snd]; try done.
  all: intros _.
  all: match goal with
       | H : run_steps ?r ?l ?w0 = (_, _, ?t) |- _ =>
           destruct (run_steps_quiet r l w0) as [Hsteps (Hself & Hheap & Hnext)];
           rewrite H in Hsteps, Hself, Hheap, Hnext;
           cbn [trace_of world_of fst snd self heap next_handle set_heap
                set_self set_graphs set_next_handle] in Hsteps, Hself, Hheap, Hnext
       | |- _ => idtac
       end.
  all: try match goal with
       | H : local_model (self ?w0) = None, H' : self ?w0 = self _ |- _ =>
           rewrite H' in H; congruence
       end.
  all: cbn [heap set_heap set_graphs set_next_handle self set_self].
  all: rewrite ?Hheap, ?Hself.
  all: rewrite ?lookup_alter_eq, Hh; cbn.
  all: eexists; split; [reflexivity|]; cbn.
  all: split_and!; try done; try (by constructor).
  all: intros Hin; exfalso.
  all: repeat first [ rewrite elem_of_cons in Hin | rewrite elem_of_app in Hin
                    | rewrite elem_of_nil in Hin ].
  all: intuition (try discriminate).
  all: match goal with
       | H : _ ∈ ?l, Hs : Forall _ ?l |- _ =>
           rewrite Forall_forall in Hs; by specialize (Hs _ H)
       end.
Qed.
End CallRaises.

Section CallPaths.
Context {impl : ModelImpl} {engine : Engine}.

(** Outside the body of the editor scope, [__call__] emits no event of the
    body. *)
Lemma dispatch_if_needed_no_body :
  always (λ ev, is_body_event ev = false) any_world dispatch_if_needed.
Proof. always_walk; intros; by simplify_eq. Qed.

Lemma Editor_enter_no_body r applied todo :
  always (λ ev, is_body_event ev = false) any_world
    (Editor_enter r applied todo).
Proof. always_walk; intros; by simplify_eq. Qed.

Lemma restore_all_no_body r es :
  always (λ ev, is_body_event ev = false) any_world (restore_all r es).
Proof. always_walk; intros; by simplify_eq. Qed.

Lemma body_event_inside t1 a t2 t3 b t4 ev :
  Forall (λ ev, is_body_event ev = false) t1 → is_body_event a = false →
  Forall (λ ev, is_body_event ev = false) t2 → is_body_event b = false →
  Forall (λ ev, is_body_event ev = false) t4 →
  is_body_event ev = true →
  ev ∈ t1 ++ a :: t2 ++ t3 ++ b :: t4 → ev ∈ t3.
Proof.
  intros H1 Ha H2 Hb H4 Hev.
  rewrite Forall_forall in H1, H2, H4.
  rewrite !elem_of_app, !elem_of_cons, !elem_of_app, elem_of_cons.
  intros [Hin | [-> | [Hin | [Hin | [-> | Hin]]]]]; try done; try congruence.
  - specialize (H1 _ Hin). congruence.
  - specialize (H2 _ Hin). congruence.
  - specialize (H4 _ Hin). congruence.
Qed.

Lemma no_body_event_outside t ev :
  Forall (λ ev, is_body_event ev = false) t → is_body_event ev = true →
  ev ∉ t.
Proof.
  intros Ht Hev Hin. rewrite Forall_forall in Ht. specialize (Ht _ Hin).
  congruence.
Qed.

(** A run of [__call__] that raises from the body of the editor scope. *)
Lemma call_raises_in_body fn inputs g edits_arg inference w e ev :
  (∀ r, local_model (self w) = Some r → is_Some (heap w !! r)) →
  result_of (__call__ fn inputs g edits_arg inference w) = Raised e →
  ev ∈ trace_of (__call__ fn inputs g edits_arg inference w) →
  is_body_event ev = true →
  ∃ w1 t1 r h1 h',
    dispatch_if_needed w = (Ok tt, w1, t1)
    ∧ local_model (self w1) = Some r ∧ heap w1 !! r = Some h1
    ∧ local_model (self (world_of (__call__ fn inputs g edits_arg inference w)))
      = Some r
    ∧ heap (world_of (__call__ fn inputs g edits_arg inference w)) !! r
      = Some h'
    ∧ forward_hooks h'
      = forward_hooks h1 ++ [(next_handle w, IncrementHook g)]
    ∧ hook_models h' = hook_models h1
    ∧ (EvTrain ∈ trace_of (__call__ fn inputs g edits_arg inference w) →
       training h' = true)
    ∧ (EvEval ∈ trace_of (__call__ fn inputs g edits_arg inference w) →
       training h' = false)
    ∧ List.filter is_remove
        (trace_of (__call__ fn inputs g edits_arg inference w)) = []
    ∧ EvRegisterIncrementHook (next_handle w) (IncrementHook g)
      ∈ trace_of (__call__ fn inputs g edits_arg inference w).
Proof.
  intros Hwf. rewrite call_decompose.
  pose proof (dispatch_if_needed_host w Hwf) as Hhost.
  destruct (dispatch_if_needed_frame w) as [_ [Hg1 Hn1]].
  destruct (dispatch_if_needed_no_body w) as [Hnb1 _].
  destruct (dispatch_if_needed w) as [[[[]|e1] w1] t1];
    cbn [result_of world_of trace_of fst snd] in *.
  2:{ intros _ Hin Hev. by destruct (no_body_event_outside _ _ Hnb1 Hev). }
  destruct (local_model (self w1)) as [r|] eqn:Hlm;
    cbn [result_of world_of trace_of fst snd].
  2:{ intros _ Hin Hev. by destruct (no_body_event_outside _ _ Hnb1 Hev). }
  cbv zeta. set (es := edits_or_recorded edits_arg w).
  destruct (Hhost r eq_refl) as [h1 Hh1].
  pose proof (Editor_enter_run r [] es w1 h1 Hh1) as Henter.
  destruct (Editor_enter_no_body r [] es w1) as [Hnb2 _].
  destruct (Editor_enter r [] es w1) as [[[[]|e2] w2] t2];
    cbn [result_of world_of trace_of fst snd] in *.
  2:{ intros _ Hin Hev. exfalso.
      apply elem_of_app in Hin as [Hin | Hin];
        [by destruct (no_body_event_outside _ _ Hnb1 Hev)|].
      apply elem_of_cons in Hin as [-> | Hin]; [done|].
      by destruct (no_body_event_outside _ _ Hnb2 Hev). }
  destruct Henter as (tn & Happ & Hre & ->).
  pose proof (retree_lookup _ _ _ _ _ Hre Hh1) as Hh2.
  destruct Hre as (Hs2 & Hg2 & Hn2 & Hheap2).
  assert (local_model (self w2) = Some r) as Hlm2 by (by rewrite Hs2).
  pose proof (run_edited_returns fn inputs g inference w2) as Hok.
  pose proof (λ e, run_edited_raises fn inputs g inference w2 e r (set_tree tn h1)) as Hbad.
  pose proof (run_edited_removal fn inputs g inference w2) as Hrem.
  destruct (run_edited fn inputs g inference w2) as [[rb w3] t3];
    cbn [result_of world_of trace_of fst snd] in *.
  destruct rb as [v|e3].
  - (* the body returned: so does the call *)
    destruct (Hok v eq_refl)
      as (r' & h2 & _ & _ & _ & _ & Hlm2' & Hh2' & _ & _ & _ & _ & _ & _ & _
          & _ & Hheap3).
    assert (heap w3 !! r' = Some (returned_host (next_handle w2) h2)) as Hh3
      by (by rewrite Hheap3, lookup_insert_eq).
    rewrite Hlm2 in Hlm2'. injection Hlm2' as <-.
    destruct (restore_all_run r (rev es) w3 _ Hh3) as (w4 & -> & _).
    by cbn.
  - destruct (Hbad e3 eq_refl Hlm2 Hh2)
      as (h3 & Hh3 & Ht3 & Hf3 & Hm3 & Htrain & Heval & Hs3 & Hreg).
    destruct (restore_all_run r (rev es) w3 _ Hh3) as (w4 & Hrun & Hre4).
    destruct (restore_all_no_body r (rev es) w3) as [Hnb4 _].
    rewrite Hrun in *. cbn [result_of world_of trace_of fst snd] in *.
    intros _ _ _.
    destruct Hre4 as (Hs4 & Hg4 & Hn4 & Hheap4).
    exists w1, t1, r, h1, (set_tree (restore_edits (rev es) (tree h3)) h3).
    assert (∀ ev', is_body_event ev' = true →
              ev' ∈ t1 ++ EvEditorEnter es :: map EvEdit es ++ t3
                      ++ EvEditorExit :: map EvRestore (rev es) → ev' ∈ t3)
      as Hinside.
    { intros ev' Hev'. by apply body_event_inside. }
    split_and!; try done.
    + by rewrite Hs4, Hs3.
    + by rewrite Hheap4, lookup_alter_eq, Hh3.
    + cbn. rewrite Hf3. cbn. by rewrite Hn2, Hn1.
    + intros Hin. apply Htrain. by apply Hinside.
    + intros Hin. apply Heval. by apply Hinside.
    + destruct Hrem as [([v Hv] & _) | (_ & Hrem)]; [done|].
      rewrite List.filter_app. cbn [List.filter is_remove].
      rewrite !List.filter_app. cbn [List.filter is_remove].
      rewrite Hrem.
      rewrite !filter_none; [done | | |].
      all: eapply Forall_impl; [eassumption|]; by intros [].
    + rewrite <- Hn1, <- Hn2.
      rewrite !elem_of_app, elem_of_cons, !elem_of_app. auto.
Qed.

End CallPaths.

Section CallOutcomes.
Context {impl : ModelImpl} {engine : Engine}.


(** X10.  When [__call__] returns, the host is in evaluation mode, whether
    the run was made with [inference=True] or [inference=False] (line
    192). *)
Theorem call_returns_in_eval_mode fn inputs g edits_arg inference w v :
  result_of (__call__ fn inputs g edits_arg inference w) = Ok v →
  ∃ r h',
    local_model (self (world_of (__call__ fn inputs g edits_arg inference w)))
    = Some r
    ∧ heap (world_of (__call__ fn inputs g edits_arg inference w)) !! r
      = Some h'
    ∧ training h' = false.
Proof.
  intros Hres.
  destruct (call_returns _ _ _ _ _ _ _ Hres)
    as (w1 & t1 & r & h1 & tn & G & G' & x & ts & Hd & Hlm & Hh1 & Happ & HG
        & HG' & Hx & Hv & Ht & Hts & Hs & Hn & Hheap).
  eexists r, _. rewrite Hs, Hheap, lookup_insert_eq. by split_and!.
Qed.


(** X12.  When a run of [__call__] raises after it has registered the
    increment hook, the hook is still registered on the host when
    [__call__] is left, last among the forward hooks of the host, and the
    run has made no call of [increment_hook.remove()]; the observation
    points of [HookModel] are those the host had before. *)
Theorem call_raise_leaves_increment_hook
    fn inputs g edits_arg inference w e handle hook :
  (∀ r, local_model (self w) = Some r → is_Some (heap w !! r)) →
  result_of (__call__ fn inputs g edits_arg inference w) = Raised e →
  EvRegisterIncrementHook handle hook
    ∈ trace_of (__call__ fn inputs g edits_arg inference w) →
  ∃ r h1 h',
    local_model (self (world_of (dispatch_if_needed w))) = Some r
    ∧ heap (world_of (dispatch_if_needed w)) !! r = Some h1
    ∧ local_model (self (world_of (__call__ fn inputs g edits_arg inference w)))
      = Some r
    ∧ heap (world_of (__call__ fn inputs g edits_arg inference w)) !! r
      = Some h'
    ∧ forward_hooks h' = forward_hooks h1 ++ [(next_handle w, IncrementHook g)]
    ∧ hook_models h' = hook_models h1
    ∧ List.filter is_remove
        (trace_of (__call__ fn inputs g edits_arg inference w)) = [].
Proof.
  intros Hwf Hres Hin.
  destruct (call_raises_in_body _ _ _ _ _ _ _ _ Hwf Hres Hin eq_refl)
    as (w1 & t1 & r & h1 & h' & Hd & Hlm & Hh1 & Hlm' & Hh' & Hf & Hm & _ & _
        & Hrem & _).
  exists r, h1, h'. rewrite Hd. by split_and!.
Qed.

(** X13.  When a run of [__call__] with [inference=False] raises after it
    has put the host in training mode, the host is in training mode when
    [__call__] is left: the [eval()] of line 192 is not reached. *)
Theorem call_raise_leaves_training_mode fn inputs g edits_arg inference w e :
  (∀ r, local_model (self w) = Some r → is_Some (heap w !! r)) →
  result_of (__call__ fn inputs g edits_arg inference w) = Raised e →
  EvTrain ∈ trace_of (__call__ fn inputs g edits_arg inference w) →
  ∃ r h',
    local_model (self (world_of (__call__ fn inputs g edits_arg inference w)))
    = Some r
    ∧ heap (world_of (__call__ fn inputs g edits_arg inference w)) !! r
      = Some h'
    ∧ training h' = true.
Proof.
  intros Hwf Hres Hin.
  destruct (call_raises_in_body _ _ _ _ _ _ _ _ Hwf Hres Hin eq_refl)
    as (w1 & t1 & r & h1 & h' & Hd & Hlm & Hh1 & Hlm' & Hh' & Hf & Hm & Htr & _).
  exists r, h'. split_and!; try done. by apply Htr.
Qed.

End CallOutcomes.

#[global] Instance same_settings_preorder : PreOrder same_settings.
Proof.
  split.
  - intros w. unfold same_settings. by destruct (self w).
  - intros w1 w2 w3. unfold same_settings.
    destruct (self w1), (self w2), (self w3); cbn. intros [=] [=]. by subst.
Qed.

Section CallFlow.
Context {impl : ModelImpl} {engine : Engine}.

Lemma not_body_as_called inputs g inference ev :
  is_body_event ev = false → as_called inputs g inference ev.
Proof. by destruct ev. Qed.

Lemma step_as_called inputs g inference ev :
  is_step_event ev = true → as_called inputs g inference ev.
Proof. by destruct ev. Qed.

Lemma run_edited_flow fn inputs g inference w :
  Forall (as_called inputs g inference)
    (trace_of (run_edited fn inputs g inference w))
  ∧ (length (List.filter is_fn (trace_of (run_edited fn inputs g inference w)))
     ≤ 1)%nat
  ∧ (length (List.filter is_compile
               (trace_of (run_edited fn inputs g inference w))) ≤ 1)%nat.
Proof.
  destruct (run_edited fn inputs g inference w) as [[res w'] t] eqn:E.
  unfold run_edited, _register_increment_hook, compile, eval, train,
    inference_mode, HookModel_scope, call_fn, RemovableHandle_remove in E.
  exec E; simplify_eq; cbn [result_of world_of trace_of fst snd].
  all: match goal with
       | H : run_steps ?r ?l ?w0 = (_, _, ?t) |- _ =>
           destruct (run_steps_quiet r l w0) as [Hsteps _];
           rewrite H in Hsteps; cbn [trace_of snd] in Hsteps;
           assert (List.filter is_fn t = [] ∧ List.filter is_compile t = [])
             as [Hl1 Hl2]
             by (split; apply filter_none;
                 (eapply Forall_impl; [exact Hsteps|]); by intros []);
           assert (∀ b, Forall (as_called inputs g b) t) as Hl3
             by (intros b; (eapply Forall_impl; [exact Hsteps|]);
                 intros ?; apply step_as_called)
       | |- _ => idtac
       end.
  all: split_and!.
  all: try (cbn [List.filter is_fn is_compile];
            rewrite ?List.filter_app, ?Hl1, ?Hl2;
            cbn [List.filter is_fn is_compile app length]; lia).
  all: forall_list.
Qed.

(** X14.  On every path of [__call__(fn, inputs, graph, inference=...)]:
    [_prepare_inputs] is called on the inputs given and on nothing else;
    [fn] is called at most once, and only on what [_prepare_inputs]
    returned for these inputs (so not at all when it raised); the graph
    compiled is the graph given, compiled at most once; the increment hook
    registered is the closure over that graph; [inference_mode] is entered
    with [mode=inference]; and [train()] is called only when [inference] is
    false. *)
Theorem call_arguments_flow fn inputs g edits_arg inference w :
  Forall (as_called inputs g inference)
    (trace_of (__call__ fn inputs g edits_arg inference w))
  ∧ (length (List.filter is_fn
               (trace_of (__call__ fn inputs g edits_arg inference w))) ≤ 1)%nat
  ∧ (length (List.filter is_compile
               (trace_of (__call__ fn inputs g edits_arg inference w))) ≤ 1)%nat.
Proof.
  rewrite call_decompose.
  destruct (dispatch_if_needed_no_body w) as [Hnb1 _].
  assert (∀ t, Forall (λ ev, is_body_event ev = false) t →
               Forall (as_called inputs g inference) t
               ∧ List.filter is_fn t = [] ∧ List.filter is_compile t = [])
    as Hout.
  { intros t Ht. split_and!.
    - eapply Forall_impl; [exact Ht|]. intros ?. apply not_body_as_called.
    - apply filter_none. eapply Forall_impl; [exact Ht|]. by intros [].
    - apply filter_none. eapply Forall_impl; [exact Ht|]. by intros []. }
  destruct (dispatch_if_needed w) as [[[[]|e1] w1] t1];
    cbn [result_of world_of trace_of fst snd] in *.
  2:{ destruct (Hout _ Hnb1) as (? & -> & ->). split_and!; [done | |]; simpl; lia. }
  destruct (local_model (self w1)) as [r|];
    cbn [result_of world_of trace_of fst snd].
  2:{ destruct (Hout _ Hnb1) as (? & -> & ->). split_and!; [done | |]; simpl; lia. }
  cbv zeta. set (es := edits_or_recorded edits_arg w).
  destruct (Editor_enter_no_body r [] es w1) as [Hnb2 _].
  destruct (Editor_enter r [] es w1) as [[[[]|e2] w2] t2];
    cbn [result_of world_of trace_of fst snd] in *.
  2:{ destruct (Hout _ Hnb1) as (? & H1 & H1').
      destruct (Hout _ Hnb2) as (? & H2 & H2').
      rewrite !List.filter_app, H1, H1'. cbn [List.filter is_fn is_compile].
      rewrite H2, H2'. split_and!; [by forall_list | |]; simpl; lia. }
  destruct (run_edited_flow fn inputs g inference w2) as (Hb & Hb1 & Hb2).
  destruct (run_edited fn inputs g inference w2) as [[rb w3] t3].
  destruct (restore_all_no_body r (rev es) w3) as [Hnb4 _].
  destruct (restore_all r (rev es) w3) as [[x w4] t4].
  cbn [result_of world_of trace_of fst snd] in *.
  destruct (Hout _ Hnb1) as (? & H1 & H1').
  destruct (Hout _ Hnb2) as (? & H2 & H2').
  destruct (Hout _ Hnb4) as (? & H4 & H4').
  rewrite !List.filter_app, H1, H1'. cbn [List.filter is_fn is_compile].
  rewrite !List.filter_app, H2, H2'. cbn [List.filter is_fn is_compile].
  rewrite H4, H4', !app_nil_r. cbn [app].
  split_and!; [by forall_list | done | done].
Qed.

(** X15.  When the model is not dispatched and [_load_local] raises,
    [__call__] raises the same exception after leaving the patcher scope it
    had entered, and changes nothing: the model object (still not
    dispatched, [local_model] still unbound), the module objects and the
    graphs are as they were; the editor is not entered and nothing is
    hooked, compiled or run. *)
Theorem call_load_failure_changes_nothing
    fn inputs g edits_arg inference w e :
  dispatched (self w) = false →
  _load_local (repoid_path_clsname (self w)) (args (self w)) (kwargs (self w))
  = Raised e →
  __call__ fn inputs g edits_arg inference w
  = (Raised e, w,
     [EvPatcherEnter (patcher_for (alter (self w)) (repoid_path_clsname (self w)));
      EvLoadLocal (repoid_path_clsname (self w));
      EvRaise e;
      EvPatcherExit (patcher_for (alter (self w)) (repoid_path_clsname (self w)))]).
Proof.
  intros Hd Hload.
  destruct (__call__ fn inputs g edits_arg inference w) as [[res w'] t] eqn:E.
  unfold __call__, dispatch_if_needed, load_and_dispatch, patching,
    alteration in E.
  exec E; simplify_eq; try congruence.
  all: try by rewrite Hd in *.
  all: unfold patcher_for.
  all: repeat match goal with
         | H : alter (self _) = _ |- _ => rewrite H; clear H
         end.
  all: done.
Qed.

(** Inside the editor scope nothing is written to the model object. *)
Lemma Editor_keeps_self es fn inputs g inference :
  always (λ _, True) (λ w w', self w' = self w)
    (Editor es (run_edited fn inputs g inference)).
Proof.
  assert (PreOrder (λ w w' : World, self w' = self w)).
  { split; [done|]. intros ??? ??. congruence. }
  always_walk; intros; by simplify_eq.
Qed.

Lemma dispatch_if_needed_settings :
  always (λ _, True) same_settings dispatch_if_needed.
Proof.
  always_walk; intros; simplify_eq; try done.
  all: unfold same_settings; cbn; by destruct (self _).
Qed.

(** X16.  [__call__] writes no attribute of the model object but
    [local_model] and [dispatched], and on a dispatched model it writes
    none: the recorded edits, the meta model and the constructor's
    arguments are as they were on every exit path, and an [edits] argument
    is not recorded. *)
Theorem call_keeps_model_object fn inputs g edits_arg inference w :
  same_settings w (world_of (__call__ fn inputs g edits_arg inference w))
  ∧ settled w (world_of (__call__ fn inputs g edits_arg inference w))
  ∧ edits (self (world_of (__call__ fn inputs g edits_arg inference w)))
    = edits (self w)
  ∧ meta_model (self (world_of (__call__ fn inputs g edits_arg inference w)))
    = meta_model (self w).
Proof.
  assert (same_settings w (world_of (__call__ fn inputs g edits_arg inference w))
          ∧ settled w (world_of (__call__ fn inputs g edits_arg inference w)))
    as [Hsame Hsettled].
  { rewrite call_split.
    destruct (dispatch_if_needed_settings w) as [_ Hs1].
    destruct (dispatch_if_needed_cases w) as [[Hd Hrun] | [Hd _]].
    - rewrite Hrun in *.
      destruct (Editor_keeps_self (edits_or_recorded edits_arg w)
                  fn inputs g inference w) as [_ Hs].
      destruct (Editor (edits_or_recorded edits_arg w)
                  (run_edited fn inputs g inference) w) as [[? w'] ?].
      cbn [prepend world_of fst snd] in *.
      split; [|by unfold settled]. unfold same_settings. rewrite Hs.
      by destruct (self w).
    - split; [|unfold settled; intros ?; congruence].
      destruct (dispatch_if_needed w) as [[[[]|e1] w1] t1];
        cbn [world_of fst snd] in *; [|done].
      destruct (Editor_keeps_self (edits_or_recorded edits_arg w)
                  fn inputs g inference w1) as [_ Hs].
      destruct (Editor (edits_or_recorded edits_arg w)
                  (run_edited fn inputs g inference) w1) as [[? w'] ?].
      cbn [prepend world_of fst snd] in *.
      unfold same_settings in *. by rewrite Hs. }
  split_and!; try done.
  - unfold same_settings in Hsame. rewrite <- Hsame.
    by destruct (self (world_of _)).
  - unfold same_settings in Hsame. rewrite <- Hsame.
    by destruct (self (world_of _)).
Qed.

End CallFlow.

(** * Scopes *)

Lemma scopes_after_app s t1 t2 :
  scopes_after s (t1 ++ t2) = scopes_after s t1 ≫= λ s', scopes_after s' t2.
Proof.
  revert s. induction t1 as [|ev t1 IH]; intros s; [done|].
  destruct ev; cbn [app scopes_after]; try apply IH.
  all: destruct s as [|[] s]; try done; try apply IH.
  case_decide; [apply IH | done].
Qed.

Lemma scopes_after_quiet s t :
  Forall (λ ev, is_scope_event ev = false) t → scopes_after s t = Some s.
Proof.
  induction 1 as [|ev t Hev _ IH]; [done|]. by destruct ev.
Qed.

Lemma scopes_after_balanced_app s t1 t2 :
  (∀ s, scopes_after s t1 = Some s) →
  scopes_after s (t1 ++ t2) = scopes_after s t2.
Proof. intros H. by rewrite scopes_after_app, H. Qed.

Lemma step_events_quiet t :
  Forall (λ ev, is_step_event ev = true) t →
  Forall (λ ev, is_scope_event ev = false) t.
Proof. intros H. eapply Forall_impl; [exact H|]. by intros []. Qed.

Ltac scopes :=
  repeat first
    [ progress cbn [scopes_after app]
    | rewrite decide_True by done
    | rewrite scopes_after_balanced_app
        by (intros ?; apply scopes_after_quiet; assumption) ].

Section Scopes.
Context {impl : ModelImpl} {engine : Engine}.

Lemma Editor_enter_no_scope r applied todo :
  always (λ ev, is_scope_event ev = false) any_world
    (Editor_enter r applied todo).
Proof. always_walk; intros; by simplify_eq. Qed.

Lemma restore_all_no_scope r es :
  always (λ ev, is_scope_event ev = false) any_world (restore_all r es).
Proof. always_walk; intros; by simplify_eq. Qed.

Lemma modulize_no_scope module mg node name :
  always (λ ev, is_scope_event ev = false) any_world
    (modulize module mg node name).
Proof. always_walk; intros; by simplify_eq. Qed.

Lemma dispatch_if_needed_scopes w s :
  scopes_after s (trace_of (dispatch_if_needed w)) = Some s.
Proof.
  destruct (dispatch_if_needed w) as [[res w'] t] eqn:E.
  unfold dispatch_if_needed, load_and_dispatch, patching, alteration in E.
  exec E; simplify_eq; cbn [result_of world_of trace_of fst snd].
  all: by scopes.
Qed.

Lemma run_edited_scopes fn inputs g inference w s :
  scopes_after s (trace_of (run_edited fn inputs g inference w)) = Some s.
Proof.
  destruct (run_edited fn inputs g inference w) as [[res w'] t] eqn:E.
  unfold run_edited, _register_increment_hook, compile, eval, train,
    inference_mode, HookModel_scope, call_fn, RemovableHandle_remove in E.
  exec E; simplify_eq; cbn [result_of world_of trace_of fst snd].
  all: match goal with
       | H : run_steps ?r ?l ?w0 = (_, _, ?t) |- _ =>
           destruct (run_steps_quiet r l w0) as [Hsteps _];
           rewrite H in Hsteps; cbn [trace_of snd] in Hsteps;
           apply step_events_quiet in Hsteps
       | |- _ => idtac
       end.
  all: rewrite <- ?app_assoc, ?app_nil_r.
  all: by scopes.
Qed.

Lemma call_scopes fn inputs g edits_arg inference w s :
  scopes_after s (trace_of (__call__ fn inputs g edits_arg inference w))
  = Some s.
Proof.
  rewrite call_decompose.
  pose proof (dispatch_if_needed_scopes w) as H1.
  destruct (dispatch_if_needed w) as [[[[]|e1] w1] t1];
    cbn [result_of world_of trace_of fst snd] in *; [|done].
  destruct (local_model (self w1)) as [r|];
    cbn [result_of world_of trace_of fst snd]; [|done].
  cbv zeta. set (es := edits_or_recorded edits_arg w).
  destruct (Editor_enter_no_scope r [] es w1) as [H2 _].
  destruct (Editor_enter r [] es w1) as [[[[]|e2] w2] t2];
    cbn [result_of world_of trace_of fst snd] in *.
  2:{ rewrite scopes_after_balanced_app by done. cbn [scopes_after].
      by apply scopes_after_quiet. }
  pose proof (run_edited_scopes fn inputs g inference w2) as H3.
  destruct (run_edited fn inputs g inference w2) as [[rb w3] t3].
  destruct (restore_all_no_scope r (rev es) w3) as [H4 _].
  destruct (restore_all r (rev es) w3) as [[x w4] t4].
  cbn [result_of world_of trace_of fst snd] in *.
  rewrite scopes_after_balanced_app by done. cbn [scopes_after].
  rewrite scopes_after_balanced_app
    by (intros ?; by apply scopes_after_quiet).
  rewrite scopes_after_balanced_app by done. cbn [scopes_after].
  by apply scopes_after_quiet.
Qed.

Lemma init_scopes rpm args_ alter_ tok kwargs_ w s :
  scopes_after s (trace_of (__init__ rpm args_ alter_ tok kwargs_ w)) = Some s.
Proof.
  destruct (__init__ rpm args_ alter_ tok kwargs_ w) as [[res w'] t] eqn:E.
  unfold __init__, build_meta_model, scan_example, patching, alteration,
    init_empty_weights in E.
  exec E; simplify_eq; cbn [result_of world_of trace_of fst snd].
  all: by scopes.
Qed.

Lemma lifetime_scopes us w s :
  scopes_after s (trace_of (lifetime us w)) = Some s.
Proof.
  revert w. induction us as [|u us IH]; intros w; [done|].
  cbn [lifetime]. rewrite bind_run. unfold attempt at 1.
  assert (∀ s, scopes_after s (trace_of (use u w)) = Some s) as Hu.
  { intros s'. destruct u as [fn inputs g edits_arg inference
                             | module mg node name]; cbn [use].
    - rewrite bind_run.
      pose proof (call_scopes fn inputs g edits_arg inference w s') as Hc.
      destruct (__call__ fn inputs g edits_arg inference w) as [[[v|e] w1] t1];
        cbn [trace_of snd] in *; [|done].
      cbn. by rewrite app_nil_r.
    - destruct (modulize_no_scope module mg node name w) as [Hq _].
      by apply scopes_after_quiet. }
  destruct (use u w) as [[ru w1] t1]. cbn [trace_of snd] in Hu.
  specialize (IH w1). destruct (lifetime us w1) as [[rl w2] t2].
  cbn [trace_of snd] in *. by rewrite scopes_after_balanced_app.
Qed.

(** X17.  The [with] blocks of the class (the patcher, [init_empty_weights],
    [inference_mode], [HookModel]) are left in the reverse of the order in
    which they were entered, each exactly once, on every path of
    [__init__] and of [__call__], returning or raising, and over any
    sequence of uses: the trace leaves open exactly the scopes that were
    open before it, and a patcher scope is left with the patcher it was
    entered with. *)
Theorem scopes_left_in_reverse_order
    rpm args_ alter_ tok kwargs_ fn inputs g edits_arg inference us w stack :
  scopes_after stack (trace_of (__init__ rpm args_ alter_ tok kwargs_ w))
  = Some stack
  ∧ scopes_after stack (trace_of (__call__ fn inputs g edits_arg inference w))
    = Some stack
  ∧ scopes_after stack (trace_of (lifetime us w)) = Some stack.
Proof.
  split_and!; [apply init_scopes | apply call_scopes | apply lifetime_scopes].
Qed.

End Scopes.

(** * More on [modulize] *)

Section ModulizePaths.
Context {engine : Engine}.

(** X18.  [modulize] appends to [self.edits] only once both edits have been
    applied to the meta model: when it raises, at whatever step,
    [self.edits] is as it was and no append was made; when it returns,
    [self.edits] has grown by exactly the wrapper edit and the graph edit,
    in this order. *)
Theorem modulize_records_nothing_on_failure module mg node name w :
  (∀ e, result_of (modulize module mg node name w) = Raised e →
        edits (self (world_of (modulize module mg node name w)))
        = edits (self w)
        ∧ List.filter is_append (trace_of (modulize module mg node name w)) = [])
  ∧ (result_of (modulize module mg node name w) = Ok tt →
     ∃ path,
       module_path (attrs_of module) = Some path
       ∧ edits (self (world_of (modulize module mg node name w)))
         = edits (self w)
           ++ [WrapperModuleEdit path name (wrapper_for module path name);
               GraphEdit path mg]).
Proof.
  destruct (modulize module mg node name w) as [[res w'] t] eqn:E.
  unfold modulize, edit_meta_model, append_edit in E.
  exec E; simplify_eq; cbn [result_of world_of trace_of fst snd].
  all: split; [intros e0 [=]; subst; by split | intros [=]].
  all: eexists; split; [reflexivity|].
  all: cbn. by rewrite <- app_assoc.
Qed.



End ModulizePaths.

(** * What the uses of a model keep *)

#[global] Instance same_arguments_preorder : PreOrder same_arguments.
Proof.
  split.
  - intros w. by split_and!.
  - intros w1 w2 w3 (?&?&?&?&?&?&?) (?&?&?&?&?&?&?).
    split_and!; try congruence. by etrans.
Qed.

Section Uses.
Context {impl : ModelImpl} {engine : Engine}.

Lemma lifetime_same_arguments us :
  always (λ _, True) same_arguments (lifetime us).
Proof.
  always_walk; intros; simplify_eq; try done.
  all: unfold same_arguments; cbn; split_and!; try done.
  all: by apply prefix_app_r.
Qed.

Lemma modulize_keeps_host module mg node name :
  always (λ _, True)
    (λ w w', local_model (self w') = local_model (self w)
             ∧ dispatched (self w') = dispatched (self w))
    (modulize module mg node name).
Proof.
  assert (PreOrder (λ w w' : World,
            local_model (self w') = local_model (self w)
            ∧ dispatched (self w') = dispatched (self w))).
  { split; [done|]. intros ??? [??] [??]. split; congruence. }
  always_walk; intros; by simplify_eq.
Qed.

Lemma use_keeps_host u w :
  dispatched (self w) = true →
  local_model (self (world_of (use u w))) = local_model (self w)
  ∧ dispatched (self (world_of (use u w))) = true.
Proof.
  intros Hd.
  destruct u as [fn inputs g edits_arg inference | module mg node name].
  - cbn [use]. rewrite run_bind, call_split.
    destruct (dispatch_if_needed_cases w) as [[_ ->] | [Hd' _]]; [|congruence].
    rewrite prepend_nil.
    destruct (Editor_keeps_self (edits_or_recorded edits_arg w)
                fn inputs g inference w) as [_ Hs].
    destruct (Editor (edits_or_recorded edits_arg w)
                (run_edited fn inputs g inference) w) as [[[a|e] w1] t1];
      cbn [result_of world_of trace_of fst snd prepend] in *.
    all: cbn; by rewrite Hs.
  - cbn [use].
    destruct (modulize_keeps_host module mg node name w) as [_ [Hl Hd']].
    split; congruence.
Qed.

Lemma lifetime_keeps_host us w :
  dispatched (self w) = true →
  local_model (self (world_of (lifetime us w))) = local_model (self w)
  ∧ dispatched (self (world_of (lifetime us w))) = true.
Proof.
  revert w. induction us as [|u us IH]; intros w Hd; [done|].
  cbn [lifetime]. rewrite bind_run. unfold attempt.
  destruct (use_keeps_host u w Hd) as [Hl Hd'].
  destruct (use u w) as [[ru w1] t1]. cbn [world_of fst snd] in *.
  destruct (IH w1 Hd') as [Hl2 Hd2].
  destruct (lifetime us w1) as [[rl w2] t2]. cbn in *.
  split; congruence.
Qed.

(** X21.  Over any sequence of uses of the model object ([__call__]s and
    [modulize]s, returning or raising): the name and the arguments the
    constructor stored are never rewritten; [self.edits] only grows (what
    was recorded stays, in its order, at the front); and once the model is
    dispatched, [local_model] is never rebound, so that every later run is
    made on the same module object (for a model constructed from a module,
    the module object given). *)
Theorem uses_keep_arguments_and_host us w :
  same_arguments w (world_of (lifetime us w))
  ∧ (dispatched (self w) = true →
     local_model (self (world_of (lifetime us w))) = local_model (self w)
     ∧ dispatched (self (world_of (lifetime us w))) = true).
Proof.
  split; [by destruct (lifetime_same_arguments us w) | apply lifetime_keeps_host].
Qed.

End Uses.

(** * The small model *)


(** C1.  A host execution that raises: [__call__] raises, the hooks of
    [HookModel] are detached and the module tree is restored, but the
    increment hook, registered at the start of the run, is still registered
    on the host when [__call__] is left; [increment_hook.remove()] was never
    reached.  The same call with a host execution that returns leaves no
    hook behind. *)
Theorem increment_hook_left_registered_when_fn_raises :
  result_of (__call__ (impl := Demo.family) (engine := Demo.engine)
               Demo.failing_fn (PyObj 5) 1%positive None true Demo.custom_world)
  = Raised (PyExn "RuntimeError")
  ∧ trace_of (__call__ (impl := Demo.family) (engine := Demo.engine)
                Demo.failing_fn (PyObj 5) 1%positive None true Demo.custom_world)
    = [EvEditorEnter [];
       EvRegisterIncrementHook 0 (IncrementHook 1%positive);
       EvCompile 1%positive; EvEval; EvPrepareInputs (PyObj 5);
       EvInferenceModeEnter true;
       EvHookModelEnter (HookModel_for 1%positive Demo.graph0);
       EvFn (PyObj 5);
       EvIntervene (PyObj 5) "layer0" 1%positive "input";
       EvIntervene (PyObj 5) "layer0" 1%positive "output";
       EvRaise (PyExn "RuntimeError");
       EvHookModelExit; EvInferenceModeExit; EvEditorExit]
  ∧ forward_hooks <$> heap Demo.custom_world !! 1%positive = Some []
  ∧ forward_hooks <$>
      heap (world_of (__call__ (impl := Demo.family) (engine := Demo.engine)
                        Demo.failing_fn (PyObj 5) 1%positive None true
                        Demo.custom_world)) !! 1%positive
    = Some [(0, IncrementHook 1%positive)]
  ∧ hook_models <$>
      heap (world_of (__call__ (impl := Demo.family) (engine := Demo.engine)
                        Demo.failing_fn (PyObj 5) 1%positive None true
                        Demo.custom_world)) !! 1%positive
    = Some []
  ∧ forward_hooks <$>
      heap (world_of (__call__ (impl := Demo.family) (engine := Demo.engine)
                        (@_run_local Demo.family) (PyObj 5) 1%positive None true
                        Demo.custom_world)) !! 1%positive
    = Some [].
Proof. vm_compute. by split_and!. Qed.

(** The claim C3 as stated fails: in a run whose compilation raises, the
    increment hook is attached to the host before [graph.compile] is
    called. *)
Lemma increment_hook_attached_before_compile :
  ¬ preceded_by_compile attaches_or_runs
      (trace_of (__call__ (impl := Demo.family) (engine := Demo.engine)
                   (@_run_local Demo.family) (PyObj 5) 2%positive None true
                   Demo.custom_world)).
Proof.
  assert (trace_of (__call__ (impl := Demo.family) (engine := Demo.engine)
                      (@_run_local Demo.family) (PyObj 5) 2%positive None true
                      Demo.custom_world)
          = [EvEditorEnter []]
            ++ EvRegisterIncrementHook 0 (IncrementHook 2%positive)
            :: [EvCompile 2%positive;
                EvRaise (PyExn "MissingObservationPoint"); EvEditorExit])
    as -> by (vm_compute; reflexivity).
  intros H. destruct (H _ _ _ eq_refl eq_refl) as [g Hin].
  apply list_elem_of_In in Hin. by destruct Hin as [[=]|[]].
Qed.

(** The claim C9 as stated fails: when the load raises, the next call loads
    again. *)
Lemma load_local_called_again_after_failure :
  ¬ (length (List.filter is_load_local
               (trace_of (lifetime (impl := Demo.offline) (engine := Demo.engine)
                            Demo.two_calls Demo.offline_world))) ≤ 1)%nat.
Proof. vm_compute. lia. Qed.

(** * The theorems at work on the small model *)


Lemma compile_before_observation_and_run_witness :
  trace_of (__call__ (impl := Demo.family) (engine := Demo.engine)
              (@_run_local Demo.family) (PyObj 5) 2%positive None true
              Demo.custom_world)
  = [EvEditorEnter []; EvRegisterIncrementHook 0 (IncrementHook 2%positive)]
    ++ EvCompile 2%positive :: EvRaise (PyExn "MissingObservationPoint")
    :: [EvEditorExit]
  ∧ result_of (__call__ (impl := Demo.family) (engine := Demo.engine)
                 (@_run_local Demo.family) (PyObj 5) 2%positive None true
                 Demo.custom_world)
    = Raised (PyExn "MissingObservationPoint")
  ∧ Forall (λ ev, runs_or_observes ev = false)
      (trace_of (__call__ (impl := Demo.family) (engine := Demo.engine)
                   (@_run_local Demo.family) (PyObj 5) 2%positive None true
                   Demo.custom_world)).
Proof.
  assert (trace_of (__call__ (impl := Demo.family) (engine := Demo.engine)
                      (@_run_local Demo.family) (PyObj 5) 2%positive None true
                      Demo.custom_world)
          = [EvEditorEnter []; EvRegisterIncrementHook 0 (IncrementHook 2%positive)]
            ++ EvCompile 2%positive :: EvRaise (PyExn "MissingObservationPoint")
            :: [EvEditorExit]) as Ht by (vm_compute; reflexivity).
  split; [exact Ht|].
  exact (proj2 (compile_before_observation_and_run
                  (impl := Demo.family) (engine := Demo.engine)
                  (@_run_local Demo.family) (PyObj 5) 2%positive None true
                  Demo.custom_world) _ _ _ Ht).
Defined.

Lemma hook_model_observes_graph_modules_witness :
  graphs Demo.custom_world !! 1%positive = Some Demo.graph0
  ∧ EvHookModelEnter (HookModel_for 1%positive Demo.graph0)
    ∈ trace_of (__call__ (impl := Demo.family) (engine := Demo.engine)
                  (@_run_local Demo.family) (PyObj 5) 1%positive None true
                  Demo.custom_world)
  ∧ ∀ p, p ∈ hm_modules (HookModel_for 1%positive Demo.graph0) ↔
         ∃ k, k ∈ keys (argument_node_names Demo.graph0)
              ∧ p = drop_last_two_components k.
Proof.
  assert (graphs Demo.custom_world !! 1%positive = Some Demo.graph0) as HG
    by (vm_compute; reflexivity).
  assert (EvHookModelEnter (HookModel_for 1%positive Demo.graph0)
          ∈ trace_of (__call__ (impl := Demo.family) (engine := Demo.engine)
                        (@_run_local Demo.family) (PyObj 5) 1%positive None true
                        Demo.custom_world)) as Hin
    by (vm_compute; repeat constructor).
  split; [exact HG|]. split; [exact Hin|].
  apply (hook_model_observes_graph_modules
           (impl := Demo.family) (engine := Demo.engine)
           (@_run_local Demo.family) (PyObj 5) 1%positive None true
           Demo.custom_world Demo.graph0 _ HG Hin).
Defined.


Lemma init_scans_once_after_construction_witness :
  result_of (__init__ (impl := Demo.family) (engine := Demo.engine)
               (inr 1%positive) [] true None [] Demo.world0) = Ok tt
  ∧ length (List.filter is_scan
              (trace_of (__init__ (impl := Demo.family) (engine := Demo.engine)
                           (inr 1%positive) [] true None [] Demo.world0))) = 1
  ∧ Forall (λ ev, is_host_execution ev = false)
      (trace_of (__init__ (impl := Demo.family) (engine := Demo.engine)
                   (inr 1%positive) [] true None [] Demo.world0)).
Proof.
  assert (result_of (__init__ (impl := Demo.family) (engine := Demo.engine)
                       (inr 1%positive) [] true None [] Demo.world0) = Ok tt)
    as Hok by (vm_compute; reflexivity).
  split; [exact Hok|].
  destruct (init_scans_once_after_construction
              (impl := Demo.family) (engine := Demo.engine)
              (inr 1%positive) [] true None [] Demo.world0 Hok)
    as (p & mm & build & x & x' & t & h' & H).
  exact (proj2 (proj2 (proj2 (proj2 (proj2 (proj2 (proj2 (proj2 (proj2 (proj2 H)))))))))).
Defined.


Lemma modulize_records_edits_in_order_witness :
  result_of (modulize (engine := Demo.engine)
               Demo.meta_root 1%positive "a" "probe" Demo.custom_world) = Ok tt
  ∧ edits (self (world_of (modulize (engine := Demo.engine)
                             Demo.meta_root 1%positive "a" "probe" Demo.custom_world)))
    = [WrapperModuleEdit EmptyString "probe"
         (wrapper_for Demo.meta_root EmptyString "probe");
       GraphEdit EmptyString 1%positive]
  ∧ applied_edits
      (trace_of
         (__call__ (impl := Demo.family) (engine := Demo.engine)
            (@_run_local Demo.family) (PyObj 5) 1%positive None true
            (world_of (modulize (engine := Demo.engine)
                         Demo.meta_root 1%positive "a" "probe" Demo.custom_world))))
    `prefix_of`
    edits (self Demo.custom_world)
    ++ [WrapperModuleEdit EmptyString "probe"
          (wrapper_for Demo.meta_root EmptyString "probe");
        GraphEdit EmptyString 1%positive].
Proof.
  assert (result_of (modulize (engine := Demo.engine)
                       Demo.meta_root 1%positive "a" "probe" Demo.custom_world)
          = Ok tt) as Hok by (vm_compute; reflexivity).
  split; [exact Hok|]. split; [vm_compute; reflexivity|].
  destruct (modulize_records_edits_in_order
              (impl := Demo.family) (engine := Demo.engine)
              Demo.meta_root 1%positive "a" "probe" Demo.custom_world
              (@_run_local Demo.family) (PyObj 5) 1%positive true
              (world_of (modulize (engine := Demo.engine)
                           Demo.meta_root 1%positive "a" "probe" Demo.custom_world))
              Hok eq_refl)
    as (path & mm & h & t1 & t2 & Hpath & _ & _ & _ & _ & _ & _ & _ & _ & Hpre & _).
  vm_compute in Hpath. injection Hpath as <-. exact Hpre.
Defined.

Lemma load_local_returns_at_most_once_witness :
  dispatched (self Demo.custom_world) = true
  ∧ List.filter is_load_local
      (trace_of (lifetime (impl := Demo.family) (engine := Demo.engine)
                   Demo.two_calls Demo.custom_world)) = []
  ∧ dispatched
      (self (world_of (lifetime (impl := Demo.family) (engine := Demo.engine)
                         Demo.two_calls Demo.custom_world))) = true.
Proof.
  assert (dispatched (self Demo.custom_world) = true) as Hd
    by (vm_compute; reflexivity).
  split; [exact Hd|].
  exact (proj1 (proj2 (load_local_returns_at_most_once
                         (impl := Demo.family) (engine := Demo.engine)
                         Demo.two_calls Demo.custom_world
                         (@_run_local Demo.family) (PyObj 5) 1%positive None true
                         1%positive [] true None [])) Hd).
Defined.

Lemma dispatch_freezes_parameters_witness :
  dispatched (self Demo.repo_world) = false
  ∧ result_of (dispatch_if_needed (impl := Demo.family) (engine := Demo.engine)
                 Demo.repo_world) = Ok tt
  ∧ ∃ r h,
      local_model
        (self (world_of (dispatch_if_needed (impl := Demo.family)
                           (engine := Demo.engine) Demo.repo_world))) = Some r
      ∧ heap (world_of (dispatch_if_needed (impl := Demo.family)
                          (engine := Demo.engine) Demo.repo_world)) !! r
        = Some h
      ∧ Forall (λ p, requires_grad p = false) (parameters (tree h)).
Proof.
  assert (dispatched (self Demo.repo_world) = false) as Hd
    by (vm_compute; reflexivity).
  assert (result_of (dispatch_if_needed (impl := Demo.family)
                       (engine := Demo.engine) Demo.repo_world) = Ok tt) as Hok
    by (vm_compute; reflexivity).
  split; [exact Hd|]. split; [exact Hok|].
  destruct (dispatch_freezes_parameters (impl := Demo.family)
              (engine := Demo.engine) Demo.repo_world Hd Hok)
    as (r & h & m & _ & Hlm & Hh & _ & _ & Hfrozen).
  exists r, h. split; [exact Hlm|]. split; [exact Hh | exact Hfrozen].
Defined.

Lemma custom_world_has_host :
  ∀ r, local_model (self Demo.custom_world) = Some r →
       is_Some (heap Demo.custom_world !! r).
Proof.
  intros r Hr. vm_compute in Hr. injection Hr as <-.
  vm_compute. eexists. reflexivity.
Defined.


Lemma init_load_meta_failure_witness :
  @_load_meta Demo.missing "gpt2" [] [] = Raised (PyExn "OSError")
  ∧ result_of (__init__ (impl := Demo.missing) (engine := Demo.engine)
                 (inl "gpt2") [] true None [] Demo.world0)
    = Raised (PyExn "OSError").
Proof.
  split; [reflexivity|].
  rewrite (init_load_meta_failure (impl := Demo.missing)
             (engine := Demo.engine) "gpt2" [] true None [] Demo.world0
             (PyExn "OSError") eq_refl).
  reflexivity.
Defined.

Lemma module_paths_are_unique_witness :
  well_named Demo.net = true
  ∧ NoDup (module_names EmptyString (to_meta_model Demo.net)).
Proof.
  assert (well_named Demo.net = true) as Hm by (vm_compute; reflexivity).
  split; [exact Hm|].
  exact (proj1 (proj2 (module_paths_are_unique Demo.net Hm))).
Defined.


Lemma call_returns_in_eval_mode_witness :
  result_of Demo.returning_run = Ok (PyObj 5)
  ∧ ∃ r h', local_model (self (world_of Demo.returning_run)) = Some r
            ∧ heap (world_of Demo.returning_run) !! r = Some h'
            ∧ training h' = false.
Proof.
  assert (result_of Demo.returning_run = Ok (PyObj 5)) as Hok
    by (vm_compute; reflexivity).
  split; [exact Hok|].
  exact (call_returns_in_eval_mode
           (impl := Demo.family) (engine := Demo.engine)
           (@_run_local Demo.family) (PyObj 5) 1%positive None false
           Demo.custom_world (PyObj 5) Hok).
Defined.


Lemma call_raise_leaves_increment_hook_witness :
  result_of Demo.failing_run = Raised (PyExn "RuntimeError")
  ∧ EvRegisterIncrementHook 0 (IncrementHook 1%positive)
    ∈ trace_of Demo.failing_run
  ∧ List.filter is_remove (trace_of Demo.failing_run) = [].
Proof.
  assert (result_of Demo.failing_run = Raised (PyExn "RuntimeError")) as Hbad
    by (vm_compute; reflexivity).
  assert (EvRegisterIncrementHook 0 (IncrementHook 1%positive)
          ∈ trace_of Demo.failing_run) as Hin
    by (vm_compute; repeat constructor).
  split; [exact Hbad|]. split; [exact Hin|].
  destruct (call_raise_leaves_increment_hook
              (impl := Demo.family) (engine := Demo.engine)
              Demo.failing_fn (PyObj 5) 1%positive None false
              Demo.custom_world (PyExn "RuntimeError") 0
              (IncrementHook 1%positive) custom_world_has_host Hbad Hin)
    as (r & h1 & h' & _ & _ & _ & _ & _ & _ & Hrem).
  exact Hrem.
Defined.

Lemma call_raise_leaves_training_mode_witness :
  result_of Demo.failing_run = Raised (PyExn "RuntimeError")
  ∧ EvTrain ∈ trace_of Demo.failing_run
  ∧ ∃ r h', local_model (self (world_of Demo.failing_run)) = Some r
            ∧ heap (world_of Demo.failing_run) !! r = Some h'
            ∧ training h' = true.
Proof.
  assert (result_of Demo.failing_run = Raised (PyExn "RuntimeError")) as Hbad
    by (vm_compute; reflexivity).
  assert (EvTrain ∈ trace_of Demo.failing_run) as Hin
    by (vm_compute; repeat constructor).
  split; [exact Hbad|]. split; [exact Hin|].
  exact (call_raise_leaves_training_mode
           (impl := Demo.family) (engine := Demo.engine)
           Demo.failing_fn (PyObj 5) 1%positive None false
           Demo.custom_world (PyExn "RuntimeError")
           custom_world_has_host Hbad Hin).
Defined.

Lemma call_load_failure_changes_nothing_witness :
  dispatched (self Demo.offline_world) = false
  ∧ world_of (__call__ (impl := Demo.offline) (engine := Demo.engine)
                (@_run_local Demo.family) (PyObj 5) 1%positive None true
                Demo.offline_world)
    = Demo.offline_world.
Proof.
  assert (dispatched (self Demo.offline_world) = false) as Hd
    by (vm_compute; reflexivity).
  split; [exact Hd|].
  rewrite (call_load_failure_changes_nothing
             (impl := Demo.offline) (engine := Demo.engine)
             (@_run_local Demo.family) (PyObj 5) 1%positive None true
             Demo.offline_world (PyExn "OSError") Hd eq_refl).
  reflexivity.
Defined.

Lemma module_of_recovers_module_path_witness :
  has_dot "output" = false ∧ has_dot "0" = false
  ∧ module_of "layer1.mlp.output.0" = "layer1.mlp".
Proof.
  split; [reflexivity|]. split; [reflexivity|].
  exact (proj1 (module_of_recovers_module_path "layer1.mlp" "output" "0"
                  1%positive Demo.graph0 eq_refl eq_refl)).
Defined.

Lemma module_of_short_key_witness :
  has_dot "output" = false ∧ has_dot "0" = false
  ∧ module_of "output.0" = EmptyString.
Proof.
  split; [reflexivity|]. split; [reflexivity|].
  exact (proj1 (proj2 (module_of_short_key "output" "0" eq_refl eq_refl))).
Defined.

Lemma split_join_inverse_witness :
  ["layer0"; "output"] ≠ []
  ∧ Forall (λ x, has_dot x = false) ["layer0"; "output"]
  ∧ Py.split "." (Py.join "." ["layer0"; "output"]) = ["layer0"; "output"].
Proof.
  assert (["layer0"; "output"] ≠ @nil string) as Hne by discriminate.
  assert (Forall (λ x, has_dot x = false) ["layer0"; "output"]) as Hdots
    by (repeat constructor).
  split; [exact Hne|]. split; [exact Hdots|].
  exact (proj2 (proj2 (proj2 (split_join_inverse "layer0.output.0"
                                ["layer0"; "output"] Hne Hdots)))).
Defined.


Lemma modulize_records_nothing_on_failure_witness :
  result_of (modulize (engine := Demo.strict) Demo.meta_root 1%positive
               "b" "probe" Demo.custom_world)
  = Raised (PyExn "KeyError")
  ∧ edits (self (world_of (modulize (engine := Demo.strict) Demo.meta_root
                             1%positive "b" "probe" Demo.custom_world)))
    = edits (self Demo.custom_world).
Proof.
  assert (result_of (modulize (engine := Demo.strict) Demo.meta_root 1%positive
                       "b" "probe" Demo.custom_world)
          = Raised (PyExn "KeyError")) as Hbad by (vm_compute; reflexivity).
  split; [exact Hbad|].
  exact (proj1 (proj1 (modulize_records_nothing_on_failure
                         (engine := Demo.strict) Demo.meta_root 1%positive
                         "b" "probe" Demo.custom_world) _ Hbad)).
Defined.

Lemma uses_keep_arguments_and_host_witness :
  dispatched (self Demo.custom_world) = true
  ∧ local_model (self (world_of (lifetime (impl := Demo.family)
                                   (engine := Demo.engine)
                                   Demo.two_calls Demo.custom_world)))
    = local_model (self Demo.custom_world).
Proof.
  assert (dispatched (self Demo.custom_world) = true) as Hd
    by (vm_compute; reflexivity).
  split; [exact Hd|].
  exact (proj1 (proj2 (uses_keep_arguments_and_host
                         (impl := Demo.family) (engine := Demo.engine)
                         Demo.two_calls Demo.custom_world) Hd)).
Defined.
